(** * College recruitment site: the page script, embedded and verified

    A shallow embedding of [js/script.js] (the Rutgers variant with the
    info-request form and the reveal animations; the other variants of the
    repository differ only in the configured counters and in comments).

    The script is glue over the browser: it reads and writes DOM elements,
    schedules timers, and reacts to intersection, scroll and click events.
    The embedding keeps that shape.  A [World] holds the document, the
    virtual clock, the pending timers, the observers and the trace of host
    calls the script made; every function of the script is a function on
    worlds, written in a small state-and-exception monad because property
    access on [null] throws in JavaScript and leaves earlier writes in
    place.  Numbers are IEEE 754 binary64 values (Rocq's primitive floats),
    strings are sequences of code units below 256. *)

From Stdlib Require Import ZArith QArith Floats String Ascii DecimalString DecimalPos
  DecimalN List Lia.
From stdpp Require Import gmap strings list.

Local Open Scope Z_scope.

(** ** JavaScript values *)

Module JS.

(** *** Numbers *)

(** [Math.floor] always returns an integral Number, a NaN or an infinity;
    the type records that, so that [toLocaleString] below only has to
    format integral values. *)
Inductive Integral : Type :=
| INaN
| IInfinity (negative : bool)
| INegZero
| IInt (z : Z).

(** The exact integer [⌊(-1)^s * m * 2^e⌋]. *)
Definition floor_finite (s : bool) (m : positive) (e : Z) : Z :=
  Z.shiftl (cond_Zopp s (Zpos m)) e.

Definition Math_floor (x : float) : Integral :=
  match Prim2SF x with
  | S754_nan => INaN
  | S754_infinity s => IInfinity s
  | S754_zero s => if s then INegZero else IInt 0
  | S754_finite s m e => IInt (floor_finite s m e)
  end.

(** [Number_to_Z x = Some T] when [x] is the Number written by the integer
    literal [T]: finite, without fractional part, and not the negative
    zero (which no integer literal denotes). *)
Definition Number_to_Z (x : float) : option Z :=
  match Prim2SF x with
  | S754_zero false => Some 0
  | S754_finite s m e =>
      if (0 <=? e) || (Zpos m mod 2 ^ (- e) =? 0)
      then Some (floor_finite s m e) else None
  | _ => None
  end.

(** Decimal digits of a natural number, most significant first. *)
Definition digits (n : N) : list ascii :=
  list_ascii_of_string (NilZero.string_of_uint (N.to_uint n)).

(** Insert the group separator after every third digit, counting from the
    least significant one; [rev_digits] is least significant first and [k]
    counts the digits already in the current group. *)
Fixpoint group3 (rev_digits : list ascii) (k : nat) : list ascii :=
  match rev_digits with
  | [] => []
  | d :: ds =>
      match k with
      | 3%nat => ","%char :: d :: group3 ds 1
      | _ => d :: group3 ds (S k)
      end
  end.

Definition group_thousands (n : N) : string :=
  string_of_list_ascii (rev (group3 (rev (digits n)) 0)).

(** [Number.prototype.toLocaleString()] of an integral Number in the
    en-US locale of the spec's examples: sign, then the digits in groups
    of three.  Exact for the integers up to 2^53, which print with all
    their digits. *)
Definition toLocaleString (x : Integral) : string :=
  match x with
  | INaN => "NaN"
  | IInfinity false => "∞"
  | IInfinity true => "-∞"
  | INegZero => "-0"
  | IInt z =>
      if z <? 0 then "-" +:+ group_thousands (Z.to_N (- z))
      else group_thousands (Z.to_N z)
  end.

(** *** Strings *)

(** ECMAScript WhiteSpace and LineTerminator code units below 256:
    TAB, LF, VT, FF, CR, SPACE and NO-BREAK SPACE. *)
Definition is_whitespace (c : ascii) : bool :=
  let n := nat_of_ascii c in
  ((9 <=? n) && (n <=? 13) || (n =? 32) || (n =? 160))%nat.

Fixpoint trimStart (s : string) : string :=
  match s with
  | String c s' => if is_whitespace c then trimStart s' else s
  | EmptyString => EmptyString
  end.

(** Drops trailing white space: a character is kept when it is not white
    space or when something that is kept follows it. *)
Fixpoint trimEnd (s : string) : string :=
  match s with
  | String c s' =>
      match trimEnd s' with
      | EmptyString => if is_whitespace c then EmptyString else String c EmptyString
      | t => String c t
      end
  | EmptyString => EmptyString
  end.

(** [String.prototype.trim]. *)
Definition trim (s : string) : string := trimEnd (trimStart s).

End JS.

(** ** The document *)

(** Elements are referred to by their position in the document. *)
Abbreviation node := nat.

(** The children of an element, as the script last wrote them: through
    [textContent] (a single text node) or through [innerHTML] (markup).
    Markup is kept as the string that was assigned, not parsed into nodes;
    what is stated about markup read back, or about the text of markup, is
    stated for strings the parser and the serialiser leave as they are
    ([verbatim_text] and [labelled] below). *)
Inductive Content : Type :=
| Text (s : string)
| HTML (markup : string).

Record Element : Type := mkElement {
  localName : string;
  parentNode : option node;
  attributes : gmap string string;
  classList : gset string;
  content : Content;
  style : gmap string string;
  value : string;
  defaultValue : string;
  disabled : bool;
  form : option node;            (* the form owner of a control *)
  constraint : string -> bool;   (* the control's validity, from its markup *)
  offsetTop : Z;
  clientHeight : Z
}.

Definition with_classList (f : gset string -> gset string) (e : Element) : Element :=
  mkElement (localName e) (parentNode e) (attributes e) (f (classList e))
    (content e) (style e) (value e) (defaultValue e) (disabled e) (form e)
    (constraint e) (offsetTop e) (clientHeight e).

Definition with_content (c : Content) (e : Element) : Element :=
  mkElement (localName e) (parentNode e) (attributes e) (classList e)
    c (style e) (value e) (defaultValue e) (disabled e) (form e)
    (constraint e) (offsetTop e) (clientHeight e).

Definition with_style (f : gmap string string -> gmap string string) (e : Element) : Element :=
  mkElement (localName e) (parentNode e) (attributes e) (classList e)
    (content e) (f (style e)) (value e) (defaultValue e) (disabled e) (form e)
    (constraint e) (offsetTop e) (clientHeight e).

Definition with_value (v : string) (e : Element) : Element :=
  mkElement (localName e) (parentNode e) (attributes e) (classList e)
    (content e) (style e) v (defaultValue e) (disabled e) (form e)
    (constraint e) (offsetTop e) (clientHeight e).

Definition with_disabled (b : bool) (e : Element) : Element :=
  mkElement (localName e) (parentNode e) (attributes e) (classList e)
    (content e) (style e) (value e) (defaultValue e) b (form e)
    (constraint e) (offsetTop e) (clientHeight e).

(** A freshly created element ([document.createElement]). *)
Definition createElement (name : string) : Element :=
  mkElement name None ∅ ∅ (Text EmptyString) ∅ EmptyString EmptyString false None
    (fun _ => true) 0 0.

Definition getAttribute (e : Element) (name : string) : option string :=
  attributes e !! name.

Definition contains (e : Element) (token : string) : bool :=
  bool_decide (token ∈ classList e).

(** Markup to text: everything between [<] and the next [>] is dropped.
    Character references are not decoded, so statements about the text of
    markup are made for markup without [&]. *)
Fixpoint markup_text (in_tag : bool) (h : string) : string :=
  match h with
  | EmptyString => EmptyString
  | String c h' =>
      if in_tag then markup_text (negb (Ascii.eqb c ">")) h'
      else if Ascii.eqb c "<" then markup_text true h'
      else String c (markup_text false h')
  end.

(** The HTML serialisation of a text node. *)
Fixpoint escapeHTML (s : string) : string :=
  match s with
  | EmptyString => EmptyString
  | String c s' =>
      (if Ascii.eqb c "&" then "&amp;"
       else if Ascii.eqb c "<" then "&lt;"
       else if Ascii.eqb c ">" then "&gt;"
       else if (nat_of_ascii c =? 160)%nat then "&nbsp;"
       else String c EmptyString) +:+ escapeHTML s'
  end.

Definition textContent (e : Element) : string :=
  match content e with
  | Text s => s
  | HTML h => markup_text false h
  end.

Definition innerHTML (e : Element) : string :=
  match content e with
  | Text s => escapeHTML s
  | HTML h => h
  end.

(** A label that reads the same as text and as markup: it contains
    neither [<] nor [&]. *)
Fixpoint plain_text (s : string) : bool :=
  match s with
  | EmptyString => true
  | String c s' => negb (Ascii.eqb c "<") && negb (Ascii.eqb c "&") && plain_text s'
  end.

(** [field.checkValidity()]: a disabled control is barred from constraint
    validation. *)
Definition checkValidity (e : Element) : bool :=
  disabled e || constraint e (value e).

(** *** Looking elements up *)

Definition has_id (i : string) (e : Element) : bool :=
  bool_decide (getAttribute e "id" = Some i).

(** Index of the first element satisfying [P], from position [k]. *)
Fixpoint first_from (P : Element -> bool) (k : nat) (d : list Element) : option node :=
  match d with
  | [] => None
  | e :: d' => if P e then Some k else first_from P (S k) d'
  end.

(** Indices of all elements satisfying [P], in document order. *)
Fixpoint all_from (P : Element -> bool) (k : nat) (d : list Element) : list node :=
  match d with
  | [] => []
  | e :: d' => if P e then k :: all_from P (S k) d' else all_from P (S k) d'
  end.

Definition getElementById (d : list Element) (i : string) : option node :=
  first_from (has_id i) 0 d.

(** Some ancestor, at most [fuel] levels up, satisfies [P]. *)
Fixpoint has_ancestor (fuel : nat) (d : list Element) (P : Element -> bool)
    (n : option node) : bool :=
  match fuel, n with
  | S fuel', Some p =>
      match d !! p with
      | Some e => P e || has_ancestor fuel' d P (parentNode e)
      | None => false
      end
  | _, _ => false
  end.

(** The selectors the script passes to [querySelectorAll]. *)
Definition is_section_with_id (e : Element) : bool :=
  String.eqb (localName e) "section" && bool_decide (is_Some (getAttribute e "id")).

Definition is_nav_link (d : list Element) (e : Element) : bool :=
  contains e "nav-link"
  && has_ancestor (length d) d (fun a => contains a "navbar-nav") (parentNode e).

Definition querySelectorAll (P : Element -> bool) (d : list Element) : list node :=
  all_from P 0 d.

(** ** The world the script runs in *)

(** The object literal [formData] of [submitApplication]. *)
Module FormData.
Record t : Type := mk {
  firstName : string;
  lastName : string;
  email : string;
  program : string;
  startDate : string;
  submittedAt : Z      (* the instant [new Date()] read, in ms *)
}.
End FormData.

(** The object literal [payload] of [submitInfoRequest]. *)
Module Payload.
Record t : Type := mk {
  firstName : string;
  lastName : string;
  email : string;
  interest : string;
  message : string;
  submittedAt : Z
}.
End Payload.

(** The closures the script hands to [setInterval] and [setTimeout], each
    with the variables it captured. *)
Inductive Callback : Type :=
| CounterTick (element : node) (target : float) (suffix : string)
    (increment current : float)
| ApplicationDone (form submitButton : node) (originalText : string)
    (formData : FormData.t)
| HideSuccess (successDiv : node)
| InfoRequestDone (form btn : node) (original : string) (payload : Payload.t).

Record Timer : Type := mkTimer {
  timer_id : nat;
  due : Z;                  (* ms on the world's clock *)
  repeat : option Z;        (* the period of an interval *)
  callback : Callback
}.

Inductive LogData : Type :=
| StringData (s : string)
| FormDataObject (formData : FormData.t)
| PayloadObject (payload : Payload.t).

(** The calls the script makes to its host. *)
Inductive HostCall : Type :=
| ConsoleLog (message : string) (data : list LogData)
| ScrollTo (top : Z) (behavior : string)
| PreventDefault
| SetInterval (id : nat) (handler : Callback) (ms : Z)
| SetTimeout (id : nat) (handler : Callback) (ms : Z)
| ClearInterval (id : nat)
| ReportValidity (form : node)
| ModalShow (modal : node)
| ModalHide (modal : node)
| Uncaught (error : string).

(** A configured counter: an entry of the [counters] array. *)
Record Counter : Type := mkCounter {
  counter_element : option node;
  counter_target : float;
  counter_suffix : string
}.

(** An [IntersectionObserverEntry], as far as the script reads it. *)
Record Entry : Type := mkEntry {
  entry_target : node;
  isIntersecting : bool
}.

Record World : Type := mkWorld {
  document : list Element;       (* in document order; a node is an index *)
  now : Z;
  timers : list Timer;           (* pending, oldest first *)
  next_timer : nat;
  trace : list HostCall;         (* oldest first *)
  scrollY : Q;
  innerHeight : Z;
  counters : list Counter;       (* captured by the counter observer *)
  counterObserver : gset node;   (* the targets each observer watches *)
  fadeObserver : gset node;
  revealObserver : gset node;
  modals : gset node             (* elements with a bootstrap.Modal instance *)
}.

Definition set_document (f : list Element -> list Element) (w : World) : World :=
  mkWorld (f (document w)) (now w) (timers w) (next_timer w) (trace w) (scrollY w)
    (innerHeight w) (counters w) (counterObserver w) (fadeObserver w)
    (revealObserver w) (modals w).

Definition set_now (t : Z) (w : World) : World :=
  mkWorld (document w) t (timers w) (next_timer w) (trace w) (scrollY w)
    (innerHeight w) (counters w) (counterObserver w) (fadeObserver w)
    (revealObserver w) (modals w).

Definition set_timers (f : list Timer -> list Timer) (w : World) : World :=
  mkWorld (document w) (now w) (f (timers w)) (next_timer w) (trace w) (scrollY w)
    (innerHeight w) (counters w) (counterObserver w) (fadeObserver w)
    (revealObserver w) (modals w).

Definition set_next_timer (n : nat) (w : World) : World :=
  mkWorld (document w) (now w) (timers w) n (trace w) (scrollY w)
    (innerHeight w) (counters w) (counterObserver w) (fadeObserver w)
    (revealObserver w) (modals w).

Definition log_call (c : HostCall) (w : World) : World :=
  mkWorld (document w) (now w) (timers w) (next_timer w) (trace w ++ [c]) (scrollY w)
    (innerHeight w) (counters w) (counterObserver w) (fadeObserver w)
    (revealObserver w) (modals w).

Definition set_scrollY (y : Q) (w : World) : World :=
  mkWorld (document w) (now w) (timers w) (next_timer w) (trace w) y
    (innerHeight w) (counters w) (counterObserver w) (fadeObserver w)
    (revealObserver w) (modals w).

Definition set_counters (cs : list Counter) (w : World) : World :=
  mkWorld (document w) (now w) (timers w) (next_timer w) (trace w) (scrollY w)
    (innerHeight w) cs (counterObserver w) (fadeObserver w)
    (revealObserver w) (modals w).

Definition set_counterObserver (f : gset node -> gset node) (w : World) : World :=
  mkWorld (document w) (now w) (timers w) (next_timer w) (trace w) (scrollY w)
    (innerHeight w) (counters w) (f (counterObserver w)) (fadeObserver w)
    (revealObserver w) (modals w).

Definition set_fadeObserver (f : gset node -> gset node) (w : World) : World :=
  mkWorld (document w) (now w) (timers w) (next_timer w) (trace w) (scrollY w)
    (innerHeight w) (counters w) (counterObserver w) (f (fadeObserver w))
    (revealObserver w) (modals w).

Definition set_revealObserver (f : gset node -> gset node) (w : World) : World :=
  mkWorld (document w) (now w) (timers w) (next_timer w) (trace w) (scrollY w)
    (innerHeight w) (counters w) (counterObserver w) (fadeObserver w)
    (f (revealObserver w)) (modals w).

Definition set_modals (f : gset node -> gset node) (w : World) : World :=
  mkWorld (document w) (now w) (timers w) (next_timer w) (trace w) (scrollY w)
    (innerHeight w) (counters w) (counterObserver w) (fadeObserver w)
    (revealObserver w) (f (modals w)).

(** *** Statements: state and exceptions *)

Inductive Completion (A : Type) : Type :=
| Normal (a : A)
| Throw (error : string).
Arguments Normal {A} a.
Arguments Throw {A} error.

Definition JSM (A : Type) : Type := World -> Completion A * World.

#[global] Instance JSM_ret : MRet JSM := fun A a w => (Normal a, w).

#[global] Instance JSM_bind : MBind JSM := fun A B f m w =>
  match m w with
  | (Normal a, w') => f a w'
  | (Throw e, w') => (Throw e, w')
  end.

Definition get : JSM World := fun w => (Normal w, w).
Definition modify (f : World -> World) : JSM unit := fun w => (Normal tt, f w).
Definition throw {A} (e : string) : JSM A := fun w => (Throw e, w).
Definition host (c : HostCall) : JSM unit := modify (log_call c).

(** Reading a property of [o]: a [TypeError] when [o] is [null]. *)
Definition deref {A} (o : option A) : JSM A :=
  match o with
  | Some a => mret a
  | None => throw "TypeError"
  end.

Fixpoint forEach {A} (l : list A) (f : A -> JSM unit) : JSM unit :=
  match l with
  | [] => mret tt
  | x :: l' => f x ;; forEach l' f
  end.

(** The world a statement leaves behind, whether it completed or threw. *)
Definition exec {A} (m : JSM A) (w : World) : World := snd (m w).

(** A task of the event loop (a listener or a callback run by the host):
    an exception ends the task and is reported. *)
Definition task (m : JSM unit) (w : World) : World :=
  match m w with
  | (Normal _, w') => w'
  | (Throw e, w') => log_call (Uncaught e) w'
  end.

(** *** DOM reads and writes *)

Definition element (n : node) : JSM Element :=
  w ← get; deref (document w !! n).

Definition update (n : node) (f : Element -> Element) : JSM unit :=
  modify (set_document (alter f n)).

Definition byId (i : string) : JSM (option node) :=
  w ← get; mret (getElementById (document w) i).

Definition classList_add (n : node) (token : string) : JSM unit :=
  update n (with_classList (fun c => c ∪ {[token]})).

Definition classList_remove (n : node) (token : string) : JSM unit :=
  update n (with_classList (fun c => c ∖ {[token]})).

Definition classList_contains (n : node) (token : string) : JSM bool :=
  e ← element n; mret (contains e token).

Definition set_textContent (n : node) (s : string) : JSM unit :=
  update n (with_content (Text s)).

Definition set_innerHTML (n : node) (h : string) : JSM unit :=
  update n (with_content (HTML h)).

Definition set_disabled (n : node) (b : bool) : JSM unit :=
  update n (with_disabled b).

Definition setProperty (n : node) (property v : string) : JSM unit :=
  update n (with_style (fun st => <[property := v]> st)).

(** [document.getElementById(i).value] *)
Definition value_of (i : string) : JSM string :=
  o ← byId i; n ← deref o; e ← element n; mret (value e).

Definition console_log (message : string) (data : list LogData) : JSM unit :=
  host (ConsoleLog message data).

(** The console, read off the trace. *)
Definition console (w : World) : list (string * list LogData) :=
  omap (fun c => match c with ConsoleLog m d => Some (m, d) | _ => None end) (trace w).

(** *** Timers *)

Definition schedule (period : option Z) (h : Callback) (ms : Z) : JSM nat :=
  w ← get;
  let id := next_timer w in
  modify (fun w => set_next_timer (S id)
            (set_timers (fun ts => ts ++ [mkTimer id (now w + ms) period h]) w)) ;;
  mret id.

Definition setTimeout (h : Callback) (ms : Z) : JSM nat :=
  id ← schedule None h ms; host (SetTimeout id h ms) ;; mret id.

Definition setInterval (h : Callback) (ms : Z) : JSM nat :=
  id ← schedule (Some ms) h ms; host (SetInterval id h ms) ;; mret id.

Definition is_timer (id : nat) (t : Timer) : bool := (timer_id t =? id)%nat.

Definition clearInterval (id : nat) : JSM unit :=
  modify (set_timers (filter (fun t => is_timer id t = false))) ;;
  host (ClearInterval id).

Definition pending (id : nat) (w : World) : bool :=
  existsb (is_timer id) (timers w).

(** ** The script *)

(** *** Counters *)

(** [current] is a variable of the closure of the interval handler; the
    pending timer carries it from one tick to the next. *)
Definition with_current (current : float) (t : Timer) : Timer :=
  match callback t with
  | CounterTick element target suffix increment _ =>
      mkTimer (timer_id t) (due t) (repeat t)
        (CounterTick element target suffix increment current)
  | _ => t
  end.

Definition store_current (timer : nat) (current : float) : JSM unit :=
  modify (set_timers (fmap (fun t => if is_timer timer t then with_current current t else t))).

(** The arrow function passed to [setInterval] in [animateCounter]. *)
Definition counterTick (timer : nat) (element : node) (target : float)
    (suffix : string) (increment current : float) : JSM unit :=
  let current := (current + increment)%float in
  current ← (if (target <=? current)%float
              then clearInterval timer ;; mret target
              else mret current);
  store_current timer current ;;
  let formattedNumber := JS.toLocaleString (JS.Math_floor current) in
  set_textContent element (formattedNumber +:+ suffix).

Definition animateCounter (element : node) (target : float) (suffix : string)
    : JSM unit :=
  classList_add element "counting" ;;
  let current := 0%float in
  let increment := (target / 50)%float in
  let duration := 2000 in
  let stepTime := duration / 50 in
  setInterval (CounterTick element target suffix increment current) stepTime ;;
  mret tt.

Definition observe (set_observer : (gset node -> gset node) -> World -> World)
    (n : node) : JSM unit :=
  modify (set_observer (fun targets => targets ∪ {[n]})).

Definition unobserve (set_observer : (gset node -> gset node) -> World -> World)
    (n : node) : JSM unit :=
  modify (set_observer (fun targets => targets ∖ {[n]})).

Definition is_counter_of (n : node) (c : Counter) : bool :=
  bool_decide (counter_element c = Some n).

(** The callback of [counterObserver], entry by entry. *)
Definition counterObserver_entry (entry : Entry) : JSM unit :=
  if isIntersecting entry then
    w ← get;
    match find (is_counter_of (entry_target entry)) (counters w) with
    | Some counter =>
        el ← deref (counter_element counter);
        counting ← classList_contains el "counting";
        if negb counting then
          animateCounter el (counter_target counter) (counter_suffix counter) ;;
          unobserve set_counterObserver (entry_target entry)
        else mret tt
    | None => mret tt
    end
  else mret tt.

Definition counterObserver_callback (entries : list Entry) : JSM unit :=
  forEach entries counterObserver_entry.

Definition initializeCounters : JSM unit :=
  w ← get;
  let d := document w in
  let counters :=
    [ mkCounter (getElementById d "student-count") 71000%float "+";
      mkCounter (getElementById d "program-count") 150%float "+";
      mkCounter (getElementById d "faculty-count") 9000%float "+";
      mkCounter (getElementById d "alumni-count") 500000%float "+" ] in
  modify (set_counters counters) ;;
  forEach counters (fun counter =>
    match counter_element counter with
    | Some el => observe set_counterObserver el
    | None => mret tt
    end).

(** *** Scroll and reveal effects *)

(** The callback of [fadeObserver], entry by entry. *)
Definition fadeObserver_entry (entry : Entry) : JSM unit :=
  if isIntersecting entry then classList_add (entry_target entry) "show"
  else mret tt.

Definition fadeObserver_callback (entries : list Entry) : JSM unit :=
  forEach entries fadeObserver_entry.

Definition initializeScrollEffects : JSM unit :=
  w ← get;
  let fadeElements := querySelectorAll (fun e => contains e "fade-in") (document w) in
  forEach fadeElements (fun el => observe set_fadeObserver el).

Definition truthy (s : option string) : bool :=
  match s with
  | Some (String _ _) => true
  | _ => false
  end.

(** The callback of the reveal observer, entry by entry. *)
Definition revealObserver_entry (entry : Entry) : JSM unit :=
  if isIntersecting entry then
    let target := entry_target entry in
    e ← element target;
    let delay := getAttribute e "data-delay" in
    (if truthy delay
     then setProperty target "--reveal-delay" (default EmptyString delay)
     else mret tt) ;;
    classList_add target "visible" ;;
    unobserve set_revealObserver target
  else mret tt.

Definition revealObserver_callback (entries : list Entry) : JSM unit :=
  forEach entries revealObserver_entry.

Definition initializeRevealAnimations : JSM unit :=
  w ← get;
  let revealEls := querySelectorAll (fun e => contains e "reveal") (document w) in
  match revealEls with
  | [] => mret tt
  | _ => forEach revealEls (fun el => observe set_revealObserver el)
  end.

(** The browser reports [entries]: each observer's callback receives the
    entries of the targets it watches at that moment. *)
Definition watched (targets : gset node) (entries : list Entry) : list Entry :=
  filter (fun entry => entry_target entry ∈ targets) entries.

Definition intersect (entries : list Entry) (w : World) : World :=
  let w := task (counterObserver_callback (watched (counterObserver w) entries)) w in
  let w := task (fadeObserver_callback (watched (fadeObserver w) entries)) w in
  task (revealObserver_callback (watched (revealObserver w) entries)) w.

(** *** Navigation *)

Section Navigation.

(** The selector engine of the host: [document.querySelector], which
    throws on a selector it cannot parse. *)
Variable querySelector : list Element -> string -> Completion (option node).

(** The click listener [initializeNavigation] puts on every
    [a[href^="#"]]. *)
Definition anchor_click (this : node) : JSM unit :=
  host PreventDefault ;;
  a ← element this;
  let selector := default "null" (getAttribute a "href") in
  target ← (fun w => (querySelector (document w) selector, w));
  match target with
  | Some t =>
      e ← element t;
      let offsetTop := offsetTop e - 80 in
      host (ScrollTo offsetTop "smooth")
  | None => mret tt
  end.

End Navigation.

Definition in_view (scrollY : Q) (section : Element) : bool :=
  let sectionTop := offsetTop section - 100 in
  let sectionHeight := clientHeight section in
  Qle_bool (inject_Z sectionTop) scrollY
  && negb (Qle_bool (inject_Z (sectionTop + sectionHeight)) scrollY).

(** The value of [current] after [sections.forEach]. *)
Definition current_section (scrollY : Q) (d : list Element) (sections : list node)
    : string :=
  fold_left (fun current n =>
    match d !! n with
    | Some section =>
        if in_view scrollY section
        then default "null" (getAttribute section "id")
        else current
    | None => current
    end) sections EmptyString.

(** The arrow function of [navLinks.forEach]. *)
Definition activate_link (current : string) (link : node) : JSM unit :=
  classList_remove link "active" ;;
  e ← element link;
  if bool_decide (getAttribute e "href" = Some ("#" +:+ current))
  then classList_add link "active"
  else mret tt.

Definition updateActiveNavigation : JSM unit :=
  w ← get;
  let sections := querySelectorAll is_section_with_id (document w) in
  let navLinks := querySelectorAll (is_nav_link (document w)) (document w) in
  let current := current_section (scrollY w) (document w) sections in
  forEach navLinks (activate_link current).

(** The scroll listener: the window scrolled to [y]. *)
Definition scroll (y : Q) : JSM unit :=
  modify (set_scrollY y) ;; updateActiveNavigation.

(** *** The application form *)

Definition with_parentNode (p : option node) (e : Element) : Element :=
  mkElement (localName e) p (attributes e) (classList e)
    (content e) (style e) (value e) (defaultValue e) (disabled e) (form e)
    (constraint e) (offsetTop e) (clientHeight e).

(** [parent.appendChild(e)] for a new element [e]: it becomes the last
    element of the document. *)
Definition appendChild (parent : node) (e : Element) : JSM node :=
  w ← get;
  modify (set_document (fun d => d ++ [with_parentNode (Some parent) e])) ;;
  mret (length (document w)).

Definition owned_by (f : node) (e : Element) : bool :=
  bool_decide (form e = Some f).

(** [form.checkValidity()]: every control of the form is valid. *)
Definition form_checkValidity (d : list Element) (f : node) : bool :=
  forallb (fun e => negb (owned_by f e) || checkValidity e) d.

(** [form.reset()]: every control of the form takes its default value. *)
Definition reset_control (f : node) (e : Element) : Element :=
  if owned_by f e then with_value (defaultValue e) e else e.

Definition form_reset (f : node) : JSM unit :=
  modify (set_document (fmap (reset_control f))).

Definition trackEvent (eventName eventData : string) : JSM unit :=
  console_log ("Event tracked: " +:+ eventName) [StringData eventData].

Definition showSuccessMessage (message : string) : JSM unit :=
  w ← get;
  successDiv ←
    match first_from (fun e => contains e "success-message") 0 (document w) with
    | Some n => mret n
    | None =>
        let successDiv :=
          with_classList (fun _ => {["success-message"]}) (createElement "div") in
        body ← deref (first_from (fun e => String.eqb (localName e) "body") 0 (document w));
        appendChild body successDiv
    end;
  set_textContent successDiv message ;;
  setProperty successDiv "display" "block" ;;
  setTimeout (HideSuccess successDiv) 5000 ;;
  mret tt.

Definition showApplicationForm : JSM unit :=
  el ← byId "applicationModal";
  modal ← deref el;
  modify (set_modals (fun ms => ms ∪ {[modal]})) ;;
  host (ModalShow modal).

(** [bootstrap.Modal.getInstance(document.getElementById(i))] *)
Definition Modal_getInstance (i : string) : JSM (option node) :=
  el ← byId i;
  w ← get;
  mret (match el with
        | Some n => if bool_decide (n ∈ modals w) then Some n else None
        | None => None
        end).

Definition dquote : string := String (ascii_of_nat 34) EmptyString.

Definition loading (label : string) : string :=
  "<span class=" +:+ dquote +:+ "loading" +:+ dquote +:+ "></span> " +:+ label.

Definition application_success : string :=
  "Application submitted successfully! We'll contact you within 2 business days.".

(** [submitApplication], with the ambient [event.target] as argument. *)
Definition submitApplication (event_target : node) : JSM unit :=
  el ← byId "applicationForm";
  let submitButton := event_target in
  form ← deref el;
  w ← get;
  if negb (form_checkValidity (document w) form) then
    host (ReportValidity form)
  else
    b ← element submitButton;
    let originalText := textContent b in
    set_innerHTML submitButton (loading "Submitting...") ;;
    set_disabled submitButton true ;;
    firstName ← value_of "firstName";
    lastName ← value_of "lastName";
    email ← value_of "email";
    program ← value_of "program";
    startDate ← value_of "startDate";
    w ← get;
    let formData :=
      FormData.mk firstName lastName email program startDate (now w) in
    setTimeout (ApplicationDone form submitButton originalText formData) 2000 ;;
    mret tt.

(** The arrow function [submitApplication] passes to [setTimeout]. *)
Definition applicationDone (form submitButton : node) (originalText : string)
    (formData : FormData.t) : JSM unit :=
  console_log "Application submitted:" [FormDataObject formData] ;;
  showSuccessMessage application_success ;;
  form_reset form ;;
  instance ← Modal_getInstance "applicationModal";
  modal ← deref instance;
  host (ModalHide modal) ;;
  set_innerHTML submitButton originalText ;;
  set_disabled submitButton false ;;
  trackEvent "application_submitted" (FormData.program formData).

(** The arrow function [showSuccessMessage] passes to [setTimeout]. *)
Definition hideSuccess (successDiv : node) : JSM unit :=
  setProperty successDiv "display" "none".

(** *** The info-request form *)

(** [requiredIds.forEach] with its captured flag [valid]. *)
Fixpoint check_required (requiredIds : list string) (valid : bool) : JSM bool :=
  match requiredIds with
  | [] => mret valid
  | i :: ids =>
      el ← byId i;
      field ← deref el;
      e ← element field;
      if negb (checkValidity e) then
        classList_add field "is-invalid" ;; check_required ids false
      else check_required ids valid
  end.

Definition info_success : string :=
  "Thank you! Your request has been received. We will respond shortly.".

Definition submitInfoRequest : JSM unit :=
  el ← byId "infoRequestForm";
  match el with
  | None => mret tt
  | Some form =>
      let requiredIds := ["riFirstName"; "riLastName"; "riEmail"] in
      valid ← check_required requiredIds true;
      if negb valid then mret tt
      else
        b ← byId "infoSubmitBtn";
        btn ← deref b;
        e ← element btn;
        let original := innerHTML e in
        set_disabled btn true ;;
        set_innerHTML btn (loading "Sending...") ;;
        firstName ← value_of "riFirstName";
        lastName ← value_of "riLastName";
        email ← value_of "riEmail";
        interest ← value_of "riInterest";
        message ← value_of "riMessage";
        w ← get;
        let payload :=
          Payload.mk (JS.trim firstName) (JS.trim lastName) (JS.trim email)
            interest (JS.trim message) (now w) in
        setTimeout (InfoRequestDone form btn original payload) 1500 ;;
        mret tt
  end.

(** The arrow function [submitInfoRequest] passes to [setTimeout]. *)
Definition infoRequestDone (form btn : node) (original : string)
    (payload : Payload.t) : JSM unit :=
  console_log "Info request submitted" [PayloadObject payload] ;;
  success ← byId "infoSuccess";
  match success with
  | Some s =>
      classList_remove s "d-none" ;;
      set_textContent s info_success
  | None => mret tt
  end ;;
  form_reset form ;;
  set_disabled btn false ;;
  set_innerHTML btn original ;;
  trackEvent "info_request_submitted" (Payload.interest payload).

(** ** The event loop *)

Definition run_callback (timer : nat) (h : Callback) : JSM unit :=
  match h with
  | CounterTick element target suffix increment current =>
      counterTick timer element target suffix increment current
  | ApplicationDone form submitButton originalText formData =>
      applicationDone form submitButton originalText formData
  | HideSuccess successDiv => hideSuccess successDiv
  | InfoRequestDone form btn original payload =>
      infoRequestDone form btn original payload
  end.

(** The timer that fires next: the earliest due, the oldest among equals. *)
Fixpoint next_due (ts : list Timer) : option Timer :=
  match ts with
  | [] => None
  | t :: ts' =>
      match next_due ts' with
      | Some t' => if due t' <? due t then Some t' else Some t
      | None => Some t
      end
  end.

(** A one-shot timer leaves the list, an interval is due again one period
    later. *)
Definition rearm (t : Timer) (ts : list Timer) : list Timer :=
  match repeat t with
  | Some ms =>
      (fun t' => if is_timer (timer_id t) t'
                 then mkTimer (timer_id t') (due t' + ms) (repeat t') (callback t')
                 else t') <$> ts
  | None => filter (fun t' => is_timer (timer_id t) t' = false) ts
  end.

(** The clock reaches the time timer [t] is due and its callback runs. *)
Definition fire (t : Timer) (w : World) : World :=
  let w := set_timers (rearm t) (set_now (Z.max (now w) (due t)) w) in
  task (run_callback (timer_id t) (callback t)) w.

(** Fire the timer with identifier [id], if it is pending. *)
Definition tick (id : nat) (w : World) : World :=
  match find (is_timer id) (timers w) with
  | Some t => fire t w
  | None => w
  end.

(** Let the clock reach [deadline], running at most [fuel] tasks. *)
Fixpoint run_until (fuel : nat) (deadline : Z) (w : World) : World :=
  match fuel with
  | O => w
  | S fuel' =>
      match next_due (timers w) with
      | Some t =>
          if due t <=? deadline then run_until fuel' deadline (fire t w)
          else set_now (Z.max (now w) deadline) w
      | None => set_now (Z.max (now w) deadline) w
      end
  end.

(** [initializeNavigation] and [initializeInfoRequestForm] only register
    listeners; the listeners are the functions [anchor_click] and [scroll]
    above, run when the host dispatches the event. *)
Definition initializeNavigation : JSM unit := mret tt.
Definition initializeInfoRequestForm : JSM unit := mret tt.

(** The first [DOMContentLoaded] listener. *)
Definition DOMContentLoaded : JSM unit :=
  console_log "Rutgers University website initialized" [] ;;
  initializeCounters ;;
  initializeScrollEffects ;;
  initializeNavigation ;;
  initializeInfoRequestForm ;;
  initializeRevealAnimations ;;
  console_log "All interactive elements initialized" [].

(** What the host may do after the page has loaded, as far as the counters
    and the visibility effects are concerned: report intersections, or let
    a pending timer fire. *)
Inductive Event : Type :=
| Intersect (entries : list Entry)
| Tick (timer : nat).

Definition step (ev : Event) (w : World) : World :=
  match ev with
  | Intersect entries => intersect entries w
  | Tick timer => tick timer w
  end.

Definition run (events : list Event) (w : World) : World :=
  fold_left (fun w ev => step ev w) events w.

(** ** Notions the statements use *)

(** [c] is the call by which [animateCounter] starts animating [el]. *)
Definition starts_animation (el : node) (c : HostCall) : bool :=
  match c with
  | SetInterval _ (CounterTick el' _ _ _ _) _ => (el' =? el)%nat
  | _ => false
  end.

(** How many times the animation of [el] has been started. *)
Definition animations (el : node) (w : World) : nat :=
  length (List.filter (starts_animation el) (trace w)).

(** The accumulator [current] of the animation run by timer [id], while
    the timer is pending. *)
Definition accumulator (id : nat) (w : World) : option float :=
  match find (is_timer id) (timers w) with
  | Some (mkTimer _ _ _ (CounterTick _ _ _ _ current)) => Some current
  | _ => None
  end.

Definition has_class (el : node) (token : string) (w : World) : Prop :=
  exists e, document w !! el = Some e /\ token ∈ classList e.

Definition is_counter_tick (t : Timer) : bool :=
  match callback t with
  | CounterTick _ _ _ _ _ => true
  | _ => false
  end.

(** The invariant behind "at most once": the pending timers are counter
    animations, and an element whose animation was started was started
    once, carries the guard class and is no longer observed. *)
Definition counters_inv (w : World) : Prop :=
  Forall (fun t => is_counter_tick t = true) (timers w)
  /\ forall el,
       animations el w = 0%nat
       \/ (animations el w = 1%nat
           /\ has_class el "counting" w /\ el ∉ counterObserver w).

(** A step that starts no animation, keeps the pending timers counter
    animations, removes no "counting" class and observes nothing new. *)
Definition quiet (w w' : World) : Prop :=
  (forall el, animations el w' = animations el w)
  /\ (Forall (fun t => is_counter_tick t = true) (timers w) ->
      Forall (fun t => is_counter_tick t = true) (timers w'))
  /\ (forall el, has_class el "counting" w -> has_class el "counting" w')
  /\ counterObserver w' ⊆ counterObserver w.

(** Nothing is pending and no animation has started. *)
Definition fresh_page (w : World) : Prop :=
  timers w = [] /\ forall el, animations el w = 0%nat.

(** The statement [m] preserves the property [P] of worlds, whether it
    completes or throws. *)
Definition stable {A} (P : World -> Prop) (m : JSM A) : Prop :=
  forall w, P w -> P (exec m w).

(** From [w] to [w'] no element and no class was lost, the fade observer
    watches the same targets and the reveal observer no new ones. *)
Definition extends (w w' : World) : Prop :=
  (forall n, is_Some (document w !! n) -> is_Some (document w' !! n))
  /\ (forall el token, has_class el token w -> has_class el token w')
  /\ revealObserver w' ⊆ revealObserver w
  /\ fadeObserver w' = fadeObserver w.

(** What the reveal observer has done with an entry it was given. *)
Definition revealed (entry : Entry) (w : World) : Prop :=
  isIntersecting entry = true ->
  has_class (entry_target entry) "visible" w
  /\ entry_target entry ∉ revealObserver w.

(** What the fade observer has done with an entry it was given. *)
Definition shown (entry : Entry) (w : World) : Prop :=
  isIntersecting entry = true -> has_class (entry_target entry) "show" w.

(** The element [showSuccessMessage] writes to, and the document that
    holds it: the first [.success-message], or else a new [div] appended to
    the body. *)
Definition success_container (d : list Element) : option (node * list Element) :=
  match first_from (fun e => contains e "success-message") 0 d with
  | Some n => Some (n, d)
  | None =>
      match first_from (fun e => String.eqb (localName e) "body") 0 d with
      | Some body =>
          Some (length d,
                d ++ [with_parentNode (Some body)
                        (with_classList (fun _ => {["success-message"]})
                           (createElement "div"))])
      | None => None
      end
  end.

(** The control with id [i] holds the value [v]. *)
Definition field_value (d : list Element) (i v : string) : Prop :=
  exists n e, getElementById d i = Some n /\ d !! n = Some e /\ value e = v.

(** Text that reads the same as text and as markup.  Assigned to
    [innerHTML] it is parsed into one text node holding the same characters,
    and read back from [innerHTML] it is serialised unchanged: it has no
    "<", "&" or ">", no NUL (which the parser drops), no CR (which the
    parser turns into LF) and no NO-BREAK SPACE (which the serialiser
    writes as a character reference). *)
Definition verbatim_char (c : ascii) : bool :=
  let n := nat_of_ascii c in
  negb ((n =? 60) || (n =? 38) || (n =? 62) || (n =? 0) || (n =? 13) || (n =? 160))%nat.

Fixpoint verbatim_text (s : string) : bool :=
  match s with
  | EmptyString => true
  | String c s' => verbatim_char c && verbatim_text s'
  end.

(** An empty icon element, [<i class="..."></i>]; the class attribute is
    written between double quotes, so its value holds no double quote, and
    here no ">" either. *)
Definition icon (classes : string) : string :=
  "<i class=" +:+ dquote +:+ classes +:+ dquote +:+ "></i>".

Fixpoint class_value (s : string) : bool :=
  match s with
  | EmptyString => true
  | String c s' =>
      negb ((nat_of_ascii c =? 34) || (nat_of_ascii c =? 62))%nat && class_value s'
  end.

(** The button [b] is labelled with the text [s]: its children are the
    text alone, or an icon element followed by the text. *)
Definition labelled (b : Element) (s : string) : Prop :=
  verbatim_text s = true
  /\ (content b = Text s
      \/ content b = HTML s
      \/ exists classes, class_value classes = true
                         /\ content b = HTML (icon classes +:+ s)).

(** The page is ready for [submitApplication]: the form and its five
    named fields are there and valid, [formData] is what they hold now, the
    submit button [b] is an element of its own, the page has a body, the
    modal was instantiated, and no timer is pending. *)
Definition application_ready (w : World) (submitButton : node) (b : Element)
    (f m : node) (formData : FormData.t) : Prop :=
  let d := document w in
  getElementById d "applicationForm" = Some f
  /\ form_checkValidity d f = true
  /\ d !! submitButton = Some b
  /\ contains b "success-message" = false
  /\ field_value d "firstName" (FormData.firstName formData)
  /\ field_value d "lastName" (FormData.lastName formData)
  /\ field_value d "email" (FormData.email formData)
  /\ field_value d "program" (FormData.program formData)
  /\ field_value d "startDate" (FormData.startDate formData)
  /\ FormData.submittedAt formData = now w
  /\ is_Some (first_from (fun e => String.eqb (localName e) "body") 0 d)
  /\ getElementById d "applicationModal" = Some m
  /\ m ∈ modals w
  /\ timers w = [].

(** The document once the application has been "submitted": the success
    message written and shown in [s], the form reset, the button restored. *)
Definition submitted_document (f submitButton s : node) (originalText : string)
    (d' : list Element) : list Element :=
  alter (with_disabled false) submitButton
    (alter (with_content (HTML originalText)) submitButton
       (reset_control f <$>
          alter (with_style (fun st => <["display" := "block"]> st)) s
            (alter (with_content (Text application_success)) s
               (alter (with_disabled true) submitButton
                  (alter (with_content (HTML (loading "Submitting..."))) submitButton
                     d'))))).

(** The world right after the timeout of a valid submission has run, in
    terms of the world [w] in which [submitApplication] was called. *)
Definition submitted_world (w : World) (f submitButton s m : node) (b : Element)
    (formData : FormData.t) (d' : list Element) : World :=
  mkWorld
    (submitted_document f submitButton s (textContent b) d')
    (now w + 2000)
    [mkTimer (S (next_timer w)) (now w + 2000 + 5000) None (HideSuccess s)]
    (S (S (next_timer w)))
    (trace w ++
       [ SetTimeout (next_timer w)
           (ApplicationDone f submitButton (textContent b) formData) 2000;
         ConsoleLog "Application submitted:" [FormDataObject formData];
         SetTimeout (S (next_timer w)) (HideSuccess s) 5000;
         ModalHide m;
         ConsoleLog "Event tracked: application_submitted"
           [StringData (FormData.program formData)] ])
    (scrollY w) (innerHeight w) (counters w) (counterObserver w)
    (fadeObserver w) (revealObserver w) (modals w).

(** The control with id [i] holds the value [v] and is valid. *)
Definition valid_field (d : list Element) (i v : string) : Prop :=
  exists n e, getElementById d i = Some n /\ d !! n = Some e
              /\ value e = v /\ checkValidity e = true.

(** The page is ready for [submitInfoRequest]: the form, its three
    required fields (valid), the two optional ones and the submit button
    [b] are there, holding the given values, and no timer is pending. *)
Definition info_ready (w : World) (btn : node) (b : Element) (f : node)
    (firstName lastName email interest message : string) : Prop :=
  let d := document w in
  getElementById d "infoRequestForm" = Some f
  /\ valid_field d "riFirstName" firstName
  /\ valid_field d "riLastName" lastName
  /\ valid_field d "riEmail" email
  /\ field_value d "riInterest" interest
  /\ field_value d "riMessage" message
  /\ getElementById d "infoSubmitBtn" = Some btn
  /\ d !! btn = Some b
  /\ timers w = [].

(** What [infoRequestDone] does to the success element, if the page has
    one. *)
Definition info_success_shown (d : list Element) : list Element :=
  match getElementById d "infoSuccess" with
  | Some s =>
      alter (with_content (Text info_success)) s
        (alter (with_classList (fun c => c ∖ {["d-none"]})) s d)
  | None => d
  end.

(** The world right after the timeout of a valid info request has run, in
    terms of the world [w] in which [submitInfoRequest] was called. *)
Definition info_requested_world (w : World) (f btn : node) (b : Element)
    (payload : Payload.t) : World :=
  mkWorld
    (alter (with_content (HTML (innerHTML b))) btn
       (alter (with_disabled false) btn
          (reset_control f <$>
             info_success_shown
               (alter (with_content (HTML (loading "Sending..."))) btn
                  (alter (with_disabled true) btn (document w))))))
    (now w + 1500)
    []
    (S (next_timer w))
    (trace w ++
       [ SetTimeout (next_timer w) (InfoRequestDone f btn (innerHTML b) payload) 1500;
         ConsoleLog "Info request submitted" [PayloadObject payload];
         ConsoleLog "Event tracked: info_request_submitted"
           [StringData (Payload.interest payload)] ])
    (scrollY w) (innerHeight w) (counters w) (counterObserver w)
    (fadeObserver w) (revealObserver w) (modals w).

(** "Thousands-separated", read off a text rather than produced: seen
    from its last character the text is digits in groups of three with a
    comma between two groups, the first group having one to three digits.
    [k] counts the digits of the current group. *)
Definition is_digit (c : ascii) : bool :=
  let n := nat_of_ascii c in ((48 <=? n) && (n <=? 57))%nat.

Fixpoint separated (rev_text : list ascii) (k : nat) : bool :=
  match rev_text with
  | [] => (0 <? k)%nat
  | c :: r =>
      if Ascii.eqb c ","
      then (k =? 3)%nat && separated r 0
      else is_digit c && (k <? 3)%nat && separated r (S k)
  end.

Definition without_separators (s : string) : string :=
  string_of_list_ascii
    (List.filter (fun c => negb (Ascii.eqb c ",")) (list_ascii_of_string s)).

(** The number a string of decimal digits denotes, by the parser of the
    Standard Library. *)
Definition decimal_value (s : string) : option N :=
  option_map N.of_uint (NilZero.uint_of_string s).

Definition no_leading_zero (s : string) : bool :=
  match s with
  | String "0" (String _ _) => false
  | _ => true
  end.

(** [text] is the thousands-separated rendering of the integer [T]: a
    minus sign exactly when [T] is negative, then separated groups of
    digits which, read without the separators, are the decimal numeral of
    [|T|] without leading zeros. *)
Definition thousands_separated (text : string) (T : Z) : bool :=
  let '(negative, body) :=
    match text with
    | String "-" body => (true, body)
    | _ => (false, text)
    end in
  Bool.eqb negative (T <? 0)
  && separated (rev (list_ascii_of_string body)) 0
  && no_leading_zero (without_separators body)
  && match decimal_value (without_separators body) with
     | Some n => (n =? Z.abs_N T)%N
     | None => false
     end.

(** The text [animateCounter] leaves in the element. *)
Definition final_text (target : float) (suffix : string) : string :=
  JS.toLocaleString (JS.Math_floor target) +:+ suffix.

(** While its timer is pending the closure of the interval handler is the
    one [animateCounter] built; once the timer is cleared the element shows
    the final text. *)
Definition counter_inv (el : node) (target : float) (suffix : string) (id : nat)
    (w : World) : Prop :=
  is_Some (document w !! el) /\
  match find (is_timer id) (timers w) with
  | Some t => is_Some (repeat t) /\ exists cur,
      callback t = CounterTick el target suffix (target / 50)%float cur
  | None => textContent <$> document w !! el = Some (final_text target suffix)
  end.

(** What [navLinks.forEach] in [updateActiveNavigation] does to a link. *)
Definition mark_link (current : string) (e : Element) : Element :=
  let e' := with_classList (fun c => c ∖ {["active"]}) e in
  if bool_decide (getAttribute e' "href" = Some ("#" +:+ current))
  then with_classList (fun c => c ∪ {["active"]}) e'
  else e'.

(** The vertical centre of the viewport, in document coordinates. *)
Definition viewport_center (w : World) : Q :=
  (scrollY w + inject_Z (innerHeight w) / 2)%Q.

Definition all_whitespace (s : string) : bool :=
  forallb JS.is_whitespace (list_ascii_of_string s).

Definition starts_with_whitespace (s : string) : bool :=
  match s with
  | String c _ => JS.is_whitespace c
  | EmptyString => false
  end.

Fixpoint ends_with_whitespace (s : string) : bool :=
  match s with
  | EmptyString => false
  | String c EmptyString => JS.is_whitespace c
  | String _ s' => ends_with_whitespace s'
  end.

(** [t] is [v] without its leading and trailing white space. *)
Definition trimmed (v t : string) : Prop :=
  exists l r, v = l +:+ t +:+ r
    /\ all_whitespace l = true /\ all_whitespace r = true
    /\ starts_with_whitespace t = false /\ ends_with_whitespace t = false.

(** A selector engine that understands id selectors only; enough to run
    the click listener on the example page. *)
Definition id_selector_engine (d : list Element) (selector : string)
    : Completion (option node) :=
  match selector with
  | String "#" (String c name) => Normal (getElementById d (String c name))
  | _ => Throw "SyntaxError"
  end.

(** ** An example page

    A page with the elements the script looks for: the navigation bar, two
    sections, the four counters, a fade-in and a reveal element, the
    application modal with its form, and the info-request form. *)

Module Demo.

Definition tag (name : string) (parent : option node)
    (attrs : list (string * string)) (classes : list string) : Element :=
  mkElement name parent (list_to_map attrs) (list_to_set classes)
    (Text EmptyString) ∅ EmptyString EmptyString false None (fun _ => true) 0 0.

Definition block (name id : string) (top height : Z) : Element :=
  mkElement name (Some 0%nat) {[ "id" := id ]} ∅ (Text EmptyString) ∅
    EmptyString EmptyString false None (fun _ => true) top height.

Definition required (v : string) : bool := negb (String.eqb v EmptyString).

Definition control (id : string) (parent : node) (v : string)
    (valid : string -> bool) : Element :=
  mkElement "input" (Some parent) {[ "id" := id ]} {[ "form-control" ]}
    (Text EmptyString) ∅ v EmptyString false (Some parent) valid 0 0.

Definition button (attrs : list (string * string)) (parent : node)
    (label : string) : Element :=
  mkElement "button" (Some parent) (list_to_map attrs) {[ "btn" ]}
    (Text label) ∅ EmptyString EmptyString false (Some parent) (fun _ => true) 0 0.

(** The page, with [first] typed into both first-name fields. *)
Definition page (first : string) : list Element :=
  [ (* 0 *) tag "body" None [] [];
    (* 1 *) tag "ul" (Some 0%nat) [] ["navbar-nav"];
    (* 2 *) tag "a" (Some 1%nat) [("href", "#about")] ["nav-link"];
    (* 3 *) tag "a" (Some 1%nat) [("href", "#programs")] ["nav-link"];
    (* 4 *) block "section" "about" 1000 200;
    (* 5 *) block "section" "programs" 1200 600;
    (* 6 *) block "span" "student-count" 1250 40;
    (* 7 *) block "span" "program-count" 1250 40;
    (* 8 *) block "span" "faculty-count" 1250 40;
    (* 9 *) block "span" "placement-rate" 1250 40;
    (* 10 *) tag "div" (Some 0%nat) [] ["fade-in"];
    (* 11 *) tag "div" (Some 0%nat) [("data-delay", "200ms")] ["reveal"];
    (* 12 *) block "div" "applicationModal" 0 0;
    (* 13 *) tag "form" (Some 12%nat) [("id", "applicationForm")] [];
    (* 14 *) control "firstName" 13 first required;
    (* 15 *) control "lastName" 13 "Lovelace" required;
    (* 16 *) control "email" 13 "ada@example.edu" required;
    (* 17 *) control "program" 13 "computer-science" required;
    (* 18 *) control "startDate" 13 "fall-2026" (fun _ => true);
    (* 19 *) button [] 13 "Submit Application";
    (* 20 *) tag "form" (Some 0%nat) [("id", "infoRequestForm")] [];
    (* 21 *) control "riFirstName" 20 first required;
    (* 22 *) control "riLastName" 20 "Lovelace " required;
    (* 23 *) control "riEmail" 20 "ada@example.edu" required;
    (* 24 *) control "riInterest" 20 " campus visit " (fun _ => true);
    (* 25 *) control "riMessage" 20 "Hello!  " (fun _ => true);
    (* 26 *) button [("id", "infoSubmitBtn")] 20 "Request Info";
    (* 27 *) tag "div" (Some 20%nat) [("id", "infoSuccess")] ["d-none"] ].

(** The page when the script starts: nothing scheduled, nothing logged. *)
Definition world (first : string) : World :=
  mkWorld (page first) 0 [] 0 [] 0%Q 1000 [] ∅ ∅ ∅ ∅.

(** The page after [DOMContentLoaded]. *)
Definition loaded : World := exec DOMContentLoaded (world "  Ada ").

(** The page with the application modal opened by [showApplicationForm]. *)
Definition opened (first : string) : World :=
  exec showApplicationForm (world first).

End Demo.

(** ** The rest of the script

    The functions of [js/script.js] beside the counters, the observers and
    the two submissions: the validation of single fields, the listeners the
    page registers when it loads, the program filter, [debounce] and
    [loadDynamicContent]. *)

(** *** Field validation *)

(** [element.classList.remove(...tokens)] *)
Definition classList_remove_all (n : node) (tokens : list string) : JSM unit :=
  update n (with_classList (fun c => c ∖ list_to_set tokens)).

Definition validateField (field : node) : JSM bool :=
  e ← element field;
  let isValid := checkValidity e in
  classList_remove_all field ["is-valid"; "is-invalid"] ;;
  classList_add field (if isValid then "is-valid" else "is-invalid") ;;
  mret isValid.

(** [validateBasic(field)]; the argument may be [null]. *)
Definition validateBasic (field : option node) : JSM unit :=
  match field with
  | None => mret tt
  | Some field =>
      e ← element field;
      if checkValidity e then
        classList_remove field "is-invalid" ;;
        classList_add field "is-valid"
      else
        classList_remove field "is-valid" ;;
        classList_add field "is-invalid"
  end.

(** The two listeners [enhanceFormInputs] puts on every
    [.form-control, .form-select]. *)
Definition field_blur (this : node) : JSM unit :=
  validateField this ;; mret tt.

Definition field_input (this : node) : JSM unit :=
  marked ← classList_contains this "is-invalid";
  if (marked : bool) then validateField this ;; mret tt else mret tt.

(** *** The collapsing menu *)

(** The click listener the last [DOMContentLoaded] handler puts on every
    [.navbar-nav .nav-link], with the two elements it captured.  It returns
    the element whose [click()] it called, if any: what that click does is
    up to the component library that owns the toggler. *)
Definition nav_link_click (navbarToggler navbarCollapse : option node)
    : JSM (option node) :=
  collapse ← deref navbarCollapse;
  open ← classList_contains collapse "show";
  if (open : bool) then
    toggler ← deref navbarToggler;
    mret (Some toggler)
  else mret None.

(** *** The program filter *)

(** [#programs [data-category]] *)
Definition is_program_card (d : list Element) (e : Element) : bool :=
  bool_decide (is_Some (getAttribute e "data-category"))
  && has_ancestor (length d) d (has_id "programs") (parentNode e).

(** [element.style.display = v]: the empty string removes the declaration. *)
Definition set_display (n : node) (v : string) : JSM unit :=
  update n (with_style (fun st =>
    match v with
    | EmptyString => delete "display" st
    | _ => <["display" := v]> st
    end)).

(** The arrow function of [cards.forEach]. *)
Definition filter_card (criteria : string) (card : node) : JSM unit :=
  e ← element card;
  let matches :=
    String.eqb criteria "all"
    || bool_decide (getAttribute e "data-category" = Some criteria) in
  set_display card (if matches then EmptyString else "none").

Definition filterPrograms (criteria : string) : JSM unit :=
  w ← get;
  let cards := querySelectorAll (is_program_card (document w)) (document w) in
  forEach cards (filter_card criteria).

Definition loadDynamicContent (section : string) : JSM unit :=
  console_log ("Loading content for section: " +:+ section) [].

(** *** The listeners of the page *)

Inductive EventType : Type :=
| Click
| Blur
| Input.

Definition EventType_eqb (a b : EventType) : bool :=
  match a, b with
  | Click, Click | Blur, Blur | Input, Input => true
  | _, _ => false
  end.

(** The functions the script passes to [addEventListener], each with the
    variables it captured. *)
Inductive Listener : Type :=
| AnchorClick
| InfoFieldInput (el : node)
| FieldBlur
| FieldInput
| NavLinkClick (navbarToggler navbarCollapse : option node).

Record Registration : Type := mkRegistration {
  reg_target : node;
  reg_type : EventType;
  reg_listener : Listener
}.

(** [a[href^="#"]] *)
Definition is_internal_anchor (e : Element) : bool :=
  String.eqb (localName e) "a"
  && match getAttribute e "href" with
     | Some (String "#" _) => true
     | _ => false
     end.

(** [.form-control, .form-select] *)
Definition is_form_input (e : Element) : bool :=
  contains e "form-control" || contains e "form-select".

(** What [initializeNavigation] registers on the elements of the page. *)
Definition initializeNavigation_listeners (d : list Element) : list Registration :=
  (fun anchor => mkRegistration anchor Click AnchorClick)
    <$> querySelectorAll is_internal_anchor d.

(** What [initializeInfoRequestForm] registers. *)
Definition initializeInfoRequestForm_listeners (d : list Element) : list Registration :=
  match getElementById d "infoRequestForm" with
  | None => []
  | Some _ =>
      omap (fun i =>
              (fun el => mkRegistration el Input (InfoFieldInput el))
                <$> getElementById d i)
        ["riFirstName"; "riLastName"; "riEmail"]
  end.

(** What [enhanceFormInputs] registers. *)
Definition enhanceFormInputs_listeners (d : list Element) : list Registration :=
  input ← querySelectorAll is_form_input d;
  [mkRegistration input Blur FieldBlur; mkRegistration input Input FieldInput].

(** What the last [DOMContentLoaded] handler registers. *)
Definition navbar_listeners (d : list Element) : list Registration :=
  let navbarToggler := first_from (fun e => contains e "navbar-toggler") 0 d in
  let navbarCollapse := first_from (fun e => contains e "navbar-collapse") 0 d in
  (fun link => mkRegistration link Click (NavLinkClick navbarToggler navbarCollapse))
    <$> querySelectorAll (is_nav_link d) d.

(** All the element listeners of a page, in the order the three
    [DOMContentLoaded] handlers register them. *)
Definition listeners (d : list Element) : list Registration :=
  initializeNavigation_listeners d
  ++ initializeInfoRequestForm_listeners d
  ++ enhanceFormInputs_listeners d
  ++ navbar_listeners d.

Section Listeners.

Variable querySelector : list Element -> string -> Completion (option node).

Definition run_listener (this : node) (l : Listener) : JSM (option node) :=
  match l with
  | AnchorClick => anchor_click querySelector this ;; mret None
  | InfoFieldInput el => validateBasic (Some el) ;; mret None
  | FieldBlur => field_blur this ;; mret None
  | FieldInput => field_input this ;; mret None
  | NavLinkClick navbarToggler navbarCollapse =>
      nav_link_click navbarToggler navbarCollapse
  end.

(** One listener runs as a task of its own: an exception is reported and
    the next listener still runs.  The first component collects the
    elements the listeners clicked. *)
Definition notify (target : node) (type : EventType)
    (acc : list node * World) (r : Registration) : list node * World :=
  if (reg_target r =? target)%nat && EventType_eqb (reg_type r) type then
    match run_listener target (reg_listener r) (snd acc) with
    | (Normal clicked, w') => (fst acc ++ option_list clicked, w')
    | (Throw e, w') => (fst acc, log_call (Uncaught e) w')
    end
  else acc.

(** The host dispatches an event of the given type at [target]: the
    listeners registered on it run in the order of registration. *)
Definition dispatch (regs : list Registration) (target : node) (type : EventType)
    (w : World) : list node * World :=
  fold_left (notify target type) regs ([], w).

End Listeners.

(** *** debounce *)

(** [debounce(func, wait)] returns a closure over the variable [timeout].
    The state below is what one such closure can see and change: the
    clock, the timers it has set, its variable [timeout], and the calls it
    has made to [func], each with the time of the call. *)
Module Debounce.

Section Debounce.

Context {Args : Type}.
Variable wait : Z.

(** A pending [later]; it captured the arguments of the call that set it. *)
Record Later : Type := mkLater {
  later_id : nat;
  later_due : Z;
  later_args : Args
}.

Record State : Type := mkState {
  clock : Z;
  scheduled : list Later;
  next_id : nat;
  timeout : option nat;          (* [None] is [undefined] *)
  calls : list (Z * Args)
}.

Definition is_later (id : nat) (l : Later) : bool := (later_id l =? id)%nat.

(** [clearTimeout(id)]: nothing happens for [undefined] and for a timer
    that is not pending. *)
Definition clearTimeout (id : option nat) (s : State) : State :=
  match id with
  | Some i =>
      mkState (clock s) (List.filter (fun l => negb (is_later i l)) (scheduled s))
        (next_id s) (timeout s) (calls s)
  | None => s
  end.

(** [later] *)
Definition later (args : Args) (s : State) : State :=
  let s := clearTimeout (timeout s) s in
  mkState (clock s) (scheduled s) (next_id s) (timeout s)
    (calls s ++ [(clock s, args)]).

(** [executedFunction(...args)]; a negative delay counts as zero. *)
Definition executedFunction (args : Args) (s : State) : State :=
  let s := clearTimeout (timeout s) s in
  let id := next_id s in
  mkState (clock s)
    (scheduled s ++ [mkLater id (clock s + Z.max 0 wait) args])
    (S id) (Some id) (calls s).

(** The timer that fires next: the earliest due, the oldest among equals. *)
Fixpoint next_later (ls : list Later) : option Later :=
  match ls with
  | [] => None
  | l :: ls' =>
      match next_later ls' with
      | Some l' => if later_due l' <? later_due l then Some l' else Some l
      | None => Some l
      end
  end.

Definition fire_later (l : Later) (s : State) : State :=
  later (later_args l)
    (mkState (Z.max (clock s) (later_due l))
       (List.filter (fun l' => negb (is_later (later_id l) l')) (scheduled s))
       (next_id s) (timeout s) (calls s)).

Fixpoint run_due (fuel : nat) (deadline : Z) (s : State) : State :=
  match fuel with
  | O => s
  | S fuel' =>
      match next_later (scheduled s) with
      | Some l =>
          if later_due l <=? deadline then run_due fuel' deadline (fire_later l s)
          else s
      | None => s
      end
  end.

(** The clock reaches [deadline]: the timers due by then fire first.  A
    [later] sets no timer, so as many steps as there are timers suffice. *)
Definition advance (deadline : Z) (s : State) : State :=
  let s := run_due (length (scheduled s)) deadline s in
  mkState (Z.max (clock s) deadline) (scheduled s) (next_id s) (timeout s) (calls s).

(** The debounced function is called with [args] at time [t]. *)
Definition call_at (s : State) (c : Z * Args) : State :=
  executedFunction (snd c) (advance (fst c) s).

Definition run_calls (schedule : list (Z * Args)) (s : State) : State :=
  fold_left call_at schedule s.

(** A fresh closure: [timeout] is still [undefined]. *)
Definition init (t : Z) : State := mkState t [] 0 None [].

(** The delay the host applies. *)
Definition delay : Z := Z.max 0 wait.

(** The calls of the schedule come in order of time, none before [t]. *)
Fixpoint ordered (t : Z) (schedule : list (Z * Args)) : bool :=
  match schedule with
  | [] => true
  | (t', _) :: rest => (t <=? t') && ordered t' rest
  end.

(** Each call stands in the relation [R] to the next one. *)
Fixpoint gaps (R : Z -> Z -> bool) (schedule : list (Z * Args)) : bool :=
  match schedule with
  | [] => true
  | (t, _) :: rest =>
      match rest with
      | [] => true
      | (t', _) :: _ => R t t'
      end && gaps R rest
  end.

(** The calls of [func] a schedule of calls leads to: a call is passed on,
    [delay] later, unless the next call comes before that. *)
Fixpoint delivered (schedule : list (Z * Args)) : list (Z * Args) :=
  match schedule with
  | [] => []
  | (t, a) :: rest =>
      match rest with
      | [] => [(t + delay, a)]
      | (t', _) :: _ =>
          if t + delay <=? t' then (t + delay, a) :: delivered rest
          else delivered rest
      end
  end.

End Debounce.

End Debounce.

(** ** Notions the statements of this part use *)

(** The card matches the criteria of [filterPrograms]. *)
Definition matches_criteria (criteria : string) (e : Element) : bool :=
  String.eqb criteria "all"
  || bool_decide (getAttribute e "data-category" = Some criteria).

(** What [filterPrograms] does to a card. *)
Definition display_card (criteria : string) (e : Element) : Element :=
  with_style (fun st =>
    if matches_criteria criteria e then delete "display" st
    else <["display" := "none"]> st) e.

(** What [updateActiveNavigation] does to an element of the document [d]
    when [current] is the section in view. *)
Definition mark_links (d : list Element) (current : string) (e : Element) : Element :=
  if is_nav_link d e then mark_link current e else e.

(** What [validateField] does to a field. *)
Definition validated (e : Element) : Element :=
  with_classList (fun c =>
    c ∖ list_to_set ["is-valid"; "is-invalid"]
      ∪ {[if checkValidity e then "is-valid" else "is-invalid"]}) e.

(** The element is one of the required fields of the info-request form, on
    which [initializeInfoRequestForm] puts its input listener. *)
Definition info_field (d : list Element) (n : node) : bool :=
  bool_decide (is_Some (getElementById d "infoRequestForm"))
  && existsb (fun i => bool_decide (getElementById d i = Some n))
       ["riFirstName"; "riLastName"; "riEmail"].

(** The accumulator [current] of [animateCounter] after [n] additions of
    the increment. *)
Definition ramp (target : float) (n : nat) : float :=
  Nat.iter n (fun current => (current + target / 50)%float) 0%float.

(** None of the ticks 1 to [n] takes the accumulator to the target. *)
Definition below (target : float) (n : nat) : bool :=
  forallb (fun k => negb (target <=? ramp target k)%float) (seq 1 n).

(** The animation of [el] run by timer [id], started at time [t0], after
    [n] ticks that did not reach the target. *)
Definition ramp_state (el : node) (target : float) (suffix : string) (id : nat)
    (t0 : Z) (n : nat) (w : World) : Prop :=
  find (is_timer id) (timers w)
  = Some (mkTimer id (t0 + 40 * (Z.of_nat n + 1)) (Some 40)
            (CounterTick el target suffix (target / 50)%float (ramp target n)))
  /\ now w = t0 + 40 * Z.of_nat n
  /\ is_Some (document w !! el)
  /\ (n <> 0%nat ->
      textContent <$> document w !! el
      = Some (JS.toLocaleString (JS.Math_floor (ramp target n)) +:+ suffix)).

(** The timer animates a counter other than [el]. *)
Definition animates_other (el : node) (t : Timer) : Prop :=
  match callback t with
  | CounterTick el' _ _ _ _ => el' <> el
  | _ => False
  end.

(** Nothing has happened to [el] yet: it is as it was (the element [x], or
    missing), its animation has not been started, and no pending timer
    writes to it. *)
Definition untouched (el : node) (x : option Element) (w : World) : Prop :=
  document w !! el = x
  /\ animations el w = 0%nat
  /\ Forall (animates_other el) (timers w).

(** No entry of the report says that [el] intersects. *)
Definition unseen (el : node) (ev : Event) : bool :=
  match ev with
  | Intersect entries =>
      forallb (fun entry => negb ((entry_target entry =? el)%nat && isIntersecting entry))
        entries
  | Tick _ => true
  end.

(** The counters [initializeCounters] configures: id, target and suffix. *)
Definition configured : list (string * float * string) :=
  [ ("student-count", 71000%float, "+");
    ("program-count", 150%float, "+");
    ("faculty-count", 9000%float, "+");
    ("alumni-count", 500000%float, "+") ].

(** The call by which [animateCounter(el, target, suffix)] sets its
    interval is on the trace. *)
Definition started (el : node) (target : float) (suffix : string) (w : World) : Prop :=
  exists id,
    SetInterval id (CounterTick el target suffix (target / 50)%float 0%float) 40
    ∈ trace w.

(** The counter [el] waits to be seen: it is configured with [target] and
    [suffix], and it does not carry the guard class. *)
Definition waiting (el : node) (target : float) (suffix : string) (w : World) : Prop :=
  find (is_counter_of el) (counters w) = Some (mkCounter (Some el) target suffix)
  /\ exists e, document w !! el = Some e /\ contains e "counting" = false.

(** The page is ready for [submitApplication] as far as the form goes:
    the form and its five named fields are there and valid, [formData] is
    what they hold now, the submit button [b] is an element of its own, the
    page has a body, and no timer is pending. *)
Definition application_filled (w : World) (submitButton : node) (b : Element)
    (f : node) (formData : FormData.t) : Prop :=
  let d := document w in
  getElementById d "applicationForm" = Some f
  /\ form_checkValidity d f = true
  /\ d !! submitButton = Some b
  /\ contains b "success-message" = false
  /\ field_value d "firstName" (FormData.firstName formData)
  /\ field_value d "lastName" (FormData.lastName formData)
  /\ field_value d "email" (FormData.email formData)
  /\ field_value d "program" (FormData.program formData)
  /\ field_value d "startDate" (FormData.startDate formData)
  /\ FormData.submittedAt formData = now w
  /\ is_Some (first_from (fun e => String.eqb (localName e) "body") 0 d)
  /\ timers w = [].

(** [bootstrap.Modal.getInstance] finds no instance for the application
    modal: the element is missing, or no modal was made of it. *)
Definition no_modal_instance (w : World) : Prop :=
  forall m, getElementById (document w) "applicationModal" = Some m -> m ∉ modals w.

(** What [submitInfoRequest] does to a required field it checks. *)
Definition flag_invalid (e : Element) : Element :=
  if checkValidity e then e
  else with_classList (fun c => c ∪ {["is-invalid"]}) e.

(** The inline style of an element with the attributes and the style of
    [e], once the reveal observer has seen it: with [--reveal-delay] set
    to its [data-delay], when that is a non-empty string. *)
Definition revealed_style (e : Element) : gmap string string :=
  match getAttribute e "data-delay" with
  | Some (String c delay) => <["--reveal-delay" := String c delay]> (style e)
  | _ => style e
  end.

(** On the way through a report: [el] has kept the attributes of [e], and
    its style is that of [e], or already the revealed one. *)
Definition revealing (el : node) (e : Element) (w : World) : Prop :=
  exists x, document w !! el = Some x
    /\ attributes x = attributes e
    /\ (style x = style e \/ style x = revealed_style e).

(** The reveal observer has dealt with [el]. *)
Definition reveal_done (el : node) (e : Element) (w : World) : Prop :=
  exists x, document w !! el = Some x
    /\ attributes x = attributes e
    /\ style x = revealed_style e
    /\ "visible" ∈ classList x.

(** The timer animates the counter [el]. *)
Definition targets (el : node) (t : Timer) : bool :=
  match callback t with
  | CounterTick el' _ _ _ _ => (el' =? el)%nat
  | _ => false
  end.

(** The pending timers are counter animations set by the script: their
    identifiers are below the next one. *)
Definition timers_wf (w : World) : Prop :=
  Forall (fun t => (timer_id t < next_timer w)%nat /\ is_counter_tick t = true)
    (timers w).

(** The life of the counter [el], configured with [target] and [suffix]:
    either its animation has not been started and no timer writes to it; or
    it was started once, with the timer [id], which alone writes to it, and
    the element shows the final text once that timer is gone. *)
Definition counter_life (el : node) (target : float) (suffix : string) (w : World)
    : Prop :=
  timers_wf w
  /\ find (is_counter_of el) (counters w) = Some (mkCounter (Some el) target suffix)
  /\ ((animations el w = 0%nat
       /\ is_Some (document w !! el)
       /\ Forall (fun t => targets el t = false) (timers w))
      \/ (exists id,
            (id < next_timer w)%nat
            /\ counter_inv el target suffix id w
            /\ has_class el "counting" w
            /\ Forall (fun t => targets el t = true -> timer_id t = id) (timers w))).

(** ** A second example page

    A page with a collapsing menu that is open, a placeholder link, a link
    to a missing target, and the program cards. *)

Module Catalog.

Definition card (parent : node) (category : string) : Element :=
  Demo.tag "div" (Some parent) [("data-category", category)] ["card"].

Definition page : list Element :=
  [ (* 0 *) Demo.tag "body" None [] [];
    (* 1 *) Demo.tag "button" (Some 0%nat) [] ["navbar-toggler"];
    (* 2 *) Demo.tag "div" (Some 0%nat) [] ["navbar-collapse"; "show"];
    (* 3 *) Demo.tag "ul" (Some 2%nat) [] ["navbar-nav"];
    (* 4 *) Demo.tag "a" (Some 3%nat) [("href", "#programs")] ["nav-link"];
    (* 5 *) Demo.tag "a" (Some 3%nat) [("href", "#")] ["nav-link"];
    (* 6 *) Demo.tag "a" (Some 0%nat) [("href", "#missing")] [];
    (* 7 *) Demo.block "section" "programs" 600 900;
    (* 8 *) card 7 "engineering";
    (* 9 *) card 7 "arts";
    (* 10 *) Demo.tag "div" (Some 0%nat) [("data-category", "arts")] [];
    (* 11 *) Demo.control "email" 0 EmptyString Demo.required ].

Definition world : World :=
  mkWorld page 0 [] 0 [] 0%Q 800 [] ∅ ∅ ∅ ∅.

End Catalog.

(** * Properties of the script *)

(** ** Symbolic execution *)

(** Unfold the monad and the primitive statements, so that a statement
    applied to a world becomes the world it produces. *)
Ltac js :=
  cbv beta iota zeta delta
    [mbind mret JSM_bind JSM_ret get modify host throw deref exec
     update element byId classList_add classList_remove classList_contains
     set_textContent set_innerHTML set_disabled setProperty value_of console_log
     schedule setTimeout setInterval clearInterval store_current observe unobserve
     fst snd].

(** The same, without looking into [value_of]. *)
Ltac js' :=
  cbv beta iota zeta delta
    [mbind mret JSM_bind JSM_ret get modify host throw deref exec
     update element byId classList_add classList_remove classList_contains
     set_textContent set_innerHTML set_disabled setProperty console_log
     schedule setTimeout setInterval clearInterval store_current observe unobserve
     fst snd].

(** Read a component of a world through the writes made to it. *)
Ltac proj :=
  cbn [document now timers next_timer trace scrollY innerHeight counters
       counterObserver fadeObserver revealObserver modals
       set_document set_now set_timers set_next_timer log_call set_scrollY
       set_counters set_counterObserver set_fadeObserver set_revealObserver
       set_modals].

(** Evaluate nested writes to a world given by its components, from the
    inside out. *)
Ltac flat :=
  cbv beta iota delta
    [set_document set_now set_timers set_next_timer log_call set_scrollY
     set_counters set_counterObserver set_fadeObserver set_revealObserver
     set_modals
     document now timers next_timer trace scrollY innerHeight counters
     counterObserver fadeObserver revealObserver modals].

(** ** JavaScript values *)

Example toLocaleString_500000 :
  JS.toLocaleString (JS.Math_floor 500000%float) = "500,000".
Proof. vm_compute. reflexivity. Qed.

Example toLocaleString_negative :
  JS.toLocaleString (JS.Math_floor (-1234567.5)%float) = "-1,234,568".
Proof. vm_compute. reflexivity. Qed.

Example Number_to_Z_150 : JS.Number_to_Z 150%float = Some 150.
Proof. vm_compute. reflexivity. Qed.

Example Number_to_Z_fraction : JS.Number_to_Z 1.5%float = None.
Proof. vm_compute. reflexivity. Qed.

Example trim_example : JS.trim "  Ada Lovelace   " = "Ada Lovelace".
Proof. vm_compute. reflexivity. Qed.

Lemma Math_floor_integer (x : float) (T : Z) :
  JS.Number_to_Z x = Some T -> JS.Math_floor x = JS.IInt T.
Proof.
  unfold JS.Number_to_Z, JS.Math_floor.
  destruct (Prim2SF x) as [[|]|s|  |s m e]; try discriminate.
  - intros [= <-]. reflexivity.
  - destruct (_ || _); [|discriminate]. intros [= <-]. reflexivity.
Qed.

(** ** Worlds and timers *)

(** Two worlds with the same components are equal. *)
Lemma world_eq (a b : World) :
  document a = document b -> now a = now b -> timers a = timers b ->
  next_timer a = next_timer b -> trace a = trace b -> scrollY a = scrollY b ->
  innerHeight a = innerHeight b -> counters a = counters b ->
  counterObserver a = counterObserver b -> fadeObserver a = fadeObserver b ->
  revealObserver a = revealObserver b -> modals a = modals b ->
  a = b.
Proof. destruct a, b. cbn. by intros -> -> -> -> -> -> -> -> -> -> -> ->. Qed.

Lemma find_is_timer_fmap id (f : Timer -> Timer) (ts : list Timer) :
  (forall t, timer_id (f t) = timer_id t) ->
  find (is_timer id) (f <$> ts) = f <$> find (is_timer id) ts.
Proof.
  intros Hf. induction ts as [|t ts IH]; [reflexivity|].
  cbn. unfold is_timer at 1. rewrite Hf. fold (is_timer id t).
  destruct (is_timer id t); [reflexivity | exact IH].
Qed.

Lemma find_is_timer_cleared id (ts : list Timer) :
  find (is_timer id) (filter (fun t => is_timer id t = false) ts) = None.
Proof.
  induction ts as [|t ts IH]; [reflexivity|].
  rewrite filter_cons. case_decide as Ht; [|exact IH].
  cbn. rewrite Ht. exact IH.
Qed.

Lemma find_app_none {A} (P : A -> bool) (l1 l2 : list A) :
  find P l1 = None -> find P (l1 ++ l2) = find P l2.
Proof.
  induction l1 as [|x l1 IH]; [reflexivity|].
  cbn. destruct (P x); [discriminate | exact IH].
Qed.

Lemma pending_find id w : pending id w = false -> find (is_timer id) (timers w) = None.
Proof.
  unfold pending. induction (timers w) as [|t ts IH]; [reflexivity|].
  cbn. destruct (is_timer id t); [discriminate | exact IH].
Qed.

(** ** The rendering of numbers *)

Lemma digits_of_uint (d : Decimal.uint) :
  Forall (fun c => is_digit c = true)
    (list_ascii_of_string (NilEmpty.string_of_uint d)).
Proof. induction d; cbn; constructor; done. Qed.

Lemma digits_are_digits (n : N) : Forall (fun c => is_digit c = true) (JS.digits n).
Proof.
  unfold JS.digits, NilZero.string_of_uint.
  destruct (N.to_uint n); try apply digits_of_uint. by repeat constructor.
Qed.

Lemma digits_nonempty (n : N) : JS.digits n <> [].
Proof.
  unfold JS.digits, NilZero.string_of_uint. by destruct (N.to_uint n).
Qed.

Lemma digit_not_separator (c : ascii) : is_digit c = true -> Ascii.eqb c "," = false.
Proof.
  intros Hc. destruct (Ascii.eqb_spec c ","%char) as [->|]; [discriminate | done].
Qed.

Lemma group3_separated (l : list ascii) (k : nat) :
  Forall (fun c => is_digit c = true) l ->
  (k <= 3)%nat -> (l = [] -> (0 < k)%nat) ->
  separated (JS.group3 l k) k = true.
Proof.
  intros Hl. revert k. induction Hl as [|d ds Hd _ IH]; intros k Hk Hne.
  - cbn [JS.group3 separated]. apply Nat.ltb_lt. by apply Hne.
  - pose proof (digit_not_separator d Hd) as Hsep.
    destruct k as [|[|[|[|k]]]]; [..|lia]; cbn [JS.group3 separated];
      rewrite ?Hsep, ?Hd; cbn [andb Nat.ltb Nat.leb Nat.eqb separated];
      rewrite ?Hsep, ?Hd; cbn [andb Nat.ltb Nat.leb Nat.eqb];
      apply IH; lia.
Qed.

Lemma group3_digits (l : list ascii) (k : nat) :
  Forall (fun c => is_digit c = true) l ->
  List.filter (fun c => negb (Ascii.eqb c ",")) (JS.group3 l k) = l.
Proof.
  intros Hl. revert k. induction Hl as [|d ds Hd _ IH]; intros k; [done|].
  pose proof (digit_not_separator d Hd) as Hsep.
  destruct k as [|[|[|[|k]]]]; cbn [JS.group3 List.filter]; rewrite ?Hsep; cbn;
    rewrite ?Hsep; cbn; by rewrite IH.
Qed.

Lemma separated_no_sign (l : list ascii) (k : nat) :
  separated l k = true -> ~ In "-"%char l.
Proof.
  revert k. induction l as [|c l IH]; intros k H; [by intros []|].
  cbn [separated] in H. intros [->|Hin].
  - cbn in H. discriminate.
  - destruct (Ascii.eqb c ","); apply andb_prop in H as [H1 H2].
    + by apply (IH 0%nat).
    + by apply (IH (S k)).
Qed.

Lemma N_to_uint_nonnil (n : N) : N.to_uint n <> Decimal.Nil.
Proof.
  destruct n as [|p]; [discriminate|]. apply DecimalPos.Unsigned.to_uint_nonnil.
Qed.

Lemma nzhead_head (d : Decimal.uint) :
  match Decimal.nzhead d with Decimal.D0 _ => False | _ => True end.
Proof. induction d; cbn; done. Qed.

Lemma digits_no_leading_zero (n : N) :
  no_leading_zero (NilZero.string_of_uint (N.to_uint n)) = true.
Proof.
  pose proof (DecimalN.Unsigned.to_of (N.to_uint n)) as H.
  rewrite DecimalN.Unsigned.of_to in H. rewrite H. unfold Decimal.unorm.
  pose proof (nzhead_head (N.to_uint n)) as Hh.
  destruct (Decimal.nzhead (N.to_uint n)) as [|d|d|d|d|d|d|d|d|d|d]; try done;
    cbn; by destruct d.
Qed.

Lemma group_thousands_spec (n : N) :
  let body := JS.group_thousands n in
  separated (rev (list_ascii_of_string body)) 0 = true
  /\ without_separators body = NilZero.string_of_uint (N.to_uint n).
Proof.
  intros body. unfold body, JS.group_thousands, without_separators.
  rewrite list_ascii_of_string_of_list_ascii. split.
  - rewrite rev_involutive. apply group3_separated; [|lia|].
    + apply Forall_rev, digits_are_digits.
    + intros H. exfalso. apply (digits_nonempty n).
      apply (f_equal (@rev ascii)) in H. by rewrite rev_involutive in H.
  - rewrite List.filter_rev, group3_digits by apply Forall_rev, digits_are_digits.
    rewrite rev_involutive. unfold JS.digits. apply string_of_list_ascii_of_string.
Qed.

(** The formatter of the model writes the thousands-separated text of
    every integer. *)
Lemma toLocaleString_separated (T : Z) :
  thousands_separated (JS.toLocaleString (JS.IInt T)) T = true.
Proof.
  unfold JS.toLocaleString.
  destruct (group_thousands_spec (Z.abs_N T)) as [Hsep Hdigits].
  assert (forall negative,
            Bool.eqb negative (T <? 0)
            && separated (rev (list_ascii_of_string (JS.group_thousands (Z.abs_N T)))) 0
            && no_leading_zero (without_separators (JS.group_thousands (Z.abs_N T)))
            && match decimal_value (without_separators (JS.group_thousands (Z.abs_N T))) with
               | Some n => (n =? Z.abs_N T)%N
               | None => false
               end
            = Bool.eqb negative (T <? 0)) as Hbody.
  { intros negative. rewrite Hsep, Hdigits, digits_no_leading_zero.
    unfold decimal_value. rewrite NilZero.usu by apply N_to_uint_nonnil.
    cbn [option_map]. rewrite DecimalN.Unsigned.of_to, N.eqb_refl.
    by rewrite !andb_true_r. }
  unfold thousands_separated.
  destruct (T <? 0) eqn:Hlt.
  - apply Z.ltb_lt in Hlt. replace (Z.to_N (- T)) with (Z.abs_N T) by lia.
    change ("-" +:+ JS.group_thousands (Z.abs_N T))
      with (String "-" (JS.group_thousands (Z.abs_N T))).
    cbv beta iota zeta. by rewrite Hbody.
  - apply Z.ltb_ge in Hlt. replace (Z.to_N T) with (Z.abs_N T) by lia.
    destruct (JS.group_thousands (Z.abs_N T)) as [|c r] eqn:Htext.
    + cbv beta iota zeta. by rewrite Hbody.
    + destruct (Ascii.eqb_spec c "-"%char) as [->|Hc].
      * exfalso. apply (separated_no_sign _ _ Hsep).
        apply in_rev. rewrite rev_involutive. cbn. by left.
      * assert (forall A (x y : A),
                  match c with
                  | "-"%char => x
                  | _ => y
                  end = y) as Hmatch.
        { intros A x y.
          destruct c as [[] [] [] [] [] [] [] []]; try reflexivity. by destruct Hc. }
        rewrite Hmatch. cbv beta iota zeta.
        by rewrite Hbody.
Qed.

(** ** The counter animation *)

Section CounterAnimation.

Variables (el : node) (target : float) (suffix : string) (id : nat).

Lemma counter_inv_tick w :
  counter_inv el target suffix id w -> counter_inv el target suffix id (tick id w).
Proof.
  intros [Hel Hinv]. unfold tick.
  destruct (find (is_timer id) (timers w)) as [t|] eqn:Hfind; [|by split; [|rewrite Hfind]].
  destruct Hinv as [[ms Hms] [cur Hcb]].
  pose proof (find_some _ _ Hfind) as [_ Ht].
  assert (timer_id t = id) as Hid by by apply Nat.eqb_eq in Ht.
  destruct Hel as [e He].
  unfold fire, task. rewrite Hcb. cbn [run_callback]. unfold counterTick.
  destruct (target <=? cur + target / 50)%float; js; rewrite Hid.
  - split; proj.
    + rewrite list_lookup_alter_eq, He. by eexists.
    + rewrite find_is_timer_fmap, find_is_timer_cleared.
      * rewrite list_lookup_alter_eq, He. reflexivity.
      * intros t0. destruct (is_timer id t0); [|reflexivity].
        unfold with_current. by destruct (callback t0).
  - split; proj.
    + rewrite list_lookup_alter_eq, He. by eexists.
    + unfold rearm. rewrite Hms, Hid.
      rewrite !find_is_timer_fmap, Hfind.
      * cbn [fmap option_fmap option_map]. rewrite Ht.
        unfold is_timer at 1. cbn [timer_id]. rewrite Hid, Nat.eqb_refl.
        unfold with_current. cbn [callback repeat timer_id due]. rewrite Hcb.
        cbn [callback repeat]. rewrite Hms. split; [by eexists|].
        match goal with |- context [if ?b then _ else _] => destruct b end;
          eexists; reflexivity.
      * intros t0. by destruct (is_timer id t0).
      * intros t0. destruct (is_timer id t0); [|reflexivity].
        unfold with_current. by destruct (callback t0).
Qed.

Lemma counter_inv_ticks n w :
  counter_inv el target suffix id w ->
  counter_inv el target suffix id (Nat.iter n (tick id) w).
Proof. intros H. induction n as [|n IH]; [exact H | by apply counter_inv_tick]. Qed.

End CounterAnimation.

Lemma counter_inv_start el target suffix w :
  is_Some (document w !! el) ->
  pending (next_timer w) w = false ->
  counter_inv el target suffix (next_timer w) (exec (animateCounter el target suffix) w).
Proof.
  intros [e He] Hfresh. unfold animateCounter. js. split; proj.
  - rewrite list_lookup_alter_eq, He. by eexists.
  - rewrite find_app_none by by apply pending_find.
    cbn. rewrite Nat.eqb_refl. split; by eexists.
Qed.

(** C1: once the animation started by [animateCounter] for an integer
    target [T] and a suffix [S] is complete (its interval timer is no longer
    pending, after any number of ticks), the element shows the
    thousands-separated rendering of [T] followed by [S]: the sign, then the
    decimal digits of [|T|] in groups of three separated by commas.  [T] is
    at most 2^53 in magnitude, the integers [toLocaleString] prints with all
    their digits. *)
Theorem animateCounter_final_text (w : World) (el : node) (target : float)
    (T : Z) (S : string) (n : nat) :
  is_Some (document w !! el) ->
  pending (next_timer w) w = false ->
  JS.Number_to_Z target = Some T ->
  Z.abs T <= 2 ^ 53 ->
  let timer := next_timer w in
  let w' := Nat.iter n (tick timer) (exec (animateCounter el target S) w) in
  pending timer w' = false ->
  textContent <$> document w' !! el = Some (JS.toLocaleString (JS.IInt T) +:+ S)
  /\ thousands_separated (JS.toLocaleString (JS.IInt T)) T = true.
Proof.
  intros Hel Hfresh HT Hexact timer w' Hdone.
  split; [|apply toLocaleString_separated].
  destruct (counter_inv_ticks el target S timer n _
              (counter_inv_start el target S w Hel Hfresh)) as [_ Hinv].
  fold w' in Hinv. rewrite (pending_find _ _ Hdone) in Hinv.
  rewrite Hinv. unfold final_text. by rewrite (Math_floor_integer _ _ HT).
Qed.

Lemma animateCounter_final_text_witness :
  let w := Nat.iter 50 (tick 0)
             (exec (animateCounter 8 500000%float "+") (Demo.world "Ada")) in
  textContent <$> document w !! 8%nat = Some "500,000+"
  /\ thousands_separated "500,000" 500000 = true.
Proof.
  apply (animateCounter_final_text (Demo.world "Ada") 8 500000%float 500000 "+" 50).
  - vm_compute. eexists. reflexivity.
  - vm_compute. reflexivity.
  - vm_compute. reflexivity.
  - lia.
  - vm_compute. reflexivity.
Defined.

(** The examples of the spec: target 150 with suffix "+" shows "150+";
    target 500000 with no suffix shows "500,000", with suffix "+" it shows
    "500,000+". *)
Example animateCounter_150 :
  textContent <$>
    document (run_until 100 2000 (exec (animateCounter 7 150%float "+")
                                    (Demo.world "Ada"))) !! 7%nat
  = Some "150+".
Proof. vm_compute. reflexivity. Qed.

Example animateCounter_500000 :
  let shown suffix :=
    textContent <$>
      document (run_until 100 2000 (exec (animateCounter 8 500000%float suffix)
                                      (Demo.world "Ada"))) !! 8%nat in
  shown EmptyString = Some "500,000" /\ shown "+" = Some "500,000+".
Proof. vm_compute. split; reflexivity. Qed.

(** C9, at the counter #placement-rate of the TechForward variant
    (target 94, suffix "%"): after the 50th tick, 2000 ms after the start,
    the accumulator is still below 94, the element shows "93%" and the
    interval is still pending; the animation only completes on the 51st
    tick, at 2040 ms. *)
Theorem animateCounter_94_needs_51_ticks :
  let start := exec (animateCounter 9 94%float "%") (Demo.world "Ada") in
  let w50 := Nat.iter 50 (tick 0) start in
  let w51 := tick 0 w50 in
  (now w50 = 2000 /\ pending 0 w50 = true
   /\ (fun current => current <? 94)%float <$> accumulator 0 w50 = Some true
   /\ textContent <$> document w50 !! 9%nat = Some "93%")
  /\ (now w51 = 2040 /\ pending 0 w51 = false
      /\ textContent <$> document w51 !! 9%nat = Some "94%").
Proof. vm_compute. repeat split; reflexivity. Qed.

(** ** Navigation: the click listener *)

(** C7: a click on a same-page anchor whose target exists cancels the
    default navigation and issues exactly one scroll command, to the
    target's offset minus the 80px header; nothing else changes. *)
Theorem anchor_click_scrolls_once
    (querySelector : list Element -> string -> Completion (option node))
    (w : World) (this target : node) (a e : Element) (href : string) :
  document w !! this = Some a ->
  getAttribute a "href" = Some href ->
  querySelector (document w) href = Normal (Some target) ->
  document w !! target = Some e ->
  anchor_click querySelector this w
  = (Normal tt,
     mkWorld (document w) (now w) (timers w) (next_timer w)
       (trace w ++ [PreventDefault; ScrollTo (offsetTop e - 80) "smooth"])
       (scrollY w) (innerHeight w) (counters w) (counterObserver w)
       (fadeObserver w) (revealObserver w) (modals w)).
Proof.
  intros Ha Hhref Hq He. unfold anchor_click. js. proj.
  rewrite Ha, Hhref. cbn [default from_option]. unfold id. proj. rewrite Hq. proj. rewrite He.
  unfold log_call. proj. by rewrite <- app_assoc.
Qed.

Lemma anchor_click_scrolls_once_witness :
  trace (exec (anchor_click id_selector_engine 2) (Demo.world "Ada"))
  = [PreventDefault; ScrollTo 920 "smooth"].
Proof.
  unfold exec.
  rewrite (anchor_click_scrolls_once id_selector_engine (Demo.world "Ada") 2 4
             (Demo.tag "a" (Some 1%nat) [("href", "#about")] ["nav-link"])
             (Demo.block "section" "about" 1000 200) "#about");
    reflexivity.
Defined.

(** ** The application form *)

Lemma form_checkValidity_false (d : list Element) (f n : node) (field : Element) :
  d !! n = Some field -> form field = Some f -> checkValidity field = false ->
  form_checkValidity d f = false.
Proof.
  intros Hn Hf Hv. apply not_true_is_false. intros Hall.
  unfold form_checkValidity in Hall. rewrite forallb_forall in Hall.
  specialize (Hall field). rewrite Hv in Hall.
  unfold owned_by in Hall. rewrite bool_decide_eq_true_2 in Hall by done.
  cbn in Hall. apply diff_false_true, Hall.
  apply list_elem_of_In, list_elem_of_lookup. eauto.
Qed.

Lemma run_until_idle fuel deadline w :
  timers w = [] ->
  document (run_until fuel deadline w) = document w
  /\ trace (run_until fuel deadline w) = trace w
  /\ timers (run_until fuel deadline w) = [].
Proof. intros H. destruct fuel; cbn; [done|]. rewrite H. cbn. by rewrite H. Qed.

(** C2: when a control of the application form fails constraint validation,
    [submitApplication] only asks the browser to report it.  The document is
    untouched (every field keeps its value; the button stays as it was,
    enabled and with its label), no timer is scheduled and nothing is logged
    to the console; with nothing else pending, nothing is ever logged later. *)
Theorem submitApplication_invalid_aborts
    (w : World) (submitButton f n : node) (field : Element) :
  getElementById (document w) "applicationForm" = Some f ->
  document w !! n = Some field ->
  form field = Some f ->
  checkValidity field = false ->
  let w' := exec (submitApplication submitButton) w in
  document w' = document w
  /\ timers w' = timers w
  /\ trace w' = trace w ++ [ReportValidity f]
  /\ console w' = console w
  /\ (timers w = [] -> forall fuel deadline,
        document (run_until fuel deadline w') = document w
        /\ console (run_until fuel deadline w') = console w).
Proof.
  intros Hf Hn Hform Hv w'.
  assert (w' = log_call (ReportValidity f) w) as ->.
  { unfold w', submitApplication. js. rewrite Hf.
    by rewrite (form_checkValidity_false _ _ _ _ Hn Hform Hv). }
  assert (console (log_call (ReportValidity f) w) = console w) as Hc.
  { unfold console. proj. rewrite omap_app. cbn. by rewrite app_nil_r. }
  repeat split; try done.
  - by destruct (run_until_idle fuel deadline (log_call (ReportValidity f) w)) as (-> & _).
  - unfold console in *.
    destruct (run_until_idle fuel deadline (log_call (ReportValidity f) w)) as (_ & -> & _);
      done.
Qed.

Lemma submitApplication_invalid_aborts_witness :
  let w := Demo.world EmptyString in
  let w' := exec (submitApplication 19) w in
  document w' = document w
  /\ timers w' = timers w
  /\ trace w' = trace w ++ [ReportValidity 13%nat]
  /\ console w' = console w
  /\ (timers w = [] -> forall fuel deadline,
        document (run_until fuel deadline w') = document w
        /\ console (run_until fuel deadline w') = console w).
Proof.
  apply (submitApplication_invalid_aborts (Demo.world EmptyString) 19 13 14
           (Demo.control "firstName" 13 EmptyString Demo.required));
    reflexivity.
Defined.

(** ** Navigation: the active link *)

Lemma all_from_spec (P : Element -> bool) (d : list Element) (k n : nat) :
  n ∈ all_from P k d <-> (k <= n)%nat /\ exists e, d !! (n - k)%nat = Some e /\ P e = true.
Proof.
  revert k. induction d as [|x d IH]; intros k; cbn [all_from].
  - split; [by intros ?%elem_of_nil | by intros (_ & e & ? & _)].
  - assert (n ∈ all_from P (S k) d <->
            (k <= n)%nat /\ n <> k /\ exists e, d !! (n - S k)%nat = Some e /\ P e = true) as IH'.
    { rewrite IH. split; [intros (? & ?); repeat split; [lia | lia | done]
                         | intros (? & ? & ?); split; [lia | done]]. }
    destruct (P x) eqn:HP; [rewrite elem_of_cons|]; rewrite IH'; split.
    + intros [-> | (Hle & Hne & e & He & HPe)].
      * split; [lia|]. exists x. by rewrite Nat.sub_diag.
      * split; [done|]. exists e. split; [|done].
        replace (n - k)%nat with (S (n - S k)) by lia. done.
    + intros (Hle & e & He & HPe).
      destruct (decide (n = k)) as [->|Hne]; [by left | right].
      repeat split; [done | done |]. exists e. split; [|done].
      replace (n - k)%nat with (S (n - S k)) in He by lia. done.
    + intros (Hle & Hne & e & He & HPe). split; [done|]. exists e. split; [|done].
      replace (n - k)%nat with (S (n - S k)) by lia. done.
    + intros (Hle & e & He & HPe).
      destruct (decide (n = k)) as [->|Hne].
      * rewrite Nat.sub_diag in He. cbn in He. congruence.
      * repeat split; [done | done |]. exists e. split; [|done].
        replace (n - k)%nat with (S (n - S k)) in He by lia. done.
Qed.

Lemma all_from_NoDup (P : Element -> bool) (d : list Element) (k : nat) :
  NoDup (all_from P k d).
Proof.
  revert k. induction d as [|x d IH]; intros k; cbn [all_from]; [constructor|].
  destruct (P x); [|apply IH]. constructor; [|apply IH].
  rewrite all_from_spec. lia.
Qed.

Lemma querySelectorAll_spec (P : Element -> bool) (d : list Element) (n : node) :
  n ∈ querySelectorAll P d <-> exists e, d !! n = Some e /\ P e = true.
Proof.
  unfold querySelectorAll. rewrite all_from_spec, Nat.sub_0_r.
  split; [by intros (_ & ?) | intros ?; split; [lia | done]].
Qed.

(** Altering each node of [l] once. *)
Lemma foldl_alter_lookup (f : Element -> Element) (l : list node) (d : list Element) (i : node) :
  NoDup l ->
  foldl (fun d n => alter f n d) d l !! i
  = if decide (i ∈ l) then f <$> d !! i else d !! i.
Proof.
  revert d. induction l as [|n l IH]; intros d Hnd; cbn [foldl].
  - by rewrite decide_False by apply not_elem_of_nil.
  - apply NoDup_cons in Hnd as [Hn Hnd]. rewrite IH by done.
    destruct (decide (i = n)) as [->|Hne].
    + rewrite (decide_False (P := n ∈ l)) by done.
      rewrite (decide_True (P := n ∈ n :: l)) by apply list_elem_of_here.
      apply list_lookup_alter_eq.
    + rewrite list_lookup_alter_ne by done.
      destruct (decide (i ∈ l)) as [Hi|Hi].
      * by rewrite decide_True by by apply list_elem_of_further.
      * rewrite decide_False; [done|]. rewrite elem_of_cons. tauto.
Qed.

Lemma activate_link_eq (current : string) (n : node) (e : Element) (w : World) :
  document w !! n = Some e ->
  activate_link current n w
  = (Normal tt, set_document (alter (mark_link current) n) w).
Proof.
  intros He. unfold activate_link. js. proj.
  rewrite list_lookup_alter_eq, He. cbn [fmap option_fmap option_map].
  unfold getAttribute at 1. cbn [attributes with_classList].
  case_bool_decide as Hhref; unfold set_document; proj; do 2 f_equal.
  - rewrite list_alter_alter_eq. apply list_alter_ext; [|done].
    intros x Hx. assert (x = e) as -> by congruence.
    unfold mark_link, getAttribute. cbn [attributes with_classList].
    by rewrite bool_decide_eq_true_2.
  - apply list_alter_ext; [|done].
    intros x Hx. assert (x = e) as -> by congruence.
    unfold mark_link, getAttribute. cbn [attributes with_classList].
    by rewrite bool_decide_eq_false_2.
Qed.

Lemma forEach_links (current : string) (l : list node) (w : World) :
  (forall n, n ∈ l -> is_Some (document w !! n)) ->
  forEach l (activate_link current) w
  = (Normal tt,
     set_document (fun d => foldl (fun d n => alter (mark_link current) n d) d l) w).
Proof.
  revert w. induction l as [|n l IH]; intros w Hl; [by destruct w|].
  destruct (Hl n) as [e He]; [apply list_elem_of_here|].
  cbn [forEach foldl]. unfold mbind, JSM_bind.
  rewrite (activate_link_eq _ _ _ _ He), IH; [by destruct w|].
  intros m Hm. proj. destruct (decide (m = n)) as [->|Hne].
  - rewrite list_lookup_alter_eq, He. by eexists.
  - rewrite list_lookup_alter_ne by done. apply Hl. by apply list_elem_of_further.
Qed.

Lemma in_view_spec (y : Q) (e : Element) :
  in_view y e = true <->
  (inject_Z (offsetTop e - 100) <= y
   /\ y < inject_Z (offsetTop e - 100 + clientHeight e))%Q.
Proof.
  unfold in_view. rewrite andb_true_iff, negb_true_iff, Qle_bool_iff.
  split; intros [H1 H2]; (split; [done|]).
  - apply Qnot_le_lt. intros H%Qle_bool_iff. congruence.
  - apply not_true_is_false. intros H%Qle_bool_iff. by apply Qle_not_lt in H.
Qed.

Lemma current_section_skip (y : Q) (d : list Element) (l : list node) (c : string) :
  (forall n e, n ∈ l -> d !! n = Some e -> in_view y e = false) ->
  fold_left (fun current n =>
    match d !! n with
    | Some section =>
        if in_view y section
        then default "null" (getAttribute section "id")
        else current
    | None => current
    end) l c = c.
Proof.
  revert c. induction l as [|n l IH]; intros c Hl; [done|].
  cbn [fold_left]. rewrite IH.
  - destruct (d !! n) as [e|] eqn:He; [|done].
    by rewrite (Hl n e (list_elem_of_here _ _) He).
  - intros m e Hm. apply Hl. by apply list_elem_of_further.
Qed.

(** C6, as the code has it.  A section is in view when [scrollY] lies in
    the band from 100px above its top over its height.  After
    [updateActiveNavigation] a navigation link carries "active" exactly
    when its href is "#" followed by [current], the id of the last section
    in view, or the empty string when none is; so all active links share
    one href, the link of the section in view is the active one, and when
    no section is in view only a link whose href is "#" can be active. *)
Theorem updateActiveNavigation_active (w : World) :
  let d := document w in
  let sections := querySelectorAll is_section_with_id d in
  let navLinks := querySelectorAll (is_nav_link d) d in
  let current := current_section (scrollY w) d sections in
  let w' := exec updateActiveNavigation w in
  (forall e, in_view (scrollY w) e = true <->
     (inject_Z (offsetTop e - 100) <= scrollY w
      /\ scrollY w < inject_Z (offsetTop e - 100 + clientHeight e))%Q)
  /\ (forall link, link ∈ navLinks ->
        exists e e', d !! link = Some e /\ document w' !! link = Some e'
          /\ ("active" ∈ classList e' <-> getAttribute e "href" = Some ("#" +:+ current)))
  /\ (forall before x after ex X,
        sections = before ++ x :: after ->
        d !! x = Some ex -> getAttribute ex "id" = Some X ->
        in_view (scrollY w) ex = true ->
        (forall n e, n ∈ after -> d !! n = Some e -> in_view (scrollY w) e = false) ->
        current = X)
  /\ ((forall n e, n ∈ sections -> d !! n = Some e -> in_view (scrollY w) e = false) ->
      current = EmptyString).
Proof.
  intros d sections navLinks current w'.
  split; [intros e; apply in_view_spec|]. split; [|split].
  - intros link Hlink.
    assert (forall n, n ∈ navLinks -> is_Some (d !! n)) as Hall.
    { intros n [e [He _]]%querySelectorAll_spec. by eexists. }
    destruct (Hall link Hlink) as [e He]. exists e.
    assert (document w' = foldl (fun d n => alter (mark_link current) n d) d navLinks) as ->.
    { unfold w', updateActiveNavigation, exec. js.
      fold d. fold sections. fold navLinks. fold current.
      by rewrite (forEach_links current navLinks w Hall). }
    rewrite foldl_alter_lookup by apply all_from_NoDup.
    rewrite decide_True by done. rewrite He. eexists. split; [done|]. split; [done|].
    unfold mark_link, getAttribute. cbn [attributes with_classList].
    case_bool_decide as Hhref; cbn [classList with_classList].
    + split; [done|]. intros _. by apply elem_of_union_r, elem_of_singleton.
    + split; [|done]. intros [_ Hne]%elem_of_difference.
      exfalso. by apply Hne, elem_of_singleton.
  - intros before x after ex X Hs Hx HX Hin Hafter.
    unfold current, current_section. rewrite Hs, fold_left_app. cbn [fold_left].
    rewrite current_section_skip by done. by rewrite Hx, Hin, HX.
  - intros Hnone. by apply current_section_skip.
Qed.

Lemma updateActiveNavigation_active_witness :
  let w := set_scrollY 950 (Demo.world "Ada") in
  current_section (scrollY w) (document w)
    (querySelectorAll is_section_with_id (document w)) = "about".
Proof.
  intros w.
  destruct (updateActiveNavigation_active w) as (_ & _ & Hcurrent & _).
  apply (Hcurrent [] 4%nat [5%nat] (Demo.block "section" "about" 1000 200) "about");
    try reflexivity.
  intros n e Hn He. apply list_elem_of_singleton in Hn. subst n.
  vm_compute in He. injection He as <-. reflexivity.
Defined.

(** C6 as stated fails: with the window scrolled to 650 and 1000px high,
    the viewport centre (1150) lies within section #about (1000 to 1200),
    yet [scrollY] is below the band of every section and no navigation link
    is active, the link to #about included. *)
Lemma viewport_center_counterexample :
  let w := set_scrollY 650 (Demo.world "Ada") in
  let w' := exec updateActiveNavigation w in
  (inject_Z 1000 <= viewport_center w /\ viewport_center w < inject_Z (1000 + 200))%Q
  /\ (fun e => getAttribute e "href") <$> document w !! 2%nat = Some (Some "#about")
  /\ (fun e => contains e "active") <$> document w' !! 2%nat = Some false
  /\ (fun e => contains e "active") <$> document w' !! 3%nat = Some false.
Proof. vm_compute. repeat split; discriminate. Qed.

(** ** Observers *)

Lemma forEach_preserves {A} (P : World -> Prop) (f : A -> JSM unit) (l : list A) (w : World) :
  (forall x w, P w -> P (exec (f x) w)) ->
  P w -> P (exec (forEach l f) w).
Proof.
  intros Hf. revert w. induction l as [|x l IH]; intros w Hw; [done|].
  unfold exec in *. cbn [forEach]. unfold mbind, JSM_bind.
  specialize (Hf x w Hw). destruct (f x w) as [[[]|err] w1]; [by apply IH | done].
Qed.

Lemma task_preserves (P : World -> Prop) (m : JSM unit) (w : World) :
  (forall w, P w -> P (exec m w)) ->
  (forall err w, P w -> P (log_call (Uncaught err) w)) ->
  P w -> P (task m w).
Proof.
  intros Hm Herr Hw. unfold task. specialize (Hm w Hw). unfold exec in Hm.
  destruct (m w) as [[[]|err] w1]; [done | by apply Herr].
Qed.

Lemma animations_log_call (el : node) (c : HostCall) (w : World) :
  animations el (log_call c w)
  = (animations el w + if starts_animation el c then 1 else 0)%nat.
Proof.
  unfold animations. proj. rewrite List.filter_app, length_app. cbn.
  by destruct (starts_animation el c).
Qed.

Lemma has_class_alter (f : Element -> Element) (n el : node) (token : string)
    (w w' : World) :
  document w' = alter f n (document w) ->
  (forall e, token ∈ classList e -> token ∈ classList (f e)) ->
  has_class el token w -> has_class el token w'.
Proof.
  intros Hd Hf (e & He & Htok). unfold has_class. rewrite Hd.
  destruct (decide (n = el)) as [->|Hne].
  - rewrite list_lookup_alter_eq, He. eexists. split; [done|]. by apply Hf.
  - rewrite list_lookup_alter_ne by done. eauto.
Qed.

Lemma counters_inv_quiet (w w' : World) : quiet w w' -> counters_inv w -> counters_inv w'.
Proof.
  intros (Ha & Ht & Hc & Ho) [Htimers Hel]. split; [by apply Ht|].
  intros el. rewrite Ha. destruct (Hel el) as [?|(? & ? & ?)]; [by left | right].
  repeat split; [done | by apply Hc | by intros ?%Ho].
Qed.

Lemma quiet_uncaught (err : string) (w : World) : quiet w (log_call (Uncaught err) w).
Proof.
  repeat split; try done.
  intros el. rewrite animations_log_call. cbn. lia.
Qed.

Lemma fadeObserver_entry_quiet (entry : Entry) (w : World) :
  quiet w (exec (fadeObserver_entry entry) w).
Proof.
  unfold fadeObserver_entry, exec. destruct (isIntersecting entry); js; [|done].
  repeat split; try done.
  intros el. eapply has_class_alter; [done|].
  intros e. cbn [classList with_classList]. by apply elem_of_union_l.
Qed.

Lemma revealObserver_entry_quiet (entry : Entry) (w : World) :
  quiet w (exec (revealObserver_entry entry) w).
Proof.
  unfold revealObserver_entry, exec. destruct (isIntersecting entry); js; [|done].
  destruct (document w !! entry_target entry) as [e|]; [|done].
  destruct (truthy (getAttribute e "data-delay")); js.
  - repeat split; try done.
    intros el H.
    eapply (has_class_alter _ _ _ _
              (set_document (alter (with_style (fun st => <["--reveal-delay" := _]> st))
                               (entry_target entry)) w));
      [done | intros e'; cbn [classList with_classList]; by apply elem_of_union_l|].
    by eapply has_class_alter.
  - repeat split; try done.
    intros el. eapply has_class_alter; [done|].
    intros e'. cbn [classList with_classList]. by apply elem_of_union_l.
Qed.

Lemma Forall_filter_keep {A} (P Q : A -> Prop) `{!forall x, Decision (Q x)} (l : list A) :
  Forall P l -> Forall P (filter Q l).
Proof.
  rewrite !Forall_forall. intros HP x [_ Hx]%list_elem_of_filter. by apply HP.
Qed.

Lemma is_counter_tick_rearm (t : Timer) (ts : list Timer) :
  Forall (fun t => is_counter_tick t = true) ts ->
  Forall (fun t => is_counter_tick t = true) (rearm t ts).
Proof.
  intros H. unfold rearm. destruct (repeat t).
  - apply Forall_fmap. eapply Forall_impl; [exact H|].
    intros t' Ht'. cbn. by destruct (is_timer (timer_id t) t').
  - by apply Forall_filter_keep.
Qed.

Lemma is_counter_tick_store (id : nat) (cur : float) (ts : list Timer) :
  Forall (fun t => is_counter_tick t = true) ts ->
  Forall (fun t => is_counter_tick t = true)
    ((fun t => if is_timer id t then with_current cur t else t) <$> ts).
Proof.
  intros H. apply Forall_fmap. eapply Forall_impl; [exact H|].
  intros t Ht. cbn. destruct (is_timer id t); [|done].
  unfold with_current, is_counter_tick in *. by destruct (callback t).
Qed.

Lemma tick_quiet (id : nat) (w : World) :
  Forall (fun t => is_counter_tick t = true) (timers w) ->
  quiet w (tick id w).
Proof.
  intros Hts. unfold tick.
  destruct (find (is_timer id) (timers w)) as [t|] eqn:Hfind; [|done].
  assert (is_counter_tick t = true) as Ht.
  { apply find_some in Hfind as [Hin _].
    rewrite Forall_forall in Hts. by apply Hts, list_elem_of_In. }
  unfold is_counter_tick in Ht. unfold fire, task.
  destruct (callback t) as [el target suffix inc cur| | |]; try discriminate.
  cbn [run_callback]. unfold counterTick.
  destruct (target <=? cur + inc)%float; js.
  - repeat split; proj.
    + intros el'. unfold animations. proj.
      rewrite List.filter_app, length_app. cbn. lia.
    + intros _. by apply is_counter_tick_store, Forall_filter_keep, is_counter_tick_rearm.
    + intros el'. by eapply has_class_alter.
    + done.
  - repeat split; proj.
    + intros _. by apply is_counter_tick_store, is_counter_tick_rearm.
    + intros el'. by eapply has_class_alter.
    + done.
Qed.

Lemma counterObserver_entry_inv (entry : Entry) (w : World) :
  counters_inv w -> counters_inv (exec (counterObserver_entry entry) w).
Proof.
  intros Hinv. unfold counterObserver_entry, exec.
  destruct (isIntersecting entry); js; [|done].
  destruct (find _ (counters w)) as [counter|] eqn:Hfind; [|done].
  apply find_some in Hfind as [_ Hel%bool_decide_eq_true].
  rewrite Hel. js. set (el := entry_target entry).
  destruct (document w !! el) as [e|] eqn:He; js; [|done].
  destruct (contains e "counting") eqn:Hcounting; cbn [negb]; [done|].
  unfold animateCounter. js.
  destruct Hinv as [Hts Hinv]. split; proj.
  - apply Forall_app. split; [done|]. by repeat constructor.
  - intros el'. unfold animations. proj.
    rewrite List.filter_app, length_app. cbn [List.filter starts_animation].
    fold (animations el' w).
    destruct (Nat.eqb_spec el el') as [<-|Hne]; cbn [length].
    + right. destruct (Hinv el) as [->|(_ & (e' & He' & Hc) & _)].
      * repeat split.
        -- unfold has_class. proj. rewrite list_lookup_alter_eq, He.
           eexists. split; [done|]. cbn [classList with_classList].
           by apply elem_of_union_r, elem_of_singleton.
        -- intros [_ Hne]%elem_of_difference. by apply Hne, elem_of_singleton.
      * exfalso. assert (e' = e) as -> by congruence.
        unfold contains in Hcounting. by apply bool_decide_eq_false in Hcounting.
    + rewrite Nat.add_0_r. destruct (Hinv el') as [?|(? & ? & Hobs)]; [by left | right].
      repeat split; [done | |].
      * eapply has_class_alter; [done | | done].
        intros e'. cbn [classList with_classList]. by apply elem_of_union_l.
      * intros [? _]%elem_of_difference. by apply Hobs.
Qed.

Lemma bind_preserves {A B} (P : World -> Prop) (m : JSM A) (k : A -> JSM B) (w : World) :
  (forall w, P w -> P (exec m w)) ->
  (forall a w, P w -> P (exec (k a) w)) ->
  P w -> P (exec (m ≫= k) w).
Proof.
  intros Hm Hk Hw. unfold exec in *. unfold mbind, JSM_bind.
  specialize (Hm w Hw). destruct (m w) as [[a|err] w1]; [by apply Hk | done].
Qed.

Lemma fresh_page_inv (w : World) : fresh_page w -> counters_inv w.
Proof. intros [Ht Ha]. split; [rewrite Ht; constructor | by left]. Qed.

Lemma DOMContentLoaded_fresh (w : World) :
  fresh_page w -> fresh_page (exec DOMContentLoaded w).
Proof.
  assert (forall msg w, fresh_page w -> fresh_page (exec (console_log msg []) w)) as Hlog.
  { intros msg w1 [Ht Ha]. split; [done|]. intros el. unfold exec, console_log. js.
    rewrite animations_log_call. cbn. by rewrite Ha. }
  assert (forall set_observer,
            (forall f w, timers (set_observer f w) = timers w
                         /\ trace (set_observer f w) = trace w) ->
            forall el w, fresh_page w -> fresh_page (exec (observe set_observer el) w))
    as Hobs.
  { intros set_observer Hset el w1 [Ht Ha]. unfold exec, observe. js.
    destruct (Hset (fun targets => targets ∪ {[el]}) w1) as [Ht' Htr'].
    split; [by rewrite Ht'|]. intros el'. unfold animations in *. by rewrite Htr'. }
  unfold DOMContentLoaded. intros Hw.
  apply (bind_preserves fresh_page); [apply Hlog | intros _ | done]. clear w Hw. intros w Hw.
  apply (bind_preserves fresh_page); [| intros _ | done]; clear w Hw; intros w Hw.
  { unfold initializeCounters.
    apply (bind_preserves fresh_page); [done | | done]. clear w Hw. intros w0 w Hw. cbv zeta.
    apply (bind_preserves fresh_page); [by intros w1 [? ?] | intros _ | done]. clear w Hw. intros w Hw.
    apply (forEach_preserves fresh_page); [|done]. intros c w1 Hw1.
    destruct (counter_element c); [by apply Hobs | done]. }
  apply (bind_preserves fresh_page); [| intros _ | done]; clear w Hw; intros w Hw.
  { unfold initializeScrollEffects.
    apply (bind_preserves fresh_page); [done | | done]. clear w Hw. intros w0 w Hw. cbv zeta.
    apply (forEach_preserves fresh_page); [|done]. intros c w1 Hw1. by apply Hobs. }
  apply (bind_preserves fresh_page); [done | intros _ | done]. clear w Hw. intros w Hw.
  apply (bind_preserves fresh_page); [done | intros _ | done]. clear w Hw. intros w Hw.
  apply (bind_preserves fresh_page); [| intros _ | done]; clear w Hw; intros w Hw; [|by apply Hlog].
  unfold initializeRevealAnimations.
  apply (bind_preserves fresh_page); [done | | done]. clear w Hw. intros w0 w Hw. cbv zeta.
  destruct (querySelectorAll _ _); [done|].
  apply (forEach_preserves fresh_page); [|done]. intros c w1 Hw1. by apply Hobs.
Qed.

Lemma intersect_inv (entries : list Entry) (w : World) :
  counters_inv w -> counters_inv (intersect entries w).
Proof.
  intros Hw. unfold intersect.
  assert (forall err w, counters_inv w -> counters_inv (log_call (Uncaught err) w)) as Herr.
  { intros err w1. apply counters_inv_quiet, quiet_uncaught. }
  apply (task_preserves counters_inv); [| done |].
  { intros w1 Hw1. apply (forEach_preserves counters_inv); [|done].
    intros entry w2. apply counters_inv_quiet, revealObserver_entry_quiet. }
  apply (task_preserves counters_inv); [| done |].
  { intros w1 Hw1. apply (forEach_preserves counters_inv); [|done].
    intros entry w2. apply counters_inv_quiet, fadeObserver_entry_quiet. }
  apply (task_preserves counters_inv); [| done | done].
  intros w1 Hw1. apply (forEach_preserves counters_inv); [|done].
  intros entry w2. apply counterObserver_entry_inv.
Qed.

Lemma run_inv (events : list Event) (w : World) :
  counters_inv w -> counters_inv (run events w).
Proof.
  revert w. induction events as [|ev events IH]; intros w Hw; [done|].
  cbn [run fold_left]. apply IH. destruct ev as [entries|timer]; cbn [step].
  - by apply intersect_inv.
  - eapply counters_inv_quiet; [|done]. apply tick_quiet, Hw.
Qed.

(** C8: from page load on, whatever intersections the browser reports and
    whichever timers fire, the animation of an element is started at most
    once; once it has been started the element carries the guard class
    "counting" and the counter observer no longer watches it. *)
Theorem counter_animates_at_most_once (w0 : World) (events : list Event) (el : node) :
  timers w0 = [] ->
  trace w0 = [] ->
  let w := run events (exec DOMContentLoaded w0) in
  (animations el w <= 1)%nat
  /\ (animations el w = 1%nat -> has_class el "counting" w /\ el ∉ counterObserver w).
Proof.
  intros Ht Htr w.
  assert (counters_inv w) as [_ Hinv].
  { apply run_inv, fresh_page_inv, DOMContentLoaded_fresh. split; [done|].
    intros el'. unfold animations. by rewrite Htr. }
  destruct (Hinv el) as [->|(-> & ? & ?)]; split; [lia | done | lia | done].
Qed.

Lemma counter_animates_at_most_once_witness :
  let events :=
    [ Intersect [mkEntry 7 true]; Tick 0; Intersect [mkEntry 7 false];
      Intersect [mkEntry 7 true; mkEntry 7 true]; Tick 0 ] in
  let w := run events (exec DOMContentLoaded (Demo.world "Ada")) in
  (animations 7 w <= 1)%nat
  /\ (animations 7 w = 1%nat -> has_class 7 "counting" w /\ 7%nat ∉ counterObserver w).
Proof.
  intros events.
  apply (counter_animates_at_most_once (Demo.world "Ada") events 7); reflexivity.
Defined.

(** On the example page the animation of #program-count does start, once,
    however often the element is reported afterwards. *)
Example program_count_animates_once :
  let events :=
    [ Intersect [mkEntry 7 true]; Tick 0; Intersect [mkEntry 7 false];
      Intersect [mkEntry 7 true; mkEntry 7 true]; Tick 0 ] in
  let w := run events (exec DOMContentLoaded (Demo.world "Ada")) in
  animations 7 w = 1%nat
  /\ textContent <$> document w !! 7%nat = Some "6+".
Proof. vm_compute. split; reflexivity. Qed.

(** *** The fade and the reveal observer *)

Lemma extends_refl (w : World) : extends w w.
Proof. by repeat split. Qed.

Lemma extends_trans (w1 w2 w3 : World) : extends w1 w2 -> extends w2 w3 -> extends w1 w3.
Proof.
  intros (He & Hc & Hr & Hf) (He' & Hc' & Hr' & Hf'). repeat split.
  - intros n ?. by apply He', He.
  - intros el token ?. by apply Hc', Hc.
  - by etrans.
  - by rewrite Hf'.
Qed.

Lemma extends_alter (f : Element -> Element) (n : node) (w w' : World) :
  document w' = alter f n (document w) ->
  (forall e, classList e ⊆ classList (f e)) ->
  revealObserver w' ⊆ revealObserver w ->
  fadeObserver w' = fadeObserver w ->
  extends w w'.
Proof.
  intros Hd Hf Hr Hfade. repeat split; [| |done|done].
  - intros m [e He]. rewrite Hd. destruct (decide (n = m)) as [->|Hne].
    + rewrite list_lookup_alter_eq, He. by eexists.
    + rewrite list_lookup_alter_ne by done. by eexists.
  - intros el token. eapply has_class_alter; [done|]. intros e. apply Hf.
Qed.

Lemma extends_uncaught (err : string) (w : World) : extends w (log_call (Uncaught err) w).
Proof. by repeat split. Qed.

Lemma counterObserver_entry_extends (entry : Entry) (w : World) :
  extends w (exec (counterObserver_entry entry) w)
  /\ revealObserver (exec (counterObserver_entry entry) w) = revealObserver w.
Proof.
  unfold counterObserver_entry, exec.
  destruct (isIntersecting entry); js; [|by split; [apply extends_refl|]].
  destruct (find _ (counters w)) as [counter|]; [|by split; [apply extends_refl|]].
  destruct (counter_element counter) as [el|]; js; [|by split; [apply extends_refl|]].
  destruct (document w !! el) as [e|] eqn:He; js; [|by split; [apply extends_refl|]].
  destruct (contains e "counting"); cbn [negb]; [by split; [apply extends_refl|]|].
  unfold animateCounter. js. split; [|done].
  eapply extends_alter; [done | | done | done].
  intros e'. cbn [classList with_classList]. apply union_subseteq_l.
Qed.

Lemma fadeObserver_entry_extends (entry : Entry) (w : World) :
  extends w (exec (fadeObserver_entry entry) w)
  /\ revealObserver (exec (fadeObserver_entry entry) w) = revealObserver w.
Proof.
  unfold fadeObserver_entry, exec.
  destruct (isIntersecting entry); js; [|by split; [apply extends_refl|]].
  split; [|done]. eapply extends_alter; [done | | done | done].
  intros e'. cbn [classList with_classList]. apply union_subseteq_l.
Qed.

Lemma revealObserver_entry_extends (entry : Entry) (w : World) :
  extends w (exec (revealObserver_entry entry) w).
Proof.
  unfold revealObserver_entry, exec.
  destruct (isIntersecting entry); js; [|apply extends_refl].
  destruct (document w !! entry_target entry) as [e|]; [|apply extends_refl].
  assert (forall w0 : World, extends w w0 ->
    extends w (set_revealObserver (fun targets => targets ∖ {[entry_target entry]})
      (set_document
         (alter (with_classList (fun c => c ∪ {["visible"]})) (entry_target entry)) w0)))
    as Hrest.
  { intros w0 Hw0. eapply extends_trans; [exact Hw0|].
    eapply extends_alter; [done | | | done].
    - intros e'. cbn [classList with_classList]. apply union_subseteq_l.
    - proj. apply subseteq_difference_l. done. }
  destruct (truthy (getAttribute e "data-delay")); js.
  - apply Hrest. by eapply extends_alter.
  - apply Hrest, extends_refl.
Qed.

Lemma fadeObserver_entry_shown (entry : Entry) (w : World) :
  is_Some (document w !! entry_target entry) ->
  shown entry (exec (fadeObserver_entry entry) w).
Proof.
  intros [e He] Hint. unfold fadeObserver_entry, exec. rewrite Hint. js.
  unfold has_class. proj. rewrite list_lookup_alter_eq, He.
  eexists. split; [done|]. cbn [classList with_classList].
  by apply elem_of_union_r, elem_of_singleton.
Qed.

Lemma revealObserver_entry_revealed (entry : Entry) (w : World) :
  is_Some (document w !! entry_target entry) ->
  exists w', revealObserver_entry entry w = (Normal tt, w') /\ revealed entry w'.
Proof.
  intros [e He]. unfold revealObserver_entry, revealed.
  destruct (isIntersecting entry); js; [|by eexists].
  rewrite He.
  destruct (truthy (getAttribute e "data-delay")); js;
    (eexists; split; [done|]; intros _; split;
     [ unfold has_class; proj
     | proj; intros [_ Hne]%elem_of_difference; by apply Hne, elem_of_singleton ]).
  - rewrite list_lookup_alter_eq, list_lookup_alter_eq, He.
    eexists. split; [done|]. cbn [classList with_classList with_style].
    by apply elem_of_union_r, elem_of_singleton.
  - rewrite list_lookup_alter_eq, He.
    eexists. split; [done|]. cbn [classList with_classList].
    by apply elem_of_union_r, elem_of_singleton.
Qed.

(** *** Properties every statement of a callback preserves *)

Section Stable.

Context (P : World -> Prop).

Lemma stable_bind {A B} (m : JSM A) (k : A -> JSM B) :
  stable P m -> (forall a, stable P (k a)) -> stable P (m ≫= k).
Proof. intros Hm Hk w Hw. apply (bind_preserves P); [exact Hm | exact Hk | exact Hw]. Qed.

Lemma stable_ret {A} (a : A) : stable P (mret a).
Proof. by intros w. Qed.

Lemma stable_get : stable P get.
Proof. by intros w. Qed.

Lemma stable_throw {A} (err : string) : stable P (@throw A err).
Proof. by intros w. Qed.

Lemma stable_deref {A} (o : option A) : stable P (deref o).
Proof. destruct o; by intros w. Qed.

Lemma stable_modify (f : World -> World) :
  (forall w, P w -> P (f w)) -> stable P (modify f).
Proof. intros Hf w Hw. by apply Hf. Qed.

Lemma stable_forEach {A} (l : list A) (f : A -> JSM unit) :
  (forall x, stable P (f x)) -> stable P (forEach l f).
Proof. intros Hf w Hw. apply (forEach_preserves P); [intros x; apply Hf | done]. Qed.

Lemma stable_task (m : JSM unit) (w : World) :
  stable P m -> (forall err w, P w -> P (log_call (Uncaught err) w)) ->
  P w -> P (task m w).
Proof. intros Hm Herr Hw. by apply (task_preserves P). Qed.

End Stable.

(** Decompose a statement of the script into its primitive writes;
    [leaf] proves that a write preserves the property. *)
Ltac stable_steps leaf :=
  repeat first
    [ apply stable_ret | apply stable_get | apply stable_throw | apply stable_deref
    | apply stable_bind; [|intros ?]
    | apply stable_forEach; intros ?
    | apply stable_modify; leaf
    | match goal with
      | |- stable _ (match ?x with _ => _ end) => destruct x
      end
    | progress unfold counterTick, applicationDone, hideSuccess, infoRequestDone,
        showSuccessMessage, form_reset, Modal_getInstance, trackEvent, appendChild,
        element, update, byId, classList_add, classList_remove, classList_contains,
        set_textContent, set_innerHTML, set_disabled, setProperty, value_of,
        console_log, host, schedule, setTimeout, setInterval, clearInterval,
        store_current ].

Lemma run_callback_observers (id : nat) (h : Callback) (R F : gset node) :
  stable (fun w => revealObserver w = R /\ fadeObserver w = F) (run_callback id h).
Proof.
  destruct h; cbn [run_callback]; stable_steps ltac:(by intros ? [? ?]).
Qed.

Lemma revealed_extends (entry : Entry) (w w' : World) :
  extends w w' -> revealed entry w -> revealed entry w'.
Proof.
  intros (_ & Hc & Hr & _) Hrev Hint. destruct (Hrev Hint) as [Hvis Hobs].
  split; [by apply Hc | by intros ?%Hr].
Qed.

Lemma shown_extends (entry : Entry) (w w' : World) :
  extends w w' -> shown entry w -> shown entry w'.
Proof. intros (_ & Hc & _) Hs Hint. by apply Hc, Hs. Qed.

Lemma revealObserver_callback_revealed (l : list Entry) (w : World) :
  (forall entry, entry ∈ l -> is_Some (document w !! entry_target entry)) ->
  exists w', revealObserver_callback l w = (Normal tt, w')
    /\ extends w w' /\ forall entry, entry ∈ l -> revealed entry w'.
Proof.
  unfold revealObserver_callback.
  revert w. induction l as [|x l IH]; intros w Hl.
  - exists w. split; [done|]. split; [apply extends_refl|]. by intros entry ?%elem_of_nil.
  - destruct (revealObserver_entry_revealed x w) as (w1 & Hx & Hrev);
      [apply Hl, list_elem_of_here|].
    assert (extends w w1) as Hext.
    { pose proof (revealObserver_entry_extends x w) as H. unfold exec in H.
      by rewrite Hx in H. }
    destruct (IH w1) as (w' & Hrest & Hext' & Hall).
    { intros entry Hentry. apply Hext, Hl. by apply list_elem_of_further. }
    exists w'. cbn [forEach]. unfold mbind, JSM_bind. rewrite Hx.
    split; [done|]. split; [by eapply extends_trans|].
    intros entry [->|Hentry]%elem_of_cons; [by eapply revealed_extends | by apply Hall].
Qed.

Lemma fadeObserver_callback_shown (l : list Entry) (w : World) :
  (forall entry, entry ∈ l -> is_Some (document w !! entry_target entry)) ->
  let w' := exec (fadeObserver_callback l) w in
  extends w w' /\ revealObserver w' = revealObserver w
  /\ forall entry, entry ∈ l -> shown entry w'.
Proof.
  unfold fadeObserver_callback, exec.
  revert w. induction l as [|x l IH]; intros w Hl.
  - split; [apply extends_refl|]. split; [done|]. by intros entry ?%elem_of_nil.
  - cbn [forEach]. unfold mbind, JSM_bind.
    destruct (fadeObserver_entry_extends x w) as [Hext Hr].
    pose proof (fadeObserver_entry_shown x w (Hl x (list_elem_of_here _ _))) as Hx.
    unfold exec in Hext, Hr, Hx.
    assert (exists u w1, fadeObserver_entry x w = (Normal u, w1)) as (u & w1 & Hrun).
    { unfold fadeObserver_entry. destruct (isIntersecting x); by eexists _, _. }
    rewrite Hrun in *. cbn [snd] in *.
    destruct (IH w1) as (Hext' & Hr' & Hall).
    { intros entry Hentry. apply Hext, Hl. by apply list_elem_of_further. }
    split; [by eapply extends_trans|]. split; [by rewrite Hr'|].
    intros entry [->|Hentry]%elem_of_cons; [by eapply shown_extends | by apply Hall].
Qed.

Lemma counterObserver_callback_extends (l : list Entry) (w : World) :
  let w' := task (counterObserver_callback l) w in
  extends w w' /\ revealObserver w' = revealObserver w.
Proof.
  apply (stable_task (fun w' => extends w w' /\ revealObserver w' = revealObserver w)).
  - apply stable_forEach. intros entry w1 [Hext Hr].
    destruct (counterObserver_entry_extends entry w1) as [Hext' Hr'].
    split; [by eapply extends_trans | by rewrite Hr'].
  - intros err w1 [Hext Hr]. split; [|done].
    eapply extends_trans; [exact Hext | apply extends_uncaught].
  - split; [apply extends_refl | done].
Qed.

Lemma elem_of_watched (targets : gset node) (entries : list Entry) (entry : Entry) :
  entry ∈ watched targets entries <-> entry_target entry ∈ targets /\ entry ∈ entries.
Proof. unfold watched. by rewrite list_elem_of_filter. Qed.

(** What one report of intersections does for an intersecting entry. *)
Lemma intersect_entry (entries : list Entry) (el : node) (w : World) :
  (forall entry, entry ∈ entries -> is_Some (document w !! entry_target entry)) ->
  mkEntry el true ∈ entries ->
  let w' := intersect entries w in
  (el ∈ revealObserver w -> has_class el "visible" w' /\ el ∉ revealObserver w')
  /\ (el ∈ fadeObserver w -> has_class el "show" w' /\ el ∈ fadeObserver w').
Proof.
  intros Hentries Hel. unfold intersect.
  destruct (counterObserver_callback_extends (watched (counterObserver w) entries) w)
    as [Hext1 Hr1].
  set (w1 := task (counterObserver_callback (watched (counterObserver w) entries)) w) in *.
  destruct (fadeObserver_callback_shown (watched (fadeObserver w1) entries) w1)
    as (Hext2 & Hr2 & Hshown).
  { intros entry [_ Hentry]%elem_of_watched. by apply Hext1, Hentries. }
  assert (task (fadeObserver_callback (watched (fadeObserver w1) entries)) w1
          = exec (fadeObserver_callback (watched (fadeObserver w1) entries)) w1) as Htask.
  { unfold task, exec, fadeObserver_callback.
    generalize (watched (fadeObserver w1) entries). intros l. generalize w1.
    induction l as [|x l IH]; intros w0; [done|].
    cbn [forEach]. unfold mbind, JSM_bind, fadeObserver_entry.
    destruct (isIntersecting x); js; apply IH. }
  rewrite Htask.
  set (w2 := exec (fadeObserver_callback (watched (fadeObserver w1) entries)) w1) in *.
  destruct (revealObserver_callback_revealed (watched (revealObserver w2) entries) w2)
    as (w3 & Hrun & Hext3 & Hrevealed).
  { intros entry [_ Hentry]%elem_of_watched. by apply Hext2, Hext1, Hentries. }
  unfold task. rewrite Hrun.
  assert (fadeObserver w1 = fadeObserver w) as Hf1 by apply Hext1.
  assert (fadeObserver w2 = fadeObserver w1) as Hf2 by apply Hext2.
  assert (fadeObserver w3 = fadeObserver w2) as Hf3 by apply Hext3.
  split.
  - intros Hobs. apply (Hrevealed (mkEntry el true)); [|done].
    apply elem_of_watched. split; [|done]. cbn. by rewrite Hr2, Hr1.
  - intros Hobs. split; [|by rewrite Hf3, Hf2, Hf1].
    destruct Hext3 as (_ & Hc & _). apply Hc.
    apply (Hshown (mkEntry el true)); [|done].
    apply elem_of_watched. split; [|done]. cbn. by rewrite Hf1.
Qed.

Lemma step_observers (ev : Event) (w : World) :
  revealObserver (step ev w) ⊆ revealObserver w
  /\ fadeObserver (step ev w) = fadeObserver w.
Proof.
  destruct ev as [entries|timer]; cbn [step].
  - unfold intersect.
    set (P := fun w' => revealObserver w' ⊆ revealObserver w
                        /\ fadeObserver w' = fadeObserver w).
    assert (forall err w', P w' -> P (log_call (Uncaught err) w')) as Herr by done.
    assert (forall w1 w2, P w1 -> extends w1 w2 -> P w2) as Hext.
    { intros w1 w2 [Hr Hf] (_ & _ & Hr' & Hf'). split; [by etrans | by rewrite Hf']. }
    apply (stable_task P); [| done |].
    { apply stable_forEach. intros entry w1 Hw1.
      eapply Hext; [done | apply revealObserver_entry_extends]. }
    apply (stable_task P); [| done |].
    { apply stable_forEach. intros entry w1 Hw1.
      eapply Hext; [done | apply fadeObserver_entry_extends]. }
    apply (stable_task P); [| done | done].
    apply stable_forEach. intros entry w1 Hw1.
    eapply Hext; [done | apply counterObserver_entry_extends].
  - unfold tick. destruct (find _ _) as [t|]; [|done]. unfold fire.
    assert (forall w', revealObserver w' = revealObserver w /\ fadeObserver w' = fadeObserver w
                       -> revealObserver w' ⊆ revealObserver w
                          /\ fadeObserver w' = fadeObserver w) as Hweak.
    { by intros w' [-> ->]. }
    apply Hweak, stable_task; [apply run_callback_observers | done | done].
Qed.

Lemma run_observers (events : list Event) (w : World) :
  revealObserver (run events w) ⊆ revealObserver w
  /\ fadeObserver (run events w) = fadeObserver w.
Proof.
  revert w. induction events as [|ev events IH]; intros w; [done|].
  cbn [run fold_left]. destruct (IH (step ev w)) as [Hr Hf].
  destruct (step_observers ev w) as [Hr' Hf']. split; [by etrans | by rewrite <- Hf'].
Qed.

(** C5, as the code has it.  When the browser reports an intersecting
    entry for an element, the reveal observer adds "visible" and stops
    watching the element, for good; the fade observer adds "show" and keeps
    watching the element, whatever is reported or fires later. *)
Theorem reveal_one_shot_fade_persistent
    (w : World) (entries : list Entry) (el : node) (later : list Event) :
  (forall entry, entry ∈ entries -> is_Some (document w !! entry_target entry)) ->
  mkEntry el true ∈ entries ->
  let w' := intersect entries w in
  (el ∈ revealObserver w ->
     has_class el "visible" w' /\ el ∉ revealObserver (run later w'))
  /\ (el ∈ fadeObserver w ->
        has_class el "show" w' /\ el ∈ fadeObserver (run later w')).
Proof.
  intros Hentries Hel w'.
  destruct (intersect_entry entries el w Hentries Hel) as [Hreveal Hfade].
  destruct (run_observers later w') as [Hr Hf]. split.
  - intros Hobs. destruct (Hreveal Hobs) as [Hvis Hgone].
    split; [done | by intros ?%Hr].
  - intros Hobs. destruct (Hfade Hobs) as [Hshow Hkept].
    split; [done | by rewrite Hf].
Qed.

Lemma reveal_one_shot_fade_persistent_witness :
  let entries := [mkEntry 10 true; mkEntry 11 true] in
  let later := [Intersect [mkEntry 11 false]; Intersect [mkEntry 11 true; mkEntry 10 true]] in
  let w' := intersect entries Demo.loaded in
  (11%nat ∈ revealObserver Demo.loaded ->
     has_class 11 "visible" w' /\ 11%nat ∉ revealObserver (run later w'))
  /\ (11%nat ∈ fadeObserver Demo.loaded ->
        has_class 11 "show" w' /\ 11%nat ∈ fadeObserver (run later w')).
Proof.
  intros entries later.
  apply (reveal_one_shot_fade_persistent Demo.loaded entries 11 later).
  - intros entry Hentry. apply list_elem_of_In in Hentry.
    destruct Hentry as [<-|[<-|[]]]; vm_compute; eexists; reflexivity.
  - apply list_elem_of_In. vm_compute. auto.
Defined.

(** C5 as stated fails for the fade observer: after the intersection that
    adds "show" to the fade-in element of the example page, the element is
    still a target of the fade observer, which is handed the next report
    for it as well. *)
Lemma fade_observer_counterexample :
  let w' := intersect [mkEntry 10 true] Demo.loaded in
  (fun e => contains e "show") <$> document Demo.loaded !! 10%nat = Some false
  /\ (fun e => contains e "show") <$> document w' !! 10%nat = Some true
  /\ elements (fadeObserver w') = [10%nat]
  /\ watched (fadeObserver w') [mkEntry 10 true] = [mkEntry 10 true].
Proof. vm_compute. repeat split; reflexivity. Qed.

(** ** The forms *)

Lemma first_from_alter (P : Element -> bool) (f : Element -> Element) (n k : nat)
    (d : list Element) :
  (forall e, P (f e) = P e) ->
  first_from P k (alter f n d) = first_from P k d.
Proof.
  intros HP. revert n k. induction d as [|x d IH]; intros n k; [done|].
  destruct n as [|n]; cbn [alter list_alter first_from].
  - by rewrite HP.
  - fold (alter f n d). by rewrite IH.
Qed.

Lemma first_from_fmap (P : Element -> bool) (f : Element -> Element) (k : nat)
    (d : list Element) :
  (forall e, P (f e) = P e) ->
  first_from P k (f <$> d) = first_from P k d.
Proof.
  intros HP. revert k. induction d as [|x d IH]; intros k; [done|].
  cbn [fmap list_fmap first_from]. fold (f <$> d). by rewrite HP, IH.
Qed.

Lemma first_from_app (P : Element -> bool) (k n : nat) (d d' : list Element) :
  first_from P k d = Some n -> first_from P k (d ++ d') = Some n.
Proof.
  revert k. induction d as [|x d IH]; intros k; [done|].
  cbn [app first_from]. destruct (P x); [done | apply IH].
Qed.

Lemma first_from_Some (P : Element -> bool) (k n : nat) (d : list Element) :
  first_from P k d = Some n ->
  (k <= n)%nat /\ exists e, d !! (n - k)%nat = Some e /\ P e = true.
Proof.
  revert k. induction d as [|x d IH]; intros k; [done|].
  cbn [first_from]. destruct (P x) eqn:HP.
  - intros [= <-]. split; [lia|]. exists x. by rewrite Nat.sub_diag.
  - intros (Hle & e & He & HPe)%IH. split; [lia|]. exists e. split; [|done].
    replace (n - k)%nat with (S (n - S k)) by lia. done.
Qed.

Lemma getElementById_Some (d : list Element) (i : string) (n : node) :
  getElementById d i = Some n -> is_Some (d !! n).
Proof.
  intros (_ & e & He & _)%first_from_Some. rewrite Nat.sub_0_r in He. by eexists.
Qed.

Lemma value_of_eq (i : string) (n : node) (e : Element) (w : World) :
  getElementById (document w) i = Some n ->
  document w !! n = Some e ->
  value_of i w = (Normal (value e), w).
Proof. intros Hn He. unfold value_of. js. by rewrite Hn, He. Qed.

(** Reading a field after the two writes to the submit button. *)
Lemma value_of_button (i : string) (n btn : node) (e : Element) (c : Content) (b : bool)
    (w : World) :
  getElementById (document w) i = Some n ->
  document w !! n = Some e ->
  let w' := set_document (alter (with_disabled b) btn)
              (set_document (alter (with_content c) btn) w) in
  value_of i w' = (Normal (value e), w').
Proof.
  intros Hn He w'.
  destruct (decide (btn = n)) as [->|Hne].
  - apply (value_of_eq i n (with_disabled b (with_content c e))).
    + unfold w'. proj. unfold getElementById. by rewrite !first_from_alter.
    + unfold w'. proj. by rewrite !list_lookup_alter_eq, He.
  - apply (value_of_eq i n e).
    + unfold w'. proj. unfold getElementById. by rewrite !first_from_alter.
    + unfold w'. proj. by rewrite !list_lookup_alter_ne.
Qed.

Section Application.

Context (w : World) (submitButton f n1 n2 n3 n4 n5 : node)
  (b e1 e2 e3 e4 e5 : Element).

Hypothesis Hform : getElementById (document w) "applicationForm" = Some f.
Hypothesis Hvalid : form_checkValidity (document w) f = true.
Hypothesis Hbutton : document w !! submitButton = Some b.
Hypothesis Hn1 : getElementById (document w) "firstName" = Some n1.
Hypothesis Hn2 : getElementById (document w) "lastName" = Some n2.
Hypothesis Hn3 : getElementById (document w) "email" = Some n3.
Hypothesis Hn4 : getElementById (document w) "program" = Some n4.
Hypothesis Hn5 : getElementById (document w) "startDate" = Some n5.
Hypothesis He1 : document w !! n1 = Some e1.
Hypothesis He2 : document w !! n2 = Some e2.
Hypothesis He3 : document w !! n3 = Some e3.
Hypothesis He4 : document w !! n4 = Some e4.
Hypothesis He5 : document w !! n5 = Some e5.

(** What a valid [submitApplication] leaves behind: the button disabled
    and showing the loading indicator, and one timeout, 2000 ms ahead,
    holding the values the fields had. *)
Lemma submitApplication_valid :
  let formData :=
    FormData.mk (value e1) (value e2) (value e3) (value e4) (value e5) (now w) in
  let handler := ApplicationDone f submitButton (textContent b) formData in
  submitApplication submitButton w
  = (Normal tt,
     mkWorld
       (alter (with_disabled true) submitButton
          (alter (with_content (HTML (loading "Submitting..."))) submitButton (document w)))
       (now w)
       (timers w ++ [mkTimer (next_timer w) (now w + 2000) None handler])
       (S (next_timer w))
       (trace w ++ [SetTimeout (next_timer w) handler 2000])
       (scrollY w) (innerHeight w) (counters w) (counterObserver w)
       (fadeObserver w) (revealObserver w) (modals w)).
Proof.
  intros formData handler. unfold submitApplication. js'.
  rewrite Hform. js'. rewrite Hvalid. cbn [negb]. js'. rewrite Hbutton. js'.
  rewrite (value_of_button "firstName" n1 submitButton e1) by done. js'.
  rewrite (value_of_button "lastName" n2 submitButton e2) by done. js'.
  rewrite (value_of_button "email" n3 submitButton e3) by done. js'.
  rewrite (value_of_button "program" n4 submitButton e4) by done. js'.
  rewrite (value_of_button "startDate" n5 submitButton e5) by done. js'.
  reflexivity.
Qed.

End Application.

Lemma showSuccessMessage_eq (message : string) (s : node) (d' : list Element) (w : World) :
  success_container (document w) = Some (s, d') ->
  showSuccessMessage message w
  = (Normal tt,
     mkWorld
       (alter (with_style (fun st => <["display" := "block"]> st)) s
          (alter (with_content (Text message)) s d'))
       (now w)
       (timers w ++ [mkTimer (next_timer w) (now w + 5000) None (HideSuccess s)])
       (S (next_timer w))
       (trace w ++ [SetTimeout (next_timer w) (HideSuccess s) 5000])
       (scrollY w) (innerHeight w) (counters w) (counterObserver w)
       (fadeObserver w) (revealObserver w) (modals w)).
Proof.
  unfold success_container, showSuccessMessage. js.
  destruct (first_from (fun e => contains e "success-message") 0 (document w)) as [n|].
  - intros [= <- <-]. by destruct w.
  - destruct (first_from (fun e => (localName e =? "body")%string) 0 (document w)) as [body|];
      [|done].
    intros [= <- <-]. unfold appendChild. js. by destruct w.
Qed.

Lemma success_container_byId (d d' : list Element) (s m : node) (i : string) :
  success_container d = Some (s, d') ->
  getElementById d i = Some m -> getElementById d' i = Some m.
Proof.
  unfold success_container.
  destruct (first_from _ 0 d); [by intros [= <- <-]|].
  destruct (first_from _ 0 d); [|done].
  intros [= <- <-]. apply first_from_app.
Qed.

Lemma applicationDone_eq (f submitButton s m : node) (originalText : string)
    (formData : FormData.t) (d' : list Element) (w : World) :
  success_container (document w) = Some (s, d') ->
  getElementById (document w) "applicationModal" = Some m ->
  m ∈ modals w ->
  applicationDone f submitButton originalText formData w
  = (Normal tt,
     mkWorld
       (alter (with_disabled false) submitButton
          (alter (with_content (HTML originalText)) submitButton
             (reset_control f <$>
                alter (with_style (fun st => <["display" := "block"]> st)) s
                  (alter (with_content (Text application_success)) s d'))))
       (now w)
       (timers w ++ [mkTimer (next_timer w) (now w + 5000) None (HideSuccess s)])
       (S (next_timer w))
       (trace w ++
          [ ConsoleLog "Application submitted:" [FormDataObject formData];
            SetTimeout (next_timer w) (HideSuccess s) 5000;
            ModalHide m;
            ConsoleLog "Event tracked: application_submitted"
              [StringData (FormData.program formData)] ])
       (scrollY w) (innerHeight w) (counters w) (counterObserver w)
       (fadeObserver w) (revealObserver w) (modals w)).
Proof.
  intros Hs Hm Hmodal. destruct w as [d nw ts nt tr sy ih cs co fo ro ms].
  cbn [document modals] in Hs, Hm, Hmodal. proj.
  unfold applicationDone, trackEvent, form_reset, Modal_getInstance.
  unfold mbind at 1, JSM_bind at 1, console_log at 1.
  cbv beta iota delta [host modify log_call]. proj.
  unfold mbind at 1, JSM_bind at 1.
  rewrite (showSuccessMessage_eq _ s d') by done. proj.
  js. unfold set_document, log_call. proj.
  unfold getElementById. rewrite first_from_fmap, !first_from_alter; try done.
  - fold (getElementById d' "applicationModal").
    rewrite (success_container_byId _ _ _ _ _ Hs Hm).
    rewrite bool_decide_eq_true_2 by done.
    flat. by rewrite <- !app_assoc.
  - intros e. unfold reset_control. by destruct (owned_by f e).
Qed.

Lemma success_container_alter (f : Element -> Element) (n s : node) (d d' : list Element) :
  (forall e, classList (f e) = classList e) ->
  (forall e, localName (f e) = localName e) ->
  is_Some (d !! n) ->
  success_container d = Some (s, d') ->
  success_container (alter f n d) = Some (s, alter f n d').
Proof.
  intros Hc Hl Hn. unfold success_container.
  rewrite !first_from_alter, length_alter.
  - destruct (first_from _ 0 d); [by intros [= <- <-]|].
    destruct (first_from _ 0 d); [|done].
    intros [= <- <-]. rewrite alter_app_l; [done|]. by apply lookup_lt_is_Some.
  - intros e. by rewrite Hl.
  - intros e. unfold contains. by rewrite Hc.
Qed.

Lemma success_container_fresh (d d' : list Element) (s n : node) (e : Element) :
  success_container d = Some (s, d') ->
  d !! n = Some e -> contains e "success-message" = false ->
  s <> n /\ d' !! n = Some e
  /\ exists x, d' !! s = Some x /\ contains x "success-message" = true.
Proof.
  unfold success_container. intros Hs Hn He.
  destruct (first_from _ 0 d) as [k|] eqn:Hk.
  - injection Hs as <- <-. apply first_from_Some in Hk as (_ & x & Hx & Hc).
    rewrite Nat.sub_0_r in Hx. split; [|split; [done | by exists x]].
    intros ->. congruence.
  - destruct (first_from (fun e => (localName e =? "body")%string) 0 d); [|done].
    injection Hs as <- <-.
    pose proof (lookup_lt_Some _ _ _ Hn). split; [|split].
    + lia.
    + by rewrite lookup_app_l.
    + rewrite lookup_app_r, Nat.sub_diag by done. eexists. split; [done|].
      apply bool_decide_eq_true. cbn. by apply elem_of_singleton.
Qed.

Lemma next_due_singleton (t : Timer) : next_due [t] = Some t.
Proof. reflexivity. Qed.

Lemma rearm_one_shot (t : Timer) : repeat t = None -> rearm t [t] = [].
Proof.
  intros H. unfold rearm. rewrite H, filter_cons.
  rewrite decide_False; [done|]. unfold is_timer. by rewrite Nat.eqb_refl.
Qed.

Lemma application_ready_container w submitButton b f m formData :
  application_ready w submitButton b f m formData ->
  exists s d', success_container (document w) = Some (s, d').
Proof.
  intros (_ & _ & _ & _ & _ & _ & _ & _ & _ & _ & [body Hbody] & _).
  unfold success_container.
  destruct (first_from (fun e => contains e "success-message") 0 (document w));
    [by eexists _, _|].
  cbv zeta in Hbody. rewrite Hbody. by eexists _, _.
Qed.

(** Once the clock may pass the 2000 ms of a valid submission, the timeout
    runs first. *)
Lemma submitApplication_fires w submitButton b f m formData s d' fuel deadline :
  application_ready w submitButton b f m formData ->
  success_container (document w) = Some (s, d') ->
  now w + 2000 <= deadline ->
  run_until (S fuel) deadline (exec (submitApplication submitButton) w)
  = run_until fuel deadline (submitted_world w f submitButton s m b formData d').
Proof.
  intros (Hf & Hvalid & Hb & Hnot & (n1 & e1 & Hn1 & He1 & Hv1) & (n2 & e2 & Hn2 & He2 & Hv2)
          & (n3 & e3 & Hn3 & He3 & Hv3) & (n4 & e4 & Hn4 & He4 & Hv4)
          & (n5 & e5 & Hn5 & He5 & Hv5) & Hat & Hbody & Hm & Hmodal & Htimers) Hs Hdl.
  unfold exec.
  rewrite (submitApplication_valid w submitButton f n1 n2 n3 n4 n5 b e1 e2 e3 e4 e5)
    by done.
  rewrite Hv1, Hv2, Hv3, Hv4, Hv5, Htimers.
  replace (FormData.mk _ _ _ _ _ _) with formData
    by (destruct formData; cbn in Hat; by subst).
  cbn [snd app run_until]. proj. rewrite next_due_singleton. cbn [due].
  rewrite (proj2 (Z.leb_le _ _)) by done. unfold fire, set_timers, set_now. proj.
  cbn [timer_id due callback run_callback].
  rewrite rearm_one_shot by done. unfold task.
  erewrite applicationDone_eq; cycle 1.
  - proj. apply success_container_alter; [done | done | |].
    + rewrite list_lookup_alter_eq, Hb. by eexists.
    + apply success_container_alter; [done | done | by eexists | exact Hs].
  - proj. unfold getElementById. by rewrite !first_from_alter.
  - done.
  - proj. rewrite Z.max_r by lia. cbn [app]. rewrite <- app_assoc. cbn [app].
    reflexivity.
Qed.

(** Between the submission's timeout and the hiding of the message
    nothing runs. *)
Lemma submitted_world_waits w submitButton b f m formData s d' fuel deadline :
  deadline < now w + 2000 + 5000 ->
  let w2 := submitted_world w f submitButton s m b formData d' in
  document (run_until fuel deadline w2) = document w2
  /\ trace (run_until fuel deadline w2) = trace w2
  /\ (deadline <= now w + 2000 -> run_until fuel deadline w2 = w2).
Proof.
  intros Hdl w2. destruct fuel as [|fuel]; cbn [run_until]; [done|].
  subst w2. unfold submitted_world. proj. rewrite next_due_singleton. cbn [due].
  rewrite (proj2 (Z.leb_gt _ _)) by lia. unfold set_now. proj.
  split; [done|]. split; [done|].
  intros Hle. by rewrite Z.max_l.
Qed.


Lemma markup_text_plain (s : string) : plain_text s = true -> markup_text false s = s.
Proof.
  induction s as [|c s IH]; [done|].
  cbn [markup_text plain_text]. destruct (Ascii.eqb c "<"); [done|].
  intros [_ H]%andb_true_iff. by rewrite IH.
Qed.

Lemma reset_control_spec (f : node) (x : Element) :
  form (reset_control f x) = form x
  /\ defaultValue (reset_control f x) = defaultValue x
  /\ classList (reset_control f x) = classList x
  /\ content (reset_control f x) = content x
  /\ style (reset_control f x) = style x
  /\ disabled (reset_control f x) = disabled x
  /\ (form x = Some f -> value (reset_control f x) = defaultValue x).
Proof.
  unfold reset_control, owned_by. case_bool_decide; cbn; repeat split; congruence.
Qed.

Section Submitted.

Context (f submitButton s : node) (b : Element) (d d' : list Element).

Hypothesis Hcontainer : success_container d = Some (s, d').
Hypothesis Hbutton : d !! submitButton = Some b.
Hypothesis Hnot : contains b "success-message" = false.



Lemma submitted_button :
  exists b', submitted_document f submitButton s (textContent b) d' !! submitButton = Some b'
    /\ disabled b' = false /\ content b' = HTML (textContent b).
Proof.
  destruct (success_container_fresh d d' s submitButton b) as (Hne & Hb' & _); try done.
  unfold submitted_document.
  rewrite !list_lookup_alter_eq, list_lookup_fmap, !list_lookup_alter_ne by done.
  rewrite !list_lookup_alter_eq, Hb'. by eexists.
Qed.

End Submitted.



(** *** The label of the button *)

Lemma append_assoc (a b c : string) : (a +:+ b) +:+ c = a +:+ (b +:+ c).
Proof.
  induction a as [|x a IH]; [done|].
  change (String x ((a +:+ b) +:+ c) = String x (a +:+ (b +:+ c))). by rewrite IH.
Qed.

Lemma verbatim_plain (s : string) : verbatim_text s = true -> plain_text s = true.
Proof.
  induction s as [|c s IH]; [done|]. cbn [verbatim_text plain_text].
  intros [Hc Hs]%andb_prop. rewrite (IH Hs), andb_true_r.
  destruct (Ascii.eqb_spec c "<"%char) as [->|_]; [discriminate|].
  destruct (Ascii.eqb_spec c "&"%char) as [->|_]; [discriminate | done].
Qed.

Lemma markup_text_class (classes rest : string) :
  class_value classes = true ->
  markup_text true (classes +:+ rest) = markup_text true rest.
Proof.
  induction classes as [|c s IH]; [done|]. cbn [class_value].
  intros [Hc Hs]%andb_prop.
  change (String c s +:+ rest) with (String c (s +:+ rest)). cbn [markup_text].
  destruct (Ascii.eqb_spec c ">"%char) as [->|_]; [discriminate|].
  cbn [negb]. by apply IH.
Qed.

Lemma textContent_labelled (b : Element) (s : string) :
  labelled b s -> textContent b = s.
Proof.
  intros [Hs [Hb|[Hb|(classes & Hc & Hb)]]]; unfold textContent; rewrite Hb; [done| |].
  - by apply markup_text_plain, verbatim_plain.
  - unfold icon, dquote. rewrite !append_assoc.
    change (markup_text true
              (classes +:+ String (ascii_of_nat 34) EmptyString +:+ "></i>" +:+ s)
            = s).
    rewrite markup_text_class by done.
    change (markup_text false s = s).
    by apply markup_text_plain, verbatim_plain.
Qed.


(** Readiness of a concrete page, by evaluation. *)
Ltac ready :=
  unfold application_ready, info_ready;
  repeat split;
    first [ reflexivity
          | by apply elem_of_singleton
          | eexists; reflexivity
          | eexists _, _; repeat split; reflexivity ].




(** *** The info-request form *)

(** Reading a field after two writes that leave values and attributes
    alone. *)
Lemma value_of_alter2 (i : string) (n btn : node) (e : Element)
    (g1 g2 : Element -> Element) (w : World) :
  (forall x, value (g1 x) = value x /\ attributes (g1 x) = attributes x) ->
  (forall x, value (g2 x) = value x /\ attributes (g2 x) = attributes x) ->
  getElementById (document w) i = Some n ->
  document w !! n = Some e ->
  let w' := set_document (alter g2 btn) (set_document (alter g1 btn) w) in
  value_of i w' = (Normal (value e), w').
Proof.
  intros Hg1 Hg2 Hn He w'.
  assert (getElementById (document w') i = Some n) as Hn'.
  { unfold w'. proj. unfold getElementById. rewrite !first_from_alter; [done | |];
      intros x; unfold has_id, getAttribute; [by rewrite (proj2 (Hg1 x)) | by rewrite (proj2 (Hg2 x))]. }
  destruct (decide (btn = n)) as [->|Hne].
  - rewrite (value_of_eq i n (g2 (g1 e))); [|done|].
    + by rewrite (proj1 (Hg2 _)), (proj1 (Hg1 _)).
    + unfold w'. proj. by rewrite !list_lookup_alter_eq, He.
  - apply (value_of_eq i n e); [done|].
    unfold w'. proj. by rewrite !list_lookup_alter_ne.
Qed.

Lemma check_required_valid (ids : list string) (valid : bool) (w : World) :
  Forall (fun i => exists n e, getElementById (document w) i = Some n
                     /\ document w !! n = Some e /\ checkValidity e = true) ids ->
  check_required ids valid w = (Normal valid, w).
Proof.
  induction 1 as [|i ids (n & e & Hn & He & Hv) _ IH]; [done|].
  cbn [check_required]. js. by rewrite Hn, He, Hv.
Qed.

(** What a valid [submitInfoRequest] leaves behind. *)
Lemma submitInfoRequest_valid w btn b f v1 v2 v3 v4 v5 :
  info_ready w btn b f v1 v2 v3 v4 v5 ->
  let payload :=
    Payload.mk (JS.trim v1) (JS.trim v2) (JS.trim v3) v4 (JS.trim v5) (now w) in
  let handler := InfoRequestDone f btn (innerHTML b) payload in
  submitInfoRequest w
  = (Normal tt,
     mkWorld
       (alter (with_content (HTML (loading "Sending..."))) btn
          (alter (with_disabled true) btn (document w)))
       (now w)
       [mkTimer (next_timer w) (now w + 1500) None handler]
       (S (next_timer w))
       (trace w ++ [SetTimeout (next_timer w) handler 1500])
       (scrollY w) (innerHeight w) (counters w) (counterObserver w)
       (fadeObserver w) (revealObserver w) (modals w)).
Proof.
  intros (Hf & (n1 & e1 & Hn1 & He1 & Hv1 & Hc1) & (n2 & e2 & Hn2 & He2 & Hv2 & Hc2)
          & (n3 & e3 & Hn3 & He3 & Hv3 & Hc3) & (n4 & e4 & Hn4 & He4 & Hv4)
          & (n5 & e5 & Hn5 & He5 & Hv5) & Hbtn & Hb & Htimers) payload handler.
  unfold submitInfoRequest. js'. rewrite Hf. js'.
  rewrite check_required_valid by (repeat constructor; by eexists _, _).
  cbn [negb]. js'. rewrite Hbtn. js'. rewrite Hb. js'.
  rewrite (value_of_alter2 "riFirstName" n1 btn e1) by done. js'.
  rewrite (value_of_alter2 "riLastName" n2 btn e2) by done. js'.
  rewrite (value_of_alter2 "riEmail" n3 btn e3) by done. js'.
  rewrite (value_of_alter2 "riInterest" n4 btn e4) by done. js'.
  rewrite (value_of_alter2 "riMessage" n5 btn e5) by done. js'.
  f_equal. apply world_eq; proj; rewrite ?Hv1, ?Hv2, ?Hv3, ?Hv4, ?Hv5, ?Htimers;
    reflexivity.
Qed.

Lemma infoRequestDone_eq (f btn : node) (original : string) (payload : Payload.t)
    (w : World) :
  infoRequestDone f btn original payload w
  = (Normal tt,
     mkWorld
       (alter (with_content (HTML original)) btn
          (alter (with_disabled false) btn
             (reset_control f <$> info_success_shown (document w))))
       (now w) (timers w) (next_timer w)
       (trace w ++
          [ ConsoleLog "Info request submitted" [PayloadObject payload];
            ConsoleLog "Event tracked: info_request_submitted"
              [StringData (Payload.interest payload)] ])
       (scrollY w) (innerHeight w) (counters w) (counterObserver w)
       (fadeObserver w) (revealObserver w) (modals w)).
Proof.
  destruct w as [d nw ts nt tr sy ih cs co fo ro ms].
  unfold infoRequestDone, trackEvent, form_reset, info_success_shown. proj.
  unfold mbind at 1, JSM_bind at 1, console_log at 1.
  cbv beta iota delta [host modify log_call]. proj.
  unfold mbind at 1, JSM_bind at 1, byId at 1.
  cbv beta iota delta [mbind JSM_bind mret JSM_ret get]. proj.
  destruct (getElementById d "infoSuccess") as [s|]; js; flat;
    by rewrite <- !app_assoc.
Qed.

(** Once the clock may pass the 1500 ms of a valid info request, the
    timeout runs, and nothing is pending afterwards. *)
Lemma submitInfoRequest_fires w btn b f v1 v2 v3 v4 v5 fuel deadline :
  info_ready w btn b f v1 v2 v3 v4 v5 ->
  now w + 1500 <= deadline ->
  let payload :=
    Payload.mk (JS.trim v1) (JS.trim v2) (JS.trim v3) v4 (JS.trim v5) (now w) in
  run_until (S fuel) deadline (exec submitInfoRequest w)
  = run_until fuel deadline (info_requested_world w f btn b payload).
Proof.
  intros Hready Hdl payload. unfold exec.
  rewrite (submitInfoRequest_valid w btn b f v1 v2 v3 v4 v5 Hready).
  cbn [snd run_until]. proj. rewrite next_due_singleton. cbn [due].
  rewrite (proj2 (Z.leb_le _ _)) by done. unfold fire, set_timers, set_now. proj.
  cbn [timer_id due callback run_callback].
  rewrite rearm_one_shot by done. unfold task.
  rewrite infoRequestDone_eq. proj. rewrite Z.max_r by lia.
  rewrite <- app_assoc. reflexivity.
Qed.

Lemma getElementById_distinct (d : list Element) (i j : string) (n m : node) :
  i <> j -> getElementById d i = Some n -> getElementById d j = Some m -> n <> m.
Proof.
  intros Hij (_ & e & He & Hi)%first_from_Some (_ & e' & He' & Hj)%first_from_Some ->.
  rewrite Nat.sub_0_r in *. assert (e' = e) as -> by congruence.
  apply bool_decide_eq_true in Hi, Hj. congruence.
Qed.






(** ** Trimming *)

Lemma trimStart_spec (s : string) :
  exists l, s = l +:+ JS.trimStart s
    /\ all_whitespace l = true
    /\ starts_with_whitespace (JS.trimStart s) = false.
Proof.
  induction s as [|c s (l & Hs & Hl & Hstart)]; [by exists EmptyString|].
  cbn [JS.trimStart]. destruct (JS.is_whitespace c) eqn:Hc.
  - exists (String c l). split; [exact (f_equal (String c) Hs)|]. split; [|done].
    unfold all_whitespace in *. cbn. by rewrite Hc.
  - exists EmptyString. split; [reflexivity|]. split; [reflexivity|]. exact Hc.
Qed.

Lemma trimEnd_spec (s : string) :
  exists r, s = JS.trimEnd s +:+ r
    /\ all_whitespace r = true
    /\ ends_with_whitespace (JS.trimEnd s) = false.
Proof.
  induction s as [|c s (r & Hs & Hr & Hend)]; [by exists EmptyString|].
  cbn [JS.trimEnd]. destruct (JS.trimEnd s) as [|c' t] eqn:Ht.
  - change (s = r) in Hs. subst r. destruct (JS.is_whitespace c) eqn:Hc.
    + exists (String c s). split; [reflexivity|]. split; [|reflexivity].
      unfold all_whitespace in *. cbn. by rewrite Hc.
    + exists s. split; [reflexivity|]. split; [exact Hr | exact Hc].
  - exists r. split; [exact (f_equal (String c) Hs)|]. split; [exact Hr | exact Hend].
Qed.

Lemma trimEnd_start (s : string) :
  starts_with_whitespace s = false ->
  starts_with_whitespace (JS.trimEnd s) = false.
Proof.
  destruct s as [|c s]; [done|]. cbn [JS.trimEnd starts_with_whitespace].
  intros Hc. destruct (JS.trimEnd s); [|done]. by rewrite Hc.
Qed.

Lemma trim_trimmed (v : string) : trimmed v (JS.trim v).
Proof.
  destruct (trimStart_spec v) as (l & Hv & Hl & Hstart).
  destruct (trimEnd_spec (JS.trimStart v)) as (r & Hs & Hr & Hend).
  exists l, r. unfold JS.trim. repeat split; try done.
  - by rewrite <- Hs.
  - by apply trimEnd_start.
Qed.

Lemma trimmed_differs (v t : string) :
  trimmed v t ->
  starts_with_whitespace v = true \/ ends_with_whitespace v = true ->
  t <> v.
Proof. intros (l & r & _ & _ & _ & Hstart & Hend) [Hv|Hv] ->; congruence. Qed.

Lemma submitApplication_console w submitButton b f m formData fuel :
  application_ready w submitButton b f m formData ->
  console (run_until (S fuel) (now w + 2000) (exec (submitApplication submitButton) w))
  = console w ++
    [ ("Application submitted:", [FormDataObject formData]);
      ("Event tracked: application_submitted",
       [StringData (FormData.program formData)]) ].
Proof.
  intros Hready.
  destruct (application_ready_container _ _ _ _ _ _ Hready) as (s & d' & Hs).
  rewrite (submitApplication_fires _ _ _ _ _ _ s d' fuel _ Hready Hs) by lia.
  destruct (submitted_world_waits w submitButton b f m formData s d' fuel (now w + 2000))
    as (_ & Htr & _); [lia|].
  unfold console. rewrite Htr. unfold submitted_world. proj.
  rewrite omap_app. reflexivity.
Qed.

Lemma submitInfoRequest_console w btn b f v1 v2 v3 v4 v5 fuel :
  info_ready w btn b f v1 v2 v3 v4 v5 ->
  console (run_until (S fuel) (now w + 1500) (exec submitInfoRequest w))
  = console w ++
    [ ("Info request submitted",
       [PayloadObject
          (Payload.mk (JS.trim v1) (JS.trim v2) (JS.trim v3) v4 (JS.trim v5) (now w))]);
      ("Event tracked: info_request_submitted", [StringData v4]) ].
Proof.
  intros Hready.
  rewrite (submitInfoRequest_fires _ _ _ _ _ _ _ _ _ _ _ Hready) by lia.
  match goal with |- context [run_until fuel ?dl ?w2] =>
    destruct (run_until_idle fuel dl w2) as (_ & Htr & _); [done|]
  end.
  unfold console. rewrite Htr. unfold info_requested_world. proj.
  rewrite omap_app. reflexivity.
Qed.

(** C10: the payload the info-request flow logs holds the first name, last
    name, email and message without their leading and trailing white space
    and the interest as it is; the record the application flow logs holds
    the five field values as they are.  So when both first-name fields hold
    the same value and it has white space at an end, the two flows log
    different first names. *)
Theorem info_request_trims_application_does_not
    (wi : World) (btn : node) (bi : Element) (fi : node)
    (firstName lastName email interest message : string)
    (wa : World) (submitButton : node) (b : Element) (f m : node)
    (formData : FormData.t) (fuel : nat) :
  info_ready wi btn bi fi firstName lastName email interest message ->
  application_ready wa submitButton b f m formData ->
  (let payload :=
     Payload.mk (JS.trim firstName) (JS.trim lastName) (JS.trim email) interest
       (JS.trim message) (now wi) in
   console (run_until (S fuel) (now wi + 1500) (exec submitInfoRequest wi))
   = console wi ++
     [ ("Info request submitted", [PayloadObject payload]);
       ("Event tracked: info_request_submitted", [StringData interest]) ]
   /\ trimmed firstName (Payload.firstName payload)
   /\ trimmed lastName (Payload.lastName payload)
   /\ trimmed email (Payload.email payload)
   /\ trimmed message (Payload.message payload)
   /\ Payload.interest payload = interest
   /\ (FormData.firstName formData = firstName ->
       starts_with_whitespace firstName = true
       \/ ends_with_whitespace firstName = true ->
       Payload.firstName payload <> FormData.firstName formData))
  /\ console (run_until (S fuel) (now wa + 2000) (exec (submitApplication submitButton) wa))
     = console wa ++
       [ ("Application submitted:", [FormDataObject formData]);
         ("Event tracked: application_submitted",
          [StringData (FormData.program formData)]) ]
  /\ field_value (document wa) "firstName" (FormData.firstName formData)
  /\ field_value (document wa) "lastName" (FormData.lastName formData)
  /\ field_value (document wa) "email" (FormData.email formData)
  /\ field_value (document wa) "program" (FormData.program formData)
  /\ field_value (document wa) "startDate" (FormData.startDate formData).
Proof.
  intros Hinfo Happ. split.
  - cbv zeta. split; [by eapply submitInfoRequest_console|].
    cbn [Payload.firstName Payload.lastName Payload.email Payload.message Payload.interest].
    repeat split; try apply trim_trimmed.
    intros -> Hws. by apply trimmed_differs; [apply trim_trimmed|].
  - split; [by eapply submitApplication_console|].
    by destruct Happ as (_ & _ & _ & _ & ? & ? & ? & ? & ? & _).
Qed.

Lemma info_request_trims_application_does_not_witness :
  let w := Demo.opened "  Ada " in
  console (run_until 1 (now w + 1500) (exec submitInfoRequest w))
  = [ ("Info request submitted",
       [PayloadObject
          (Payload.mk "Ada" "Lovelace" "ada@example.edu" " campus visit " "Hello!" 0)]);
      ("Event tracked: info_request_submitted", [StringData " campus visit "]) ]
  /\ console (run_until 1 (now w + 2000) (exec (submitApplication 19) w))
     = [ ("Application submitted:",
          [FormDataObject
             (FormData.mk "  Ada " "Lovelace" "ada@example.edu" "computer-science"
                "fall-2026" 0)]);
         ("Event tracked: application_submitted", [StringData "computer-science"]) ].
Proof.
  intros w.
  destruct (info_request_trims_application_does_not
              w 26 (Demo.button [("id", "infoSubmitBtn")] 20 "Request Info") 20
              "  Ada " "Lovelace " "ada@example.edu" " campus visit " "Hello!  "
              w 19 (Demo.button [] 13 "Submit Application") 13 12
              (FormData.mk "  Ada " "Lovelace" "ada@example.edu" "computer-science"
                 "fall-2026" 0) 0)
    as ((Hinfo & _) & Happ & _).
  - ready.
  - ready.
  - split; [exact Hinfo | exact Happ].
Defined.

(** * The rest of the script *)

(** The statements of the second part, run on a world. *)
Ltac js2 :=
  cbv beta iota zeta delta
    [mbind mret JSM_bind JSM_ret get modify host throw deref exec
     update element byId classList_add classList_remove classList_contains
     classList_remove_all set_display
     set_textContent set_innerHTML set_disabled setProperty value_of console_log
     schedule setTimeout setInterval clearInterval store_current observe unobserve
     fst snd].

(** ** Field validation *)

Lemma set_document_alter (f : Element -> Element) (n : node) (e : Element) (w : World) :
  document w !! n = Some e ->
  set_document (alter f n) w = set_document (fun d => <[n := f e]> d) w.
Proof.
  intros He. unfold set_document. f_equal.
  apply list_eq. intros i. destruct (decide (i = n)) as [->|Hne].
  - rewrite list_lookup_alter_eq, He. cbn.
    by rewrite list_lookup_insert_eq by (by eapply lookup_lt_Some).
  - by rewrite list_lookup_alter_ne, list_lookup_insert_ne.
Qed.

(** Membership in a class list the script has built, token by token. *)
Ltac classes :=
  set_unfold;
  repeat match goal with |- context [if ?b then _ else _] => destruct b end;
  intuition congruence.

Lemma with_classList_compose (f g : gset string -> gset string) (e : Element) :
  with_classList g (with_classList f e) = with_classList (fun c => g (f c)) e.
Proof. reflexivity. Qed.

Lemma set_document_twice (f g : list Element -> list Element) (w : World) :
  set_document g (set_document f w) = set_document (fun d => g (f d)) w.
Proof. reflexivity. Qed.

Lemma alter_classList_twice (f g h : gset string -> gset string) (n : node) (w : World) :
  (forall c, g (f c) = h c) ->
  set_document (alter (with_classList g) n) (set_document (alter (with_classList f) n) w)
  = set_document (alter (with_classList h) n) w.
Proof.
  intros Hh. rewrite set_document_twice. unfold set_document. f_equal.
  apply list_eq. intros i. destruct (decide (i = n)) as [->|Hne].
  - rewrite !list_lookup_alter_eq. destruct (document w !! n) as [e|]; [|done].
    cbn. rewrite with_classList_compose. unfold with_classList. by rewrite Hh.
  - by rewrite !list_lookup_alter_ne.
Qed.

Lemma validateField_eq (w : World) (field : node) (e : Element) :
  document w !! field = Some e ->
  validateField field w
  = (Normal (checkValidity e), set_document (alter validated field) w).
Proof.
  intros He. unfold validateField. js2. rewrite He. f_equal.
  rewrite (alter_classList_twice _ _
             (fun c => c ∖ list_to_set ["is-valid"; "is-invalid"]
                         ∪ {[if checkValidity e then "is-valid" else "is-invalid"]}))
    by done.
  unfold set_document. f_equal. apply list_alter_ext; [|done].
  intros x Hx. by assert (x = e) as -> by congruence.
Qed.

Lemma validateBasic_eq (w : World) (field : node) :
  validateBasic (Some field) w = field_blur field w.
Proof.
  unfold validateBasic, field_blur, validateField. js2.
  destruct (document w !! field) as [e|]; [|reflexivity].
  destruct (checkValidity e); f_equal; symmetry.
  - etrans; [|symmetry]; apply alter_classList_twice; intros c; [reflexivity|].
    apply set_eq. intros x.
    destruct (decide (x = "is-valid")), (decide (x = "is-invalid")); classes.
  - etrans; [|symmetry]; apply alter_classList_twice; intros c; [reflexivity|].
    apply set_eq. intros x.
    destruct (decide (x = "is-valid")), (decide (x = "is-invalid")); classes.
Qed.

Lemma validated_twice (e : Element) : validated (validated e) = validated e.
Proof.
  unfold validated, checkValidity. destruct e. cbn. unfold with_classList. cbn. f_equal.
  apply set_eq. intros x.
  destruct (decide (x = "is-valid")), (decide (x = "is-invalid")); classes.
Qed.

(** X1: [validateField] returns the validity of the field and leaves it
    with exactly one of the two marks: "is-valid" when the field is valid,
    "is-invalid" when it is not, whatever marks it carried before.  Its
    other classes, the rest of the element and the rest of the page are
    untouched. *)
Theorem validateField_marks (w : World) (field : node) (e : Element) :
  document w !! field = Some e ->
  let mark := if checkValidity e then "is-valid" else "is-invalid" in
  exists e',
    validateField field w
    = (Normal (checkValidity e), set_document (fun d => <[field := e']> d) w)
    /\ (forall token, token ∈ classList e' <->
          token = mark
          \/ (token ∈ classList e /\ token <> "is-valid" /\ token <> "is-invalid"))
    /\ with_classList (fun _ => classList e) e' = e.
Proof.
  intros He mark. exists (validated e). split; [|split].
  - rewrite (validateField_eq w field e He). f_equal. by apply set_document_alter.
  - intros token. subst mark. unfold validated. cbn. classes.
  - by destruct e.
Qed.

Lemma validateField_marks_witness :
  let w := Demo.world EmptyString in
  let e := Demo.control "firstName" 13 EmptyString Demo.required in
  exists e',
    validateField 14 w = (Normal false, set_document (fun d => <[14%nat := e']> d) w)
    /\ (forall token, token ∈ classList e' <->
          token = "is-invalid"
          \/ (token ∈ classList e /\ token <> "is-valid" /\ token <> "is-invalid"))
    /\ with_classList (fun _ => classList e) e' = e.
Proof.
  apply (validateField_marks (Demo.world EmptyString) 14
           (Demo.control "firstName" 13 EmptyString Demo.required)).
  reflexivity.
Defined.

(** ** Loops over the elements a selector matches *)

(** A loop whose body rewrites the element it is given. *)
Lemma forEach_alter (body : node -> JSM unit) (g : Element -> Element)
    (l : list node) (w : World) :
  (forall n w, is_Some (document w !! n) ->
     body n w = (Normal tt, set_document (alter g n) w)) ->
  (forall n, n ∈ l -> is_Some (document w !! n)) ->
  forEach l body w
  = (Normal tt, set_document (fun d => foldl (fun d n => alter g n d) d l) w).
Proof.
  intros Hbody. revert w. induction l as [|n l IH]; intros w Hl; [by destruct w|].
  cbn [forEach foldl]. unfold mbind, JSM_bind.
  rewrite Hbody by apply Hl, list_elem_of_here.
  rewrite IH; [by destruct w|].
  intros m Hm. proj. destruct (decide (m = n)) as [->|Hne].
  - rewrite list_lookup_alter_eq. apply fmap_is_Some, Hl, list_elem_of_here.
  - rewrite list_lookup_alter_ne by done. apply Hl. by apply list_elem_of_further.
Qed.

(** Rewriting every element a selector matches, once. *)
Lemma foldl_alter_selected (P : Element -> bool) (g : Element -> Element) (d : list Element) :
  foldl (fun d n => alter g n d) d (querySelectorAll P d)
  = (fun e => if P e then g e else e) <$> d.
Proof.
  apply list_eq. intros i.
  rewrite foldl_alter_lookup by apply all_from_NoDup.
  rewrite list_lookup_fmap.
  destruct (d !! i) as [e|] eqn:He; cbn.
  - destruct (P e) eqn:HP.
    + rewrite decide_True; [done|]. apply querySelectorAll_spec. eauto.
    + rewrite decide_False; [done|].
      intros (e' & He' & HP')%querySelectorAll_spec. congruence.
  - by destruct (decide _).
Qed.

Lemma forEach_selected (P : Element -> bool) (body : node -> JSM unit)
    (g : Element -> Element) (w : World) :
  (forall n w, is_Some (document w !! n) ->
     body n w = (Normal tt, set_document (alter g n) w)) ->
  forEach (querySelectorAll P (document w)) body w
  = (Normal tt, set_document (fmap (fun e => if P e then g e else e)) w).
Proof.
  intros Hbody. rewrite (forEach_alter body g) ; [|done|].
  - unfold set_document. by rewrite foldl_alter_selected.
  - intros n (e & He & _)%querySelectorAll_spec. by eexists.
Qed.

(** The ancestors of an element are found again after a rewriting that
    keeps parents and the property looked for. *)
Lemma has_ancestor_fmap (h : Element -> Element) (P : Element -> bool)
    (fuel : nat) (d : list Element) (n : option node) :
  (forall e, parentNode (h e) = parentNode e) ->
  (forall e, P (h e) = P e) ->
  has_ancestor fuel (h <$> d) P n = has_ancestor fuel d P n.
Proof.
  intros Hp HP. revert n. induction fuel as [|fuel IH]; intros n; [done|].
  cbn [has_ancestor]. destruct n as [p|]; [|done].
  rewrite list_lookup_fmap. destruct (d !! p) as [e|]; [|done].
  cbn. by rewrite HP, Hp, IH.
Qed.

(** ** The program filter *)

Lemma filter_card_eq (criteria : string) (n : node) (w : World) :
  is_Some (document w !! n) ->
  filter_card criteria n w
  = (Normal tt, set_document (alter (display_card criteria) n) w).
Proof.
  intros [e He]. unfold filter_card. js2. rewrite He.
  fold (matches_criteria criteria e). unfold set_document. do 2 f_equal.
  apply list_alter_ext; [|done]. intros x Hx. assert (x = e) as -> by congruence.
  unfold display_card. by destruct (matches_criteria criteria e).
Qed.


Lemma filterPrograms_eq (criteria : string) (w : World) :
  filterPrograms criteria w
  = (Normal tt,
     set_document (fmap (fun e => if is_program_card (document w) e
                                  then display_card criteria e else e)) w).
Proof.
  unfold filterPrograms. js2.
  apply (forEach_selected _ _ (display_card criteria)).
  intros n w'. apply filter_card_eq.
Qed.

Lemma is_program_card_filtered (criteria : string) (d : list Element) (e : Element) :
  let h := fun e => if is_program_card d e then display_card criteria e else e in
  is_program_card (h <$> d) (h e) = is_program_card d e.
Proof.
  intros h.
  assert (forall x, parentNode (h x) = parentNode x) as Hp.
  { intros x. unfold h. by destruct (is_program_card d x). }
  assert (forall x, attributes (h x) = attributes x) as Ha.
  { intros x. unfold h. by destruct (is_program_card d x). }
  unfold is_program_card at 1. rewrite length_fmap, has_ancestor_fmap, Hp; [|done|].
  - unfold getAttribute. by rewrite Ha.
  - intros x. unfold has_id, getAttribute. by rewrite Ha.
Qed.

(** X3: [filterPrograms] never throws and changes nothing but the inline
    [display] of the program cards (the elements inside [#programs] that
    carry [data-category]): a card that matches the criteria, and every
    card when the criteria is "all", loses its inline [display]; every
    other card gets [display: none]; elements that are no cards, and every
    other property of a card, are left as they were. *)
Theorem filterPrograms_shows_matching (criteria : string) (w : World) :
  exists d',
    filterPrograms criteria w = (Normal tt, set_document (fun _ => d') w)
    /\ length d' = length (document w)
    /\ forall n e, document w !! n = Some e ->
         exists e', d' !! n = Some e'
           /\ with_style (fun _ => style e) e' = e
           /\ (forall property, property <> "display" ->
                 style e' !! property = style e !! property)
           /\ style e' !! "display"
              = if is_program_card (document w) e
                then (if String.eqb criteria "all"
                         || bool_decide (getAttribute e "data-category" = Some criteria)
                      then None else Some "none")
                else style e !! "display".
Proof.
  eexists. split; [|split].
  - rewrite filterPrograms_eq. reflexivity.
  - apply length_fmap.
  - intros n e He. rewrite list_lookup_fmap, He. cbn. eexists. split; [done|].
    destruct (is_program_card (document w) e); [|by destruct e].
    unfold display_card, matches_criteria.
    destruct (_ || _); cbn [style with_style].
    + split; [by destruct e|]. split; [|apply lookup_delete_eq].
      intros p Hp. by apply lookup_delete_ne.
    + split; [by destruct e|]. split; [|apply lookup_insert_eq].
      intros p Hp. by apply lookup_insert_ne.
Qed.

Lemma display_card_twice (c1 c2 : string) (e : Element) :
  display_card c2 (display_card c1 e) = display_card c2 e.
Proof.
  unfold display_card, matches_criteria, getAttribute. destruct e. cbn.
  unfold with_style. cbn. f_equal.
  repeat match goal with |- context [if ?b then _ else _] => destruct b end;
    first [ apply delete_delete_eq | apply insert_delete_eq
          | apply delete_insert_eq | apply insert_insert_eq ].
Qed.

(** X4: the last filter wins.  Filtering by [c2] after filtering by [c1]
    leaves the page as filtering by [c2] alone does; in particular a
    filter applied twice changes nothing the second time, and "all" undoes
    every earlier filter. *)
Theorem filterPrograms_last_wins (c1 c2 : string) (w : World) :
  exec (filterPrograms c2) (exec (filterPrograms c1) w)
  = exec (filterPrograms c2) w.
Proof.
  unfold exec. rewrite !filterPrograms_eq. cbn [snd].
  rewrite set_document_twice. unfold set_document. f_equal. proj.
  rewrite <- list_fmap_compose. apply list_fmap_ext. intros i e He. cbn.
  pose proof (is_program_card_filtered c1 (document w) e) as Hcard. cbn in Hcard.
  rewrite Hcard.
  destruct (is_program_card (document w) e); [|done].
  apply display_card_twice.
Qed.

(** ** Navigation *)

Lemma all_from_fmap (P : Element -> bool) (h : Element -> Element) (k : nat)
    (d : list Element) :
  (forall e, P (h e) = P e) ->
  all_from P k (h <$> d) = all_from P k d.
Proof.
  intros HP. revert k. induction d as [|e d IH]; intros k; [done|].
  cbn. by rewrite HP, IH.
Qed.

Lemma updateActiveNavigation_eq (w : World) :
  let d := document w in
  let current := current_section (scrollY w) d (querySelectorAll is_section_with_id d) in
  updateActiveNavigation w
  = (Normal tt,
     set_document (fmap (mark_links d current)) w).
Proof.
  intros d current. unfold updateActiveNavigation, mark_links. js.
  apply (forEach_selected _ _ (mark_link current)).
  intros n w' [e He]. by apply (activate_link_eq _ _ e).
Qed.

Lemma mark_link_classes (c : string) (e : Element) :
  mark_link c e
  = with_classList (fun cl =>
      if bool_decide (getAttribute e "href" = Some ("#" +:+ c))
      then cl ∖ {["active"]} ∪ {["active"]} else cl ∖ {["active"]}) e.
Proof.
  unfold mark_link, getAttribute. cbn [attributes with_classList].
  by destruct (bool_decide _).
Qed.

Lemma mark_link_twice (c c' : string) (e : Element) :
  mark_link c (mark_link c' e) = mark_link c e.
Proof.
  rewrite (mark_link_classes c'), !mark_link_classes.
  unfold getAttribute. cbn [attributes with_classList].
  rewrite with_classList_compose. unfold with_classList. f_equal.
  apply set_eq. intros x.
  destruct (bool_decide _), (bool_decide _), (decide (x = "active")); classes.
Qed.

Section Marked.

Context (d : list Element) (c : string).


Lemma marked_shape (e : Element) :
  exists cl, mark_links d c e = with_classList (fun _ => cl) e
    /\ forall token, token <> "active" -> token ∈ cl <-> token ∈ classList e.
Proof.
  unfold mark_links. destruct (is_nav_link d e).
  - rewrite mark_link_classes. eexists. split; [reflexivity|].
    intros token Htoken. destruct (bool_decide _); classes.
  - exists (classList e). split; [by destruct e | done].
Qed.

Lemma marked_contains (e : Element) (token : string) :
  token <> "active" -> contains (mark_links d c e) token = contains e token.
Proof.
  intros Htoken. destruct (marked_shape e) as (cl & -> & Hcl).
  unfold contains. cbn [classList with_classList].
  apply bool_decide_ext. by apply Hcl.
Qed.

Lemma marked_is_nav_link (e : Element) :
  is_nav_link (mark_links d c <$> d) (mark_links d c e) = is_nav_link d e.
Proof.
  unfold is_nav_link. rewrite length_fmap, marked_contains by done.
  rewrite has_ancestor_fmap.
  - f_equal. f_equal. destruct (marked_shape e) as (cl & -> & _). reflexivity.
  - intros x. destruct (marked_shape x) as (cl & -> & _). reflexivity.
  - intros x. by apply marked_contains.
Qed.

Lemma marked_sections :
  querySelectorAll is_section_with_id (mark_links d c <$> d) = querySelectorAll is_section_with_id d.
Proof.
  apply all_from_fmap. intros e. destruct (marked_shape e) as (cl & -> & _). reflexivity.
Qed.

Lemma marked_current (y : Q) (l : list node) :
  current_section y (mark_links d c <$> d) l = current_section y d l.
Proof.
  unfold current_section.
  match goal with |- fold_left ?F l _ = fold_left ?G l _ =>
    assert (forall s, fold_left F l s = fold_left G l s) as H; [|apply H] end.
  induction l as [|n l IH]; intros s; [done|].
  cbn [fold_left]. rewrite IH. f_equal.
  rewrite list_lookup_fmap. destruct (d !! n) as [e|]; [|done]. cbn.
  destruct (marked_shape e) as (cl & -> & _). reflexivity.
Qed.

End Marked.

(** X5: the active link depends on the last scroll position only.
    Scrolling to [y] after any earlier scroll leaves the page as scrolling
    to [y] directly does: [updateActiveNavigation] recomputes every mark
    and keeps no history. *)
Theorem scroll_last_wins (y y' : Q) (w : World) :
  exec (scroll y) (exec (scroll y') w) = exec (scroll y) w.
Proof.
  unfold scroll, exec, mbind, JSM_bind, modify.
  rewrite !updateActiveNavigation_eq. cbn [snd]. proj.
  apply world_eq; proj; try reflexivity.
  rewrite marked_sections, marked_current.
  rewrite <- list_fmap_compose. apply list_fmap_ext. intros i e _. cbn.
  unfold mark_links at 1. rewrite marked_is_nav_link. unfold mark_links.
  destruct (is_nav_link (document w) e); [|done].
  apply mark_link_twice.
Qed.

(** *** The click listener, when there is nothing to scroll to *)

(** X6: a click on a same-page anchor always cancels the default
    navigation, and scrolls only when the target exists.  When the selector
    engine finds no element for the href the listener stops there; when it
    rejects the href as a selector (as it does for a bare "#") the listener
    throws, after the default navigation has been cancelled.  In both cases
    nothing is scrolled and nothing else changes. *)
Theorem anchor_click_without_target
    (querySelector : list Element -> string -> Completion (option node))
    (w : World) (this : node) (a : Element) (href : string) :
  document w !! this = Some a ->
  getAttribute a "href" = Some href ->
  (querySelector (document w) href = Normal None ->
     anchor_click querySelector this w = (Normal tt, log_call PreventDefault w))
  /\ (forall err, querySelector (document w) href = Throw err ->
        anchor_click querySelector this w = (Throw err, log_call PreventDefault w)).
Proof.
  intros Ha Hhref. split; [intros Hq | intros err Hq];
    unfold anchor_click; js; proj; rewrite Ha, Hhref;
    cbn [default from_option]; unfold id; proj; by rewrite Hq.
Qed.

Lemma anchor_click_without_target_witness :
  anchor_click id_selector_engine 6 Catalog.world
  = (Normal tt, log_call PreventDefault Catalog.world)
  /\ anchor_click id_selector_engine 5 Catalog.world
     = (Throw "SyntaxError", log_call PreventDefault Catalog.world).
Proof.
  split.
  - apply (anchor_click_without_target id_selector_engine Catalog.world 6
             (Demo.tag "a" (Some 0%nat) [("href", "#missing")] []) "#missing");
      reflexivity.
  - apply (anchor_click_without_target id_selector_engine Catalog.world 5
             (Demo.tag "a" (Some 3%nat) [("href", "#")] ["nav-link"]) "#");
      reflexivity.
Defined.

(** ** Events and the listeners of the page *)

Section Dispatch.

Context (querySelector : list Element -> string -> Completion (option node))
        (target : node) (type : EventType).

Lemma notify_other_target (acc : list node * World) (r : Registration) :
  reg_target r <> target -> notify querySelector target type acc r = acc.
Proof.
  intros Hne. unfold notify.
  by rewrite (proj2 (Nat.eqb_neq _ _) Hne).
Qed.

Lemma notify_other_type (acc : list node * World) (r : Registration) :
  reg_type r <> type -> notify querySelector target type acc r = acc.
Proof.
  intros Hne. unfold notify.
  destruct (reg_type r), type; try done; by rewrite andb_false_r.
Qed.

(** Listeners registered one per node: only the one of the target runs. *)
Lemma notify_nodes (f : node -> Registration) (l : list node) (acc : list node * World) :
  (forall n, reg_target (f n) = n) ->
  NoDup l ->
  fold_left (notify querySelector target type) (f <$> l) acc
  = if decide (target ∈ l) then notify querySelector target type acc (f target) else acc.
Proof.
  intros Hf Hl. revert acc. induction Hl as [|n l Hn Hl IH]; intros acc.
  - by rewrite decide_False by apply not_elem_of_nil.
  - cbn [fmap list_fmap fold_left]. rewrite IH.
    destruct (decide (n = target)) as [->|Hne].
    + rewrite (decide_False (P := target ∈ l)) by done.
      by rewrite decide_True by apply list_elem_of_here.
    + rewrite (notify_other_target acc (f n)) by (rewrite Hf; exact Hne).
      destruct (decide (target ∈ l)) as [Hi|Hi].
      * by rewrite decide_True by by apply list_elem_of_further.
      * rewrite decide_False; [done|].
        intros [?|?]%elem_of_cons; [congruence | done].
Qed.

Lemma notify_none (regs : list Registration) (acc : list node * World) :
  Forall (fun r => reg_target r <> target \/ reg_type r <> type) regs ->
  fold_left (notify querySelector target type) regs acc = acc.
Proof.
  induction 1 as [|r regs [Hr|Hr] _ IH]; [done| |]; cbn [fold_left].
  - by rewrite notify_other_target.
  - by rewrite notify_other_type.
Qed.

End Dispatch.

Lemma info_listeners_type (d : list Element) :
  Forall (fun r => reg_type r = Input) (initializeInfoRequestForm_listeners d).
Proof.
  unfold initializeInfoRequestForm_listeners.
  destruct (getElementById d "infoRequestForm"); [|constructor].
  cbn. repeat (destruct (getElementById d _); cbn); repeat constructor.
Qed.

Lemma enhance_listeners_type (d : list Element) :
  Forall (fun r => reg_type r <> Click) (enhanceFormInputs_listeners d).
Proof.
  unfold enhanceFormInputs_listeners.
  induction (querySelectorAll is_form_input d) as [|n l IH]; [constructor|].
  cbn. by repeat constructor.
Qed.

(** The listeners that run on a click: the one of [initializeNavigation]
    when the element is a same-page anchor, then the one of the collapsing
    menu when it is a navigation link. *)
Lemma dispatch_click (querySelector : list Element -> string -> Completion (option node))
    (d : list Element) (target : node) (w : World) :
  let navbarToggler := first_from (fun e => contains e "navbar-toggler") 0 d in
  let navbarCollapse := first_from (fun e => contains e "navbar-collapse") 0 d in
  let acc :=
    if decide (target ∈ querySelectorAll is_internal_anchor d)
    then notify querySelector target Click ([], w)
           (mkRegistration target Click AnchorClick)
    else ([], w) in
  dispatch querySelector (listeners d) target Click w
  = if decide (target ∈ querySelectorAll (is_nav_link d) d)
    then notify querySelector target Click acc
           (mkRegistration target Click (NavLinkClick navbarToggler navbarCollapse))
    else acc.
Proof.
  intros tg cl acc. unfold dispatch, listeners. rewrite !fold_left_app.
  unfold initializeNavigation_listeners, navbar_listeners.
  rewrite (notify_nodes _ _ _ (fun anchor => mkRegistration anchor Click AnchorClick))
    by (done || apply all_from_NoDup).
  fold acc.
  rewrite (notify_none _ _ _ (initializeInfoRequestForm_listeners d)).
  2:{ eapply Forall_impl; [apply info_listeners_type|]. intros r Hr. right. by rewrite Hr. }
  rewrite (notify_none _ _ _ (enhanceFormInputs_listeners d)).
  2:{ eapply Forall_impl; [apply enhance_listeners_type|]. intros r Hr. by right. }
  by rewrite (notify_nodes _ _ _
                (fun link => mkRegistration link Click (NavLinkClick tg cl)))
    by (done || apply all_from_NoDup).
Qed.

Section NavLinkClick.

Context (querySelector : list Element -> string -> Completion (option node))
        (w : World) (link t : node) (a e : Element) (href : string).

Hypothesis Hlink : document w !! link = Some a.
Hypothesis Hnav : is_nav_link (document w) a = true.
Hypothesis Hanchor : is_internal_anchor a = true.
Hypothesis Hhref : getAttribute a "href" = Some href.
Hypothesis Htarget : querySelector (document w) href = Normal (Some t).
Hypothesis He : document w !! t = Some e.

Lemma anchor_listener_scrolls :
  notify querySelector link Click ([], w) (mkRegistration link Click AnchorClick)
  = ([], fold_left (fun w c => log_call c w)
           [PreventDefault; ScrollTo (offsetTop e - 80) "smooth"] w).
Proof.
  unfold notify. cbn [reg_target reg_type reg_listener EventType_eqb snd fst].
  rewrite Nat.eqb_refl. cbn [andb run_listener].
  unfold anchor_click. js. proj.
  rewrite Hlink, Hhref. cbn [default from_option]. unfold id. proj.
  rewrite Htarget. proj. by rewrite He.
Qed.

Lemma click_nav_link_listeners :
  dispatch querySelector (listeners (document w)) link Click w
  = notify querySelector link Click
      ([], fold_left (fun w c => log_call c w)
             [PreventDefault; ScrollTo (offsetTop e - 80) "smooth"] w)
      (mkRegistration link Click
         (NavLinkClick
            (first_from (fun e => contains e "navbar-toggler") 0 (document w))
            (first_from (fun e => contains e "navbar-collapse") 0 (document w)))).
Proof.
  rewrite dispatch_click.
  rewrite (decide_True (P := link ∈ querySelectorAll is_internal_anchor _))
    by (apply querySelectorAll_spec; eauto).
  rewrite (decide_True (P := link ∈ querySelectorAll (is_nav_link _) _))
    by (apply querySelectorAll_spec; eauto).
  by rewrite anchor_listener_scrolls.
Qed.

End NavLinkClick.

(** X7: a click on a navigation link that is a same-page anchor runs two
    listeners of the script: the page scrolls to the target (80px above
    it), and then, when the collapsing menu is open (it carries "show"),
    the toggler is clicked to close it; a closed menu is left alone.
    Nothing else changes. *)
Theorem click_nav_link_closes_open_menu
    (querySelector : list Element -> string -> Completion (option node))
    (w : World) (link t toggler collapse : node) (a e menu : Element) (href : string) :
  document w !! link = Some a ->
  is_nav_link (document w) a = true ->
  is_internal_anchor a = true ->
  getAttribute a "href" = Some href ->
  querySelector (document w) href = Normal (Some t) ->
  document w !! t = Some e ->
  first_from (fun e => contains e "navbar-toggler") 0 (document w) = Some toggler ->
  first_from (fun e => contains e "navbar-collapse") 0 (document w) = Some collapse ->
  document w !! collapse = Some menu ->
  dispatch querySelector (listeners (document w)) link Click w
  = (if contains menu "show" then [toggler] else [],
     mkWorld (document w) (now w) (timers w) (next_timer w)
       (trace w ++ [PreventDefault; ScrollTo (offsetTop e - 80) "smooth"])
       (scrollY w) (innerHeight w) (counters w) (counterObserver w)
       (fadeObserver w) (revealObserver w) (modals w)).
Proof.
  intros Hlink Hnav Hanchor Hhref Htarget He Htoggler Hcollapse Hmenu.
  rewrite (click_nav_link_listeners querySelector w link t a e href) by done.
  rewrite Htoggler, Hcollapse.
  unfold notify. cbn [reg_target reg_type reg_listener EventType_eqb snd fst].
  rewrite Nat.eqb_refl. cbn [andb run_listener fold_left].
  unfold nav_link_click. js. proj. rewrite Hmenu.
  destruct (contains menu "show"); cbn [option_list app];
    unfold log_call; proj; by rewrite <- app_assoc.
Qed.

Lemma click_nav_link_closes_open_menu_witness :
  dispatch id_selector_engine (listeners (document Catalog.world)) 4 Click Catalog.world
  = ([1%nat],
     mkWorld Catalog.page 0 [] 0 [PreventDefault; ScrollTo 520 "smooth"]
       0%Q 800 [] ∅ ∅ ∅ ∅).
Proof.
  apply (click_nav_link_closes_open_menu id_selector_engine Catalog.world 4 7 1 2
           (Demo.tag "a" (Some 3%nat) [("href", "#programs")] ["nav-link"])
           (Demo.block "section" "programs" 600 900)
           (Demo.tag "div" (Some 0%nat) [] ["navbar-collapse"; "show"])
           "#programs");
    reflexivity.
Defined.

(** X8: on a page without a [.navbar-collapse] element the menu listener
    throws a TypeError on every click on a navigation link.  The listeners
    are separate tasks, so the scroll to the target has happened all the
    same; no toggler is clicked and the exception is reported. *)
Theorem click_nav_link_without_menu
    (querySelector : list Element -> string -> Completion (option node))
    (w : World) (link t : node) (a e : Element) (href : string) :
  document w !! link = Some a ->
  is_nav_link (document w) a = true ->
  is_internal_anchor a = true ->
  getAttribute a "href" = Some href ->
  querySelector (document w) href = Normal (Some t) ->
  document w !! t = Some e ->
  first_from (fun e => contains e "navbar-collapse") 0 (document w) = None ->
  dispatch querySelector (listeners (document w)) link Click w
  = ([],
     mkWorld (document w) (now w) (timers w) (next_timer w)
       (trace w ++ [PreventDefault; ScrollTo (offsetTop e - 80) "smooth";
                    Uncaught "TypeError"])
       (scrollY w) (innerHeight w) (counters w) (counterObserver w)
       (fadeObserver w) (revealObserver w) (modals w)).
Proof.
  intros Hlink Hnav Hanchor Hhref Htarget He Hcollapse.
  rewrite (click_nav_link_listeners querySelector w link t a e href) by done.
  rewrite Hcollapse.
  unfold notify. cbn [reg_target reg_type reg_listener EventType_eqb snd fst].
  rewrite Nat.eqb_refl. cbn [andb run_listener fold_left].
  unfold nav_link_click. js. proj.
  unfold log_call; proj. by rewrite <- !app_assoc.
Qed.

Lemma click_nav_link_without_menu_witness :
  let w := Demo.world "Ada" in
  dispatch id_selector_engine (listeners (document w)) 2 Click w
  = ([],
     mkWorld (document w) 0 [] 0
       [PreventDefault; ScrollTo 920 "smooth"; Uncaught "TypeError"]
       0%Q 1000 [] ∅ ∅ ∅ ∅).
Proof.
  apply (click_nav_link_without_menu id_selector_engine (Demo.world "Ada") 2 4
           (Demo.tag "a" (Some 1%nat) [("href", "#about")] ["nav-link"])
           (Demo.block "section" "about" 1000 200) "#about");
    reflexivity.
Defined.

(** *** Typing into a field and leaving it *)

Section FieldEvents.

Context (querySelector : list Element -> string -> Completion (option node))
        (target : node).

Lemma validate_twice (w : World) : set_document (alter validated target) (set_document (alter validated target) w)
  = set_document (alter validated target) w.
Proof.
  rewrite set_document_twice. unfold set_document. f_equal.
  rewrite list_alter_alter_eq. apply list_alter_ext; [|done].
  intros x _. apply validated_twice.
Qed.

Lemma exec_validateField (w : World) :
  is_Some (document w !! target) -> exec (validateField target) w = set_document (alter validated target) w.
Proof. intros [e He]. unfold exec. by rewrite (validateField_eq w target e He). Qed.

Lemma notify_validateBasic (type : EventType) (w : World) :
  is_Some (document w !! target) ->
  run_listener querySelector target (InfoFieldInput target) w = (Normal None, set_document (alter validated target) w).
Proof.
  intros [e He]. cbn [run_listener]. unfold mbind, JSM_bind.
  rewrite validateBasic_eq. unfold field_blur, mbind, JSM_bind.
  by rewrite (validateField_eq w target e He).
Qed.

Lemma notify_field_blur (w : World) :
  is_Some (document w !! target) ->
  run_listener querySelector target FieldBlur w = (Normal None, set_document (alter validated target) w).
Proof.
  intros [e He]. cbn [run_listener]. unfold field_blur, mbind, JSM_bind.
  by rewrite (validateField_eq w target e He).
Qed.

Lemma notify_field_input (w : World) (e : Element) :
  document w !! target = Some e ->
  run_listener querySelector target FieldInput w
  = (Normal None, if contains e "is-invalid" then set_document (alter validated target) w else w).
Proof.
  intros He. cbn [run_listener]. unfold field_input. js2. rewrite He.
  destruct (contains e "is-invalid"); [|done].
  by rewrite (validateField_eq w target e He).
Qed.

Lemma validated_marked (e : Element) :
  contains (validated e) "is-invalid" = negb (checkValidity e).
Proof.
  unfold contains, validated. cbn [classList with_classList].
  destruct (checkValidity e); cbn.
  - apply bool_decide_eq_false_2. classes.
  - apply bool_decide_eq_true_2. classes.
Qed.


(** Listeners registered several per node: only those of the target run. *)
Lemma notify_bind (type : EventType) (f : node -> list Registration) (l : list node)
    (acc : list node * World) :
  (forall n, Forall (fun r => reg_target r = n) (f n)) ->
  NoDup l ->
  fold_left (notify querySelector target type) (l ≫= f) acc
  = if decide (target ∈ l)
    then fold_left (notify querySelector target type) (f target) acc
    else acc.
Proof.
  intros Hf Hl. revert acc. induction Hl as [|n l Hn Hl IH]; intros acc.
  - by rewrite decide_False by apply not_elem_of_nil.
  - cbn [mbind list_bind]. rewrite fold_left_app, IH.
    destruct (decide (n = target)) as [->|Hne].
    + rewrite (decide_False (P := target ∈ l)) by done.
      by rewrite decide_True by apply list_elem_of_here.
    + rewrite (notify_none _ _ _ (f n)).
      2:{ eapply Forall_impl; [apply Hf|]. intros r Hr. left. by rewrite Hr. }
      destruct (decide (target ∈ l)) as [Hi|Hi].
      * by rewrite decide_True by by apply list_elem_of_further.
      * rewrite decide_False; [done|].
        intros [?|?]%elem_of_cons; [congruence | done].
Qed.

Lemma nav_listeners_type (d : list Element) :
  Forall (fun r => reg_type r = Click)
    (initializeNavigation_listeners d ++ navbar_listeners d).
Proof.
  apply Forall_app. split; apply Forall_fmap, Forall_true; done.
Qed.


Lemma info_fields_input (d : list Element) (ids : list string) (w : World) :
  is_Some (document w !! target) ->
  fold_left (notify querySelector target Input)
    (omap (fun i => (fun el => mkRegistration el Input (InfoFieldInput el))
                      <$> getElementById d i) ids)
    ([], w)
  = ([], if existsb (fun i => bool_decide (getElementById d i = Some target)) ids
         then set_document (alter validated target) w else w).
Proof.
  revert w. induction ids as [|i ids IH]; intros w Hw; [done|].
  cbn [omap list_omap existsb].
  destruct (getElementById d i) as [n|]; cbn [fmap option_fmap option_map].
  - destruct (decide (n = target)) as [->|Hne].
    + rewrite bool_decide_eq_true_2 by done. cbn [orb fold_left].
      unfold notify at 2. cbn [reg_target reg_type reg_listener EventType_eqb snd fst].
      rewrite Nat.eqb_refl. cbn [andb].
      rewrite (notify_validateBasic Input) by done. cbn [option_list app].
      rewrite IH.
      * rewrite validate_twice. by destruct (existsb _ ids).
      * proj. rewrite list_lookup_alter_eq. by apply fmap_is_Some.
    + rewrite bool_decide_eq_false_2 by congruence. cbn [orb fold_left].
      rewrite notify_other_target by done. by apply IH.
  - rewrite bool_decide_eq_false_2 by done. cbn [orb]. by apply IH.
Qed.

Lemma enhance_listeners_event (type : EventType) (d : list Element) (acc : list node * World) :
  fold_left (notify querySelector target type) (enhanceFormInputs_listeners d) acc
  = if decide (target ∈ querySelectorAll is_form_input d)
    then fold_left (notify querySelector target type)
           [mkRegistration target Blur FieldBlur; mkRegistration target Input FieldInput]
           acc
    else acc.
Proof.
  unfold enhanceFormInputs_listeners.
  apply (notify_bind type
           (fun input => [mkRegistration input Blur FieldBlur;
                          mkRegistration input Input FieldInput])).
  - intros n. by repeat constructor.
  - apply all_from_NoDup.
Qed.

End FieldEvents.

(** X9: the events on a field, with the listeners of the page as loaded.
    Leaving a form control ([.form-control] or [.form-select]) validates
    it.  Typing into an element validates it when it is one of the three
    required fields of the info-request form, or a form control that is
    marked "is-invalid" at that moment; typing into any other element, a
    form control that was never marked invalid included, changes nothing.
    No listener throws and none clicks. *)
Theorem field_events
    (querySelector : list Element -> string -> Completion (option node))
    (w : World) (target : node) (e : Element) :
  document w !! target = Some e ->
  let d := document w in
  dispatch querySelector (listeners d) target Blur w
  = ([], if is_form_input e then exec (validateField target) w else w)
  /\ dispatch querySelector (listeners d) target Input w
     = ([], if info_field d target || (is_form_input e && contains e "is-invalid")
            then exec (validateField target) w else w).
Proof.
  intros He d.
  assert (is_Some (document w !! target)) as Hw by by eexists.
  rewrite (exec_validateField target w Hw).
  assert (forall type acc, type <> Click ->
            fold_left (notify querySelector target type)
              (initializeNavigation_listeners d) acc = acc) as Hnav.
  { intros type acc Htype. apply notify_none, Forall_fmap, Forall_true.
    intros n. right. cbn. congruence. }
  assert (forall type acc, type <> Click ->
            fold_left (notify querySelector target type) (navbar_listeners d) acc = acc)
    as Hbar.
  { intros type acc Htype. apply notify_none, Forall_fmap, Forall_true.
    intros n. right. cbn. congruence. }
  assert (target ∈ querySelectorAll is_form_input d <-> is_form_input e = true) as Hsel.
  { rewrite querySelectorAll_spec. split; [|by eauto].
    intros (e' & He' & HP). unfold d in He'. by assert (e' = e) as -> by congruence. }
  unfold dispatch, listeners. rewrite !fold_left_app, !Hnav, !Hbar by done.
  rewrite !enhance_listeners_event. split.
  - rewrite (notify_none _ _ _ (initializeInfoRequestForm_listeners d)).
    2:{ eapply Forall_impl; [apply info_listeners_type|]. intros r Hr. right. by rewrite Hr. }
    destruct (is_form_input e) eqn:Hinput.
    + rewrite decide_True by by apply Hsel. cbn [fold_left].
      rewrite (notify_other_type _ _ _ _ (mkRegistration target Input FieldInput)) by done.
      unfold notify. cbn [reg_target reg_type reg_listener EventType_eqb snd fst].
      rewrite Nat.eqb_refl. cbn [andb].
      by rewrite notify_field_blur.
    + rewrite decide_False; [done|]. rewrite Hsel. congruence.
  - unfold initializeInfoRequestForm_listeners, info_field.
    assert (forall W, fold_left (notify querySelector target Input)
              [mkRegistration target Blur FieldBlur; mkRegistration target Input FieldInput]
              ([], W)
            = notify querySelector target Input ([], W)
                (mkRegistration target Input FieldInput)) as Htwo.
    { intros W. cbn [fold_left].
      by rewrite (notify_other_type _ _ _ ([], W) (mkRegistration target Blur FieldBlur)). }
    assert (forall W e', document W !! target = Some e' ->
              notify querySelector target Input ([], W)
                (mkRegistration target Input FieldInput)
              = ([], if contains e' "is-invalid"
                     then set_document (alter validated target) W else W)) as Hinput.
    { intros W e' He'. unfold notify.
      cbn [reg_target reg_type reg_listener EventType_eqb snd fst].
      rewrite Nat.eqb_refl. cbn [andb].
      by rewrite (notify_field_input _ _ _ e' He'). }
    set (hit := existsb _ _).
    assert (fold_left (notify querySelector target Input)
              (match getElementById d "infoRequestForm" with
               | Some _ =>
                   omap (fun i => (fun el => mkRegistration el Input (InfoFieldInput el))
                                    <$> getElementById d i)
                     ["riFirstName"; "riLastName"; "riEmail"]
               | None => []
               end) ([], w)
            = ([], if bool_decide (is_Some (getElementById d "infoRequestForm")) && hit
                   then set_document (alter validated target) w else w)) as ->.
    { destruct (getElementById d "infoRequestForm") as [f|].
      - rewrite bool_decide_eq_true_2 by by eexists. cbn [andb].
        by apply info_fields_input.
      - rewrite bool_decide_eq_false_2 by by intros [? ?]. done. }
    destruct (bool_decide _ && hit); cbn [orb].
    + destruct (is_form_input e) eqn:Hin.
      * rewrite decide_True by by apply Hsel. rewrite Htwo.
        rewrite (Hinput _ (validated e)).
        -- rewrite validate_twice. by destruct (contains _ _).
        -- proj. by rewrite list_lookup_alter_eq, He.
      * rewrite decide_False; [done|]. rewrite Hsel. congruence.
    + destruct (is_form_input e) eqn:Hin; cbn [andb].
      * rewrite decide_True by by apply Hsel. rewrite Htwo. by apply Hinput.
      * rewrite decide_False; [done|]. rewrite Hsel. congruence.
Qed.

Lemma field_events_witness :
  let w := Demo.world EmptyString in
  dispatch id_selector_engine (listeners (document w)) 14 Blur w
  = ([], exec (validateField 14) w)
  /\ dispatch id_selector_engine (listeners (document w)) 14 Input w = ([], w).
Proof.
  apply (field_events id_selector_engine (Demo.world EmptyString) 14
           (Demo.control "firstName" 13 EmptyString Demo.required)).
  reflexivity.
Defined.

(** Typing into the first-name field of the info-request form marks it at
    once, although it was never left and never marked. *)
Example info_field_input :
  let w := Demo.world EmptyString in
  (fun e => contains e "is-invalid")
    <$> document (snd (dispatch id_selector_engine (listeners (document w)) 21 Input w))
        !! 21%nat
  = Some true.
Proof. vm_compute. reflexivity. Qed.

(** X2: [validateBasic], the input listener of the info-request form, does
    to a field exactly what the blur listener of [enhanceFormInputs] does
    through [validateField], although it removes only the opposite mark.
    Validating a field again changes nothing, and [validateBasic(null)]
    does nothing at all. *)
Theorem validateBasic_is_field_blur (w : World) (field : node) :
  validateBasic (Some field) w = field_blur field w
  /\ exec (validateBasic (Some field)) (exec (validateBasic (Some field)) w)
     = exec (validateBasic (Some field)) w
  /\ validateBasic None w = (Normal tt, w).
Proof.
  split; [apply validateBasic_eq|]. split; [|reflexivity].
  unfold exec. rewrite !validateBasic_eq. unfold field_blur, mbind, JSM_bind.
  destruct (document w !! field) as [e|] eqn:He.
  - rewrite (validateField_eq w field e He). cbn [snd mret JSM_ret].
    erewrite validateField_eq by (proj; by rewrite list_lookup_alter_eq, He).
    cbn [snd mret JSM_ret]. apply validate_twice.
  - assert (validateField field w = (Throw "TypeError", w)) as Hthrow.
    { unfold validateField. js2. by rewrite He. }
    rewrite Hthrow. cbn [snd]. by rewrite Hthrow.
Qed.

(** ** debounce *)

Section DebounceProperties.

Context {Args : Type} (wait : Z).


Lemma advance_idle (T : Z) (s : @Debounce.State Args) :
  Debounce.scheduled s = [] ->
  Debounce.advance T s
  = Debounce.mkState (Z.max (Debounce.clock s) T) [] (Debounce.next_id s)
      (Debounce.timeout s) (Debounce.calls s).
Proof. intros Hs. unfold Debounce.advance. rewrite Hs. cbn. by rewrite Hs. Qed.

Lemma advance_pending (T : Z) (s : @Debounce.State Args) (i : nat) (due : Z) (a : Args) :
  Debounce.scheduled s = [Debounce.mkLater i due a] ->
  Debounce.timeout s = Some i ->
  Debounce.clock s <= due ->
  Debounce.advance T s
  = if due <=? T
    then Debounce.mkState T [] (Debounce.next_id s) (Some i)
           (Debounce.calls s ++ [(due, a)])
    else Debounce.mkState (Z.max (Debounce.clock s) T) [Debounce.mkLater i due a]
           (Debounce.next_id s) (Some i) (Debounce.calls s).
Proof.
  intros Hs Ht Hc. unfold Debounce.advance. rewrite Hs. cbn. rewrite Hs. cbn.
  destruct (due <=? T) eqn:HT.
  - unfold Debounce.fire_later, Debounce.later. cbn. rewrite Ht, Hs. cbn.
    unfold Debounce.is_later. cbn. rewrite Nat.eqb_refl. cbn.
    f_equal; [lia|]. do 3 f_equal. lia.
  - by rewrite Hs, Ht.
Qed.


Lemma delivered_cons (t t' : Z) (a a' : Args) (rest : list (Z * Args)) :
  Debounce.delivered wait ((t, a) :: (t', a') :: rest)
  = if t + Debounce.delay wait <=? t'
    then (t + Debounce.delay wait, a) :: Debounce.delivered wait ((t', a') :: rest)
    else Debounce.delivered wait ((t', a') :: rest).
Proof. reflexivity. Qed.

(** From a state in which the call of [a] at time [t] is the last one. *)
Lemma run_calls_pending (schedule : list (Z * Args)) (T : Z)
    (s : @Debounce.State Args) (i : nat) (t : Z) (a : Args) :
  Debounce.scheduled s = [Debounce.mkLater i (t + Debounce.delay wait) a] ->
  Debounce.timeout s = Some i ->
  Debounce.clock s = t ->
  Debounce.ordered t schedule = true ->
  (forall t' a', last ((t, a) :: schedule) = Some (t', a') -> t' + Debounce.delay wait <= T) ->
  Debounce.calls (Debounce.advance T (Debounce.run_calls wait schedule s))
  = Debounce.calls s ++ Debounce.delivered wait ((t, a) :: schedule).
Proof.
  assert (0 <= Debounce.delay wait) as Hdelay by (unfold Debounce.delay; lia).
  revert s i t a. induction schedule as [|[t' a'] schedule IH]; intros s i t a Hs Ht Hc Hord HT.
  - cbn [Debounce.run_calls fold_left Debounce.delivered].
    rewrite (advance_pending T s i _ a Hs Ht) by lia.
    specialize (HT t a eq_refl).
    destruct (_ <=? T) eqn:Hle; [done | lia].
  - cbn [Debounce.ordered] in Hord. apply andb_true_iff in Hord as [Hle Hord].
    apply Z.leb_le in Hle.
    cbn [Debounce.run_calls fold_left]. unfold Debounce.call_at at 2. cbn [fst snd].
    rewrite (advance_pending t' s i _ a Hs Ht) by lia.
    change (fold_left (Debounce.call_at wait) schedule ?x)
      with (Debounce.run_calls wait schedule x).
    assert (forall t1 a1, last ((t', a') :: schedule) = Some (t1, a1) ->
              t1 + Debounce.delay wait <= T) as HT'.
    { intros t1 a1 Hlast. apply (HT t1 a1). by rewrite last_cons, Hlast. }
    rewrite delivered_cons.
    destruct (t + Debounce.delay wait <=? t') eqn:Hfire.
    + erewrite IH; [|..|exact HT']; try done.
      cbn. by rewrite <- app_assoc.
    + replace (Z.max (Debounce.clock s) t') with t' by lia.
      erewrite IH; [|..|exact HT']; try done.
      cbn. unfold Debounce.is_later. cbn. by rewrite Nat.eqb_refl.
Qed.

(** [debounce] as a function of the schedule of calls. *)
Lemma run_calls_delivered (schedule : list (Z * Args)) (T t0 : Z) :
  Debounce.ordered t0 schedule = true ->
  (forall t a, last schedule = Some (t, a) -> t + Debounce.delay wait <= T) ->
  Debounce.calls (Debounce.advance T (Debounce.run_calls wait schedule (Debounce.init t0)))
  = Debounce.delivered wait schedule.
Proof.
  destruct schedule as [|[t a] schedule]; [done|].
  intros Hord HT. cbn [Debounce.ordered] in Hord.
  apply andb_true_iff in Hord as [Hle Hord]. apply Z.leb_le in Hle.
  cbn [Debounce.run_calls fold_left]. unfold Debounce.call_at at 2. cbn [fst snd].
  change (fold_left (Debounce.call_at wait) schedule ?x)
    with (Debounce.run_calls wait schedule x).
  rewrite (advance_idle t (Debounce.init t0)) by reflexivity.
  cbn [Debounce.init Debounce.clock Debounce.next_id Debounce.timeout Debounce.calls].
  replace (Z.max t0 t) with t by lia.
  by rewrite (run_calls_pending schedule T _ 0 t a).
Qed.


Lemma delivered_burst (schedule : list (Z * Args)) (t : Z) (a : Args) :
  Debounce.gaps (fun t t' => t' <? t + Debounce.delay wait) schedule = true ->
  last schedule = Some (t, a) ->
  Debounce.delivered wait schedule = [(t + Debounce.delay wait, a)].
Proof.
  induction schedule as [|[t1 a1] schedule IH]; [done|].
  destruct schedule as [|[t2 a2] schedule].
  - intros _ [= -> ->]. reflexivity.
  - intros Hgaps Hlast. rewrite delivered_cons.
    cbn [Debounce.gaps] in Hgaps. apply andb_true_iff in Hgaps as [Hgap Hgaps].
    rewrite last_cons_cons in Hlast.
    destruct (_ <=? t2) eqn:Hle; [lia|]. by apply IH.
Qed.


(** The state of the closure between events: at most one [later] is
    pending, and [timeout] holds its identifier. *)
Lemma single_timer_advance (T : Z) (s : @Debounce.State Args) :
  (Debounce.scheduled s = []
   \/ exists l, Debounce.scheduled s = [l] /\ Debounce.timeout s = Some (Debounce.later_id l)) ->
  let s' := Debounce.advance T s in
  Debounce.scheduled s' = []
  \/ exists l, Debounce.scheduled s' = [l] /\ Debounce.timeout s' = Some (Debounce.later_id l).
Proof.
  intros [Hs | (l & Hs & Ht)]; unfold Debounce.advance; rewrite Hs; cbn.
  - by left.
  - rewrite Hs. cbn. destruct (_ <=? T).
    + left. unfold Debounce.fire_later, Debounce.later. cbn. rewrite Ht, Hs. cbn.
      unfold Debounce.is_later. by rewrite Nat.eqb_refl.
    + right. exists l. by rewrite Hs, Ht.
Qed.

Lemma single_timer_call (a : Args) (s : @Debounce.State Args) :
  (Debounce.scheduled s = []
   \/ exists l, Debounce.scheduled s = [l] /\ Debounce.timeout s = Some (Debounce.later_id l)) ->
  exists l, Debounce.scheduled (Debounce.executedFunction wait a s) = [l]
    /\ Debounce.timeout (Debounce.executedFunction wait a s) = Some (Debounce.later_id l)
    /\ Debounce.later_args l = a.
Proof.
  intros [Hs | (l & Hs & Ht)]; unfold Debounce.executedFunction, Debounce.clearTimeout.
  - exists (Debounce.mkLater (Debounce.next_id s)
              (Debounce.clock s + Z.max 0 wait) a).
    destruct (Debounce.timeout s); cbn; by rewrite Hs.
  - exists (Debounce.mkLater (Debounce.next_id s)
              (Debounce.clock s + Z.max 0 wait) a).
    rewrite Ht. cbn. rewrite Hs. cbn.
    unfold Debounce.is_later. by rewrite Nat.eqb_refl.
Qed.

End DebounceProperties.

(** X10: a burst of calls is passed on once.  When every call of the
    debounced function comes less than the delay after the one before it,
    [func] is called exactly once: with the arguments of the last call, one
    delay after it. *)
Theorem debounce_burst {Args : Type} (wait : Z) (schedule : list (Z * Args))
    (t0 T t : Z) (a : Args) :
  Debounce.ordered t0 schedule = true ->
  Debounce.gaps (fun t t' => t' <? t + Debounce.delay wait) schedule = true ->
  last schedule = Some (t, a) ->
  t + Debounce.delay wait <= T ->
  Debounce.calls (Debounce.advance T (Debounce.run_calls wait schedule (Debounce.init t0)))
  = [(t + Debounce.delay wait, a)].
Proof.
  intros Hord Hgaps Hlast HT.
  rewrite (run_calls_delivered wait schedule T t0 Hord).
  - by apply delivered_burst.
  - intros t' a' Hlast'. rewrite Hlast in Hlast'. by injection Hlast' as <- <-.
Qed.

Lemma debounce_burst_witness :
  Debounce.calls
    (Debounce.advance 1000
       (Debounce.run_calls 100 [(0, "s"); (50, "sc"); (120, "scr")] (Debounce.init 0)))
  = [(220, "scr")].
Proof.
  apply (debounce_burst 100 [(0, "s"); (50, "sc"); (120, "scr")] 0 1000 120 "scr").
  - reflexivity.
  - reflexivity.
  - reflexivity.
  - unfold Debounce.delay. lia.
Defined.



(** X12: whatever the calls and whenever they come, the debounced function
    keeps at most one timer pending: after a call exactly one, which holds
    the arguments of that call and is the one [timeout] refers to; and
    time passing only lets it fire.  No call of the debounced function
    calls [func] itself. *)
Theorem debounce_single_timer {Args : Type} (wait : Z) (schedule : list (Z * Args))
    (t0 T : Z) :
  let s := Debounce.run_calls wait schedule (Debounce.init t0) in
  (length (Debounce.scheduled (Debounce.advance T s)) <= 1)%nat
  /\ (forall t a, last schedule = Some (t, a) ->
        exists l, Debounce.scheduled s = [l]
          /\ Debounce.timeout s = Some (Debounce.later_id l)
          /\ Debounce.later_args l = a)
  /\ (forall (a : Args) s',
        Debounce.calls (Debounce.executedFunction wait a s') = Debounce.calls s').
Proof.
  intros s.
  assert (forall (s0 : @Debounce.State Args),
            (Debounce.scheduled s0 = []
             \/ exists l, Debounce.scheduled s0 = [l]
                  /\ Debounce.timeout s0 = Some (Debounce.later_id l)) ->
            let s1 := Debounce.run_calls wait schedule s0 in
            (Debounce.scheduled s1 = []
             \/ exists l, Debounce.scheduled s1 = [l]
                  /\ Debounce.timeout s1 = Some (Debounce.later_id l))
            /\ forall t a, last schedule = Some (t, a) ->
                 exists l, Debounce.scheduled s1 = [l]
                   /\ Debounce.timeout s1 = Some (Debounce.later_id l)
                   /\ Debounce.later_args l = a) as Hrun.
  { induction schedule as [|[t a] rest IH] using rev_ind; intros s0 Hs0.
    - split; [exact Hs0 | done].
    - cbn zeta. unfold Debounce.run_calls. rewrite fold_left_app. cbn [fold_left].
      change (fold_left (Debounce.call_at wait) rest s0)
        with (Debounce.run_calls wait rest s0).
      destruct (IH s0 Hs0) as [Hinv _].
      destruct (single_timer_call wait a _ (single_timer_advance t _ Hinv))
        as (l & Hl & Htl & Hal).
      unfold Debounce.call_at. cbn [fst snd]. split.
      + right. exists l. by split.
      + intros t' a' Hlast. rewrite last_snoc in Hlast. injection Hlast as <- <-.
        exists l. by repeat split. }
  destruct (Hrun (Debounce.init t0)) as [Hinv Hlast]; [by left|].
  split; [|split; [exact Hlast|]].
  - unfold s. destruct (single_timer_advance T _ Hinv) as [Hs | (l & Hs & _)];
      rewrite Hs; cbn; lia.
  - intros a s'. unfold Debounce.executedFunction, Debounce.clearTimeout.
    by destruct (Debounce.timeout s').
Qed.

(** ** The counter animation, tick by tick *)

Section Ramp.

Context (el : node) (target : float) (suffix : string) (id : nat) (t0 : Z).

Lemma ramp_state_start (w : World) :
  is_Some (document w !! el) ->
  pending (next_timer w) w = false ->
  ramp_state el target suffix (next_timer w) (now w) 0
    (exec (animateCounter el target suffix) w).
Proof.
  intros [e He] Hfresh. unfold animateCounter. js. repeat split; proj.
  - rewrite find_app_none by by apply pending_find.
    cbn. by rewrite Nat.eqb_refl.
  - lia.
  - rewrite list_lookup_alter_eq, He. by eexists.
  - done.
Qed.


Lemma ramp_state_tick (n : nat) (w : World) :
  ramp_state el target suffix id t0 n w ->
  (target <=? ramp target (S n))%float = false ->
  ramp_state el target suffix id t0 (S n) (tick id w).
Proof.
  intros (Hfind & Hnow & [e He] & _) Hbelow. unfold tick. rewrite Hfind.
  unfold fire, task. cbn [callback timer_id run_callback]. unfold counterTick.
  change (ramp target n + target / 50)%float with (ramp target (S n)).
  rewrite Hbelow. js. unfold ramp_state. proj.
  unfold rearm. cbn [repeat timer_id due].
  rewrite !find_is_timer_fmap, Hfind.
  - cbn [fmap option_fmap option_map]. unfold is_timer at 1 2. cbn [timer_id].
    rewrite Nat.eqb_refl. unfold is_timer. cbn [timer_id]. rewrite Nat.eqb_refl.
    unfold with_current. cbn [callback timer_id due repeat].
    repeat split.
    + do 2 f_equal. lia.
    + lia.
    + rewrite list_lookup_alter_eq, He. by eexists.
    + intros _. by rewrite list_lookup_alter_eq, He.
  - intros t. by destruct (is_timer id t).
  - intros t. destruct (is_timer id t); [|reflexivity].
    unfold with_current. by destruct (callback t).
Qed.

Lemma ramp_state_ticks (n : nat) (w : World) :
  ramp_state el target suffix id t0 0 w ->
  below target n = true ->
  ramp_state el target suffix id t0 n (Nat.iter n (tick id) w).
Proof.
  intros Hstart. induction n as [|n IH]; intros Hbelow; [exact Hstart|].
  unfold below in Hbelow. rewrite seq_S, forallb_app in Hbelow.
  apply andb_true_iff in Hbelow as [Hbelow Hlast].
  cbn in Hlast. rewrite andb_true_r in Hlast. apply negb_true_iff in Hlast.
  cbn [Nat.iter nat_rect]. apply ramp_state_tick; [by apply IH | exact Hlast].
Qed.

Lemma ramp_state_done (n : nat) (w : World) :
  ramp_state el target suffix id t0 n w ->
  (target <=? ramp target (S n))%float = true ->
  pending id (tick id w) = false
  /\ now (tick id w) = t0 + 40 * (Z.of_nat n + 1)
  /\ textContent <$> document (tick id w) !! el = Some (final_text target suffix).
Proof.
  intros (Hfind & Hnow & [e He] & _) Hreached. unfold tick. rewrite Hfind.
  unfold fire, task. cbn [callback timer_id run_callback]. unfold counterTick.
  change (ramp target n + target / 50)%float with (ramp target (S n)).
  rewrite Hreached. js. proj. repeat split.
  - unfold pending. proj. apply not_true_is_false. intros Hex.
    apply existsb_exists in Hex as (t & Hin & Ht).
    apply list_elem_of_In, list_elem_of_fmap in Hin as (t' & -> & Hin).
    apply list_elem_of_filter in Hin as [Hne _].
    destruct (is_timer id t') eqn:Hid; [done|].
    congruence.
  - cbn [due]. lia.
  - by rewrite list_lookup_alter_eq, He.
Qed.

Lemma ramp_state_pending (n : nat) (w : World) :
  ramp_state el target suffix id t0 n w ->
  pending id w = true /\ accumulator id w = Some (ramp target n).
Proof.
  intros (Hfind & _). unfold accumulator. rewrite Hfind. split; [|done].
  unfold pending. apply existsb_exists.
  destruct (find_some _ _ Hfind) as [Hin Hid]. eauto.
Qed.

End Ramp.

Lemma below_le (target : float) (n m : nat) :
  (n <= m)%nat -> below target m = true -> below target n = true.
Proof.
  intros Hle. unfold below. rewrite !forallb_forall.
  intros Hm k Hk. apply Hm. apply in_seq. apply in_seq in Hk. lia.
Qed.

(** X13: the animation is a ramp in steps of [target / 50].  As long as
    the ticks so far have not taken the accumulator to the target, the
    interval is still pending after tick [n], 40 ms after the one before;
    the accumulator is the sum of [n] increments, added one by one in
    floating point, and the element shows its floor, formatted, followed by
    the suffix.  The first tick that reaches the target ends the animation
    and shows the target itself.  The target is at most 2^53 in magnitude,
    so that every number shown is an integer [toLocaleString] prints with
    all its digits. *)
Theorem animateCounter_ramp (w : World) (el : node) (target : float)
    (suffix : string) (n : nat) :
  is_Some (document w !! el) ->
  pending (next_timer w) w = false ->
  (abs target <=? 9007199254740992)%float = true ->
  below target n = true ->
  let timer := next_timer w in
  let w' := Nat.iter n (tick timer) (exec (animateCounter el target suffix) w) in
  pending timer w' = true
  /\ accumulator timer w' = Some (ramp target n)
  /\ now w' = now w + 40 * Z.of_nat n
  /\ (n <> 0%nat ->
      textContent <$> document w' !! el
      = Some (JS.toLocaleString (JS.Math_floor (ramp target n)) +:+ suffix))
  /\ ((target <=? ramp target (S n))%float = true ->
      pending timer (tick timer w') = false
      /\ now (tick timer w') = now w + 40 * (Z.of_nat n + 1)
      /\ textContent <$> document (tick timer w') !! el
         = Some (JS.toLocaleString (JS.Math_floor target) +:+ suffix)).
Proof.
  intros Hel Hfresh Hexact Hbelow timer w'.
  pose proof (ramp_state_ticks el target suffix timer (now w) n _
                (ramp_state_start el target suffix w Hel Hfresh) Hbelow) as Hstate.
  fold w' in Hstate.
  destruct (ramp_state_pending _ _ _ _ _ _ _ Hstate) as [Hpending Hacc].
  split; [done|]. split; [done|].
  destruct Hstate as (Hfind & Hnow & He & Htext).
  split; [done|]. split; [done|].
  intros Hreached.
  by apply (ramp_state_done el target suffix timer (now w) n).
Qed.

Lemma animateCounter_ramp_witness :
  let w' := Nat.iter 25 (tick 0)
              (exec (animateCounter 8 500000%float "+") (Demo.world "Ada")) in
  pending 0 w' = true
  /\ accumulator 0 w' = Some 250000%float
  /\ now w' = 1000
  /\ textContent <$> document w' !! 8%nat = Some "250,000+".
Proof.
  destruct (animateCounter_ramp (Demo.world "Ada") 8 500000%float "+" 25)
    as (Hpending & Hacc & Hnow & Htext & _).
  - vm_compute. eexists. reflexivity.
  - reflexivity.
  - vm_compute. reflexivity.
  - vm_compute. reflexivity.
  - split; [exact Hpending|]. split; [exact Hacc|]. split; [exact Hnow|].
    apply Htext. discriminate.
Defined.

(** A target whose ramp stays below it for 49 ticks and reaches it with
    the 50th. *)
Lemma fifty_ticks (w : World) (el : node) (target : float) (text suffix : string) :
  is_Some (document w !! el) ->
  pending (next_timer w) w = false ->
  below target 49 = true ->
  (target <=? ramp target 50)%float = true ->
  JS.toLocaleString (JS.Math_floor target) = text ->
  let timer := next_timer w in
  let start := exec (animateCounter el target suffix) w in
  (forall n, (n < 50)%nat -> pending timer (Nat.iter n (tick timer) start) = true)
  /\ pending timer (Nat.iter 50 (tick timer) start) = false
  /\ now (Nat.iter 50 (tick timer) start) = now w + 2000
  /\ textContent <$> document (Nat.iter 50 (tick timer) start) !! el
     = Some (text +:+ suffix).
Proof.
  intros Hel Hfresh Hbelow Hreached Htext timer start.
  pose proof (ramp_state_start el target suffix w Hel Hfresh) as Hstart.
  split.
  - intros n Hn.
    eapply ramp_state_pending, ramp_state_ticks; [exact Hstart|].
    apply (below_le target n 49); [lia | done].
  - pose proof (ramp_state_ticks el target suffix timer (now w) 49 _ Hstart Hbelow) as H49.
    destruct (ramp_state_done el target suffix timer (now w) 49 _ H49 Hreached)
      as (Hdone & Hnow & Hfinal).
    rewrite !(Nat.iter_succ 49). fold timer start in Hdone, Hnow, Hfinal.
    split; [done|]. split; [rewrite Hnow; lia|].
    rewrite Hfinal. unfold final_text. by rewrite Htext.
Qed.

(** X14: each of the four counters the page configures (71000, 150, 9000
    and 500000) takes exactly the 50 steps the script plans: the interval
    is pending after every tick before the 50th, and the 50th, 2000 ms
    after the start, ends the animation with the formatted target and the
    suffix. *)
Theorem configured_counters_take_50_ticks (w : World) (el : node)
    (target : float) (text suffix : string) :
  is_Some (document w !! el) ->
  pending (next_timer w) w = false ->
  In (target, text)
    [ (71000%float, "71,000"); (150%float, "150");
      (9000%float, "9,000"); (500000%float, "500,000") ] ->
  let timer := next_timer w in
  let start := exec (animateCounter el target suffix) w in
  (forall n, (n < 50)%nat -> pending timer (Nat.iter n (tick timer) start) = true)
  /\ pending timer (Nat.iter 50 (tick timer) start) = false
  /\ now (Nat.iter 50 (tick timer) start) = now w + 2000
  /\ textContent <$> document (Nat.iter 50 (tick timer) start) !! el
     = Some (text +:+ suffix).
Proof.
  intros Hel Hfresh Hconfigured.
  assert (below target 49 = true
          /\ (target <=? ramp target 50)%float = true
          /\ JS.toLocaleString (JS.Math_floor target) = text) as (Hbelow & Hreached & Htext).
  { cbn [In] in Hconfigured.
    destruct Hconfigured as [[= <- <-] | [[= <- <-] | [[= <- <-] | [[= <- <-] | []]]]];
      vm_compute; repeat split; reflexivity. }
  by apply fifty_ticks.
Qed.

Lemma configured_counters_take_50_ticks_witness :
  let start := exec (animateCounter 6 71000%float "+") (Demo.world "Ada") in
  (forall n, (n < 50)%nat -> pending 0 (Nat.iter n (tick 0) start) = true)
  /\ pending 0 (Nat.iter 50 (tick 0) start) = false
  /\ now (Nat.iter 50 (tick 0) start) = 2000
  /\ textContent <$> document (Nat.iter 50 (tick 0) start) !! 6%nat = Some "71,000+".
Proof.
  assert (is_Some (document (Demo.world "Ada") !! 6%nat)) as Hel
    by (vm_compute; eexists; reflexivity).
  exact (configured_counters_take_50_ticks (Demo.world "Ada") 6 71000%float
           "71,000" "+" Hel eq_refl (or_introl eq_refl)).
Defined.

(** X26: the counters of the TechForward variant.  Its targets 2847, 15
    and 12500 take exactly 50 ticks as well; of its four counters only the
    placement rate, 94, needs a 51st. *)
Theorem techforward_counters_take_50_ticks (w : World) (el : node)
    (target : float) (text suffix : string) :
  is_Some (document w !! el) ->
  pending (next_timer w) w = false ->
  In (target, text)
    [ (2847%float, "2,847"); (15%float, "15"); (12500%float, "12,500") ] ->
  let timer := next_timer w in
  let start := exec (animateCounter el target suffix) w in
  ((forall n, (n < 50)%nat -> pending timer (Nat.iter n (tick timer) start) = true)
   /\ pending timer (Nat.iter 50 (tick timer) start) = false
   /\ now (Nat.iter 50 (tick timer) start) = now w + 2000
   /\ textContent <$> document (Nat.iter 50 (tick timer) start) !! el
      = Some (text +:+ suffix))
  /\ below 94 50 = true.
Proof.
  intros Hel Hfresh Hconfigured.
  assert (below target 49 = true
          /\ (target <=? ramp target 50)%float = true
          /\ JS.toLocaleString (JS.Math_floor target) = text) as (Hbelow & Hreached & Htext).
  { cbn [In] in Hconfigured.
    destruct Hconfigured as [[= <- <-] | [[= <- <-] | [[= <- <-] | []]]];
      vm_compute; repeat split; reflexivity. }
  split; [by apply fifty_ticks | by vm_compute].
Qed.

Lemma techforward_counters_take_50_ticks_witness :
  let start := exec (animateCounter 6 2847%float EmptyString) (Demo.world "Ada") in
  ((forall n, (n < 50)%nat -> pending 0 (Nat.iter n (tick 0) start) = true)
   /\ pending 0 (Nat.iter 50 (tick 0) start) = false
   /\ now (Nat.iter 50 (tick 0) start) = 2000
   /\ textContent <$> document (Nat.iter 50 (tick 0) start) !! 6%nat = Some "2,847")
  /\ below 94 50 = true.
Proof.
  assert (is_Some (document (Demo.world "Ada") !! 6%nat)) as Hel
    by (vm_compute; eexists; reflexivity).
  exact (techforward_counters_take_50_ticks (Demo.world "Ada") 6 2847%float
           "2,847" EmptyString Hel eq_refl (or_introl eq_refl)).
Defined.

(** ** Elements that never come into view *)

Lemma DOMContentLoaded_document (w : World) :
  document (exec DOMContentLoaded w) = document w.
Proof.
  assert (stable (fun w' => document w' = document w) DOMContentLoaded) as H.
  { unfold DOMContentLoaded, initializeCounters, initializeScrollEffects,
      initializeNavigation, initializeInfoRequestForm, initializeRevealAnimations, observe.
    stable_steps ltac:(by intros ?). }
  by apply H.
Qed.

Section Untouched.

Context (el : node) (x : option Element).

Lemma untouched_alter (f : Element -> Element) (n : node) (w : World) :
  n <> el -> untouched el x w -> untouched el x (set_document (alter f n) w).
Proof.
  intros Hne (Hd & Ha & Ht). repeat split; [|done|done].
  proj. by rewrite list_lookup_alter_ne.
Qed.

Lemma untouched_log (c : HostCall) (w : World) :
  starts_animation el c = false -> untouched el x w -> untouched el x (log_call c w).
Proof.
  intros Hc (Hd & Ha & Ht). repeat split; [done| |done].
  rewrite animations_log_call, Hc. lia.
Qed.

Lemma untouched_observer (w w' : World) :
  document w' = document w -> trace w' = trace w -> timers w' = timers w ->
  untouched el x w -> untouched el x w'.
Proof.
  intros Hd Htr Ht (? & ? & ?). unfold untouched, animations. by rewrite Hd, Htr, Ht.
Qed.

Lemma counterObserver_entry_untouched (entry : Entry) (w : World) :
  (entry_target entry = el -> isIntersecting entry = false) ->
  untouched el x w -> untouched el x (exec (counterObserver_entry entry) w).
Proof.
  intros Hentry Hw. unfold counterObserver_entry, exec.
  destruct (isIntersecting entry) eqn:Hi; js; [|done].
  assert (entry_target entry <> el) as Hne by (intros Heq; specialize (Hentry Heq); congruence).
  destruct (find _ (counters w)) as [counter|] eqn:Hfind; [|done].
  apply find_some in Hfind as [_ Hel%bool_decide_eq_true].
  rewrite Hel. js.
  destruct (document w !! entry_target entry) as [e|] eqn:He; js; [|done].
  destruct (contains e "counting"); cbn [negb]; [done|].
  unfold animateCounter. js.
  destruct Hw as (Hd & Ha & Ht). repeat split; proj.
  - by rewrite list_lookup_alter_ne.
  - unfold animations in *. proj. rewrite List.filter_app, length_app, Ha.
    cbn [List.filter starts_animation].
    by rewrite (proj2 (Nat.eqb_neq _ _) Hne).
  - apply Forall_app. split; [done|]. by repeat constructor.
Qed.

Lemma fadeObserver_entry_untouched (entry : Entry) (w : World) :
  (entry_target entry = el -> isIntersecting entry = false) ->
  untouched el x w -> untouched el x (exec (fadeObserver_entry entry) w).
Proof.
  intros Hentry Hw. unfold fadeObserver_entry, exec.
  destruct (isIntersecting entry) eqn:Hi; js; [|done].
  apply untouched_alter; [|done]. intros Heq. specialize (Hentry Heq). congruence.
Qed.

Lemma revealObserver_entry_untouched (entry : Entry) (w : World) :
  (entry_target entry = el -> isIntersecting entry = false) ->
  untouched el x w -> untouched el x (exec (revealObserver_entry entry) w).
Proof.
  intros Hentry Hw. unfold revealObserver_entry, exec.
  destruct (isIntersecting entry) eqn:Hi; js; [|done].
  assert (entry_target entry <> el) as Hne by (intros Heq; specialize (Hentry Heq); congruence).
  destruct (document w !! entry_target entry) as [e|]; [|done].
  destruct (truthy (getAttribute e "data-delay")); js.
  - eapply untouched_observer; [| | |apply untouched_alter, untouched_alter; done]; done.
  - eapply untouched_observer; [| | |apply untouched_alter; done]; done.
Qed.


Lemma untouched_rearm (t : Timer) (ts : list Timer) :
  Forall (animates_other el) ts -> Forall (animates_other el) (rearm t ts).
Proof.
  intros H. unfold rearm. destruct (repeat t).
  - apply Forall_fmap. eapply Forall_impl; [exact H|].
    intros t' Ht'. cbn. by destruct (is_timer (timer_id t) t').
  - by apply Forall_filter_keep.
Qed.

Lemma untouched_store (id : nat) (cur : float) (ts : list Timer) :
  Forall (animates_other el) ts ->
  Forall (animates_other el)
    ((fun t => if is_timer id t then with_current cur t else t) <$> ts).
Proof.
  intros H. apply Forall_fmap. eapply Forall_impl; [exact H|].
  intros t Ht. cbn. destruct (is_timer id t); [|done].
  unfold with_current, animates_other in *. by destruct (callback t).
Qed.

Lemma tick_untouched (id : nat) (w : World) :
  untouched el x w -> untouched el x (tick id w).
Proof.
  intros (Hd & Ha & Hts). unfold tick.
  destruct (find (is_timer id) (timers w)) as [t|] eqn:Hfind; [|done].
  assert (animates_other el t) as Ht.
  { apply find_some in Hfind as [Hin _].
    rewrite Forall_forall in Hts. by apply Hts, list_elem_of_In. }
  unfold animates_other in Ht. unfold fire, task.
  destruct (callback t) as [el' target suffix inc cur| | |]; try done.
  cbn [run_callback]. unfold counterTick.
  destruct (target <=? cur + inc)%float; js.
  - repeat split; proj.
    + by rewrite list_lookup_alter_ne.
    + unfold animations in *. proj. rewrite List.filter_app, length_app, Ha. done.
    + by apply untouched_store, Forall_filter_keep, untouched_rearm.
  - repeat split; proj.
    + by rewrite list_lookup_alter_ne.
    + done.
    + by apply untouched_store, untouched_rearm.
Qed.

Lemma intersect_untouched (entries : list Entry) (w : World) :
  unseen el (Intersect entries) = true ->
  untouched el x w -> untouched el x (intersect entries w).
Proof.
  intros Hunseen Hw. cbn [unseen] in Hunseen. rewrite forallb_forall in Hunseen.
  assert (forall targets entry, entry ∈ watched targets entries ->
            entry_target entry = el -> isIntersecting entry = false) as Hentry.
  { intros targets entry [_ Hin]%elem_of_watched Heq.
    specialize (Hunseen entry (proj1 (list_elem_of_In _ _) Hin)).
    rewrite Heq, Nat.eqb_refl in Hunseen. by destruct (isIntersecting entry). }
  assert (forall err w, untouched el x w -> untouched el x (log_call (Uncaught err) w))
    as Herr by (intros err w'; by apply untouched_log).
  assert (forall (f : Entry -> JSM unit) (l : list Entry) w,
            (forall entry w, entry ∈ l -> untouched el x w -> untouched el x (exec (f entry) w)) ->
            untouched el x w -> untouched el x (task (forEach l f) w)) as Hloop.
  { intros f l w' Hf Hw'. apply (task_preserves (untouched el x)); [|done|done].
    clear Hw'. revert Hf. induction l as [|entry l IH]; intros Hf w1 Hw1; [done|].
    unfold exec. cbn [forEach]. unfold mbind, JSM_bind.
    pose proof (Hf entry w1 (list_elem_of_here _ _) Hw1) as H1. unfold exec in H1.
    destruct (f entry w1) as [[[]|err] w2]; [|done].
    apply IH; [|done]. intros e' w3 He'. apply Hf. by apply list_elem_of_further. }
  unfold intersect, counterObserver_callback, fadeObserver_callback, revealObserver_callback.
  apply Hloop.
  { intros entry w' Hin. apply revealObserver_entry_untouched. by eapply Hentry. }
  apply Hloop.
  { intros entry w' Hin. apply fadeObserver_entry_untouched. by eapply Hentry. }
  apply Hloop; [|done].
  intros entry w' Hin. apply counterObserver_entry_untouched. by eapply Hentry.
Qed.

Lemma run_untouched (events : list Event) (w : World) :
  forallb (unseen el) events = true ->
  untouched el x w -> untouched el x (run events w).
Proof.
  revert w. induction events as [|ev events IH]; intros w Hev Hw; [done|].
  cbn [forallb] in Hev. apply andb_true_iff in Hev as [Hev Hevents].
  cbn [run fold_left]. apply IH; [done|].
  destruct ev as [entries|timer]; cbn [step].
  - by apply intersect_untouched.
  - by apply tick_untouched.
Qed.

End Untouched.

(** X15: an element that is never reported as intersecting is never
    touched.  From page load on, whatever else the browser reports and
    whichever timers fire, its animation is not started, and the element is
    exactly as it was before the page loaded: no class added, no text
    written. *)
Theorem unseen_element_untouched (w0 : World) (events : list Event) (el : node) :
  timers w0 = [] ->
  trace w0 = [] ->
  forallb (unseen el) events = true ->
  let w := run events (exec DOMContentLoaded w0) in
  animations el w = 0%nat /\ document w !! el = document w0 !! el.
Proof.
  intros Ht Htr Hunseen w.
  assert (untouched el (document w0 !! el) w) as (Hd & Ha & _); [|done].
  apply run_untouched; [done|].
  destruct (DOMContentLoaded_fresh w0) as [Ht' Ha'].
  { split; [done|]. intros el'. unfold animations. by rewrite Htr. }
  repeat split.
  - by rewrite DOMContentLoaded_document.
  - apply Ha'.
  - rewrite Ht'. constructor.
Qed.

Lemma unseen_element_untouched_witness :
  let events :=
    [ Intersect [mkEntry 7 true; mkEntry 6 false]; Tick 0; Intersect [mkEntry 10 true];
      Tick 0; Intersect [mkEntry 6 false; mkEntry 11 true] ] in
  let w := run events (exec DOMContentLoaded (Demo.world "Ada")) in
  animations 6 w = 0%nat /\ document w !! 6%nat = document (Demo.world "Ada") !! 6%nat.
Proof.
  intros events.
  apply (unseen_element_untouched (Demo.world "Ada") events 6); reflexivity.
Defined.

(** ** Counters that come into view *)

Lemma started_grows (el : node) (target : float) (suffix : string) (c : HostCall) (w : World) :
  started el target suffix w -> started el target suffix (log_call c w).
Proof. intros [id Hid]. exists id. proj. apply elem_of_app. by left. Qed.

Lemma initializeCounters_eq (w : World) :
  let d := document w in
  let counters :=
    [ mkCounter (getElementById d "student-count") 71000%float "+";
      mkCounter (getElementById d "program-count") 150%float "+";
      mkCounter (getElementById d "faculty-count") 9000%float "+";
      mkCounter (getElementById d "alumni-count") 500000%float "+" ] in
  initializeCounters w
  = (Normal tt,
     set_counterObserver
       (fun targets =>
          foldl (fun targets c =>
                   match counter_element c with
                   | Some el => targets ∪ {[el]}
                   | None => targets
                   end) targets counters)
       (set_counters counters w)).
Proof.
  intros d counters. unfold initializeCounters. js. fold d. fold counters.
  cbn [forEach]. js. unfold observe. js.
  destruct w as [d0 nw ts nt tr sy ih cs co fo ro ms]. cbn in d. subst d. subst counters.
  repeat match goal with |- context [getElementById d0 ?i] =>
    destruct (getElementById d0 i) end; reflexivity.
Qed.

Lemma find_configured (d : list Element) (i : string) (target : float)
    (suffix : string) (el : node) :
  In (i, target, suffix) configured ->
  getElementById d i = Some el ->
  find (is_counter_of el)
    [ mkCounter (getElementById d "student-count") 71000%float "+";
      mkCounter (getElementById d "program-count") 150%float "+";
      mkCounter (getElementById d "faculty-count") 9000%float "+";
      mkCounter (getElementById d "alumni-count") 500000%float "+" ]
  = Some (mkCounter (Some el) target suffix).
Proof.
  intros Hin Hel.
  assert (forall j, j <> i -> is_counter_of el (mkCounter (getElementById d j) 0 EmptyString)
                              = false) as Hother.
  { intros j Hne. unfold is_counter_of. cbn [counter_element].
    apply bool_decide_eq_false_2. intros Hj.
    by apply (getElementById_distinct d j i el el Hne Hj Hel). }
  assert (forall j t s, is_counter_of el (mkCounter (getElementById d j) t s)
                        = is_counter_of el (mkCounter (getElementById d j) 0 EmptyString))
    as Hshape by done.
  cbn [In configured] in Hin.
  destruct Hin as [[= <- <- <-] | [[= <- <- <-] | [[= <- <- <-] | [[= <- <- <-] | []]]]];
    cbn [find];
    repeat (rewrite Hshape, Hother by discriminate);
    rewrite Hel; unfold is_counter_of; cbn [counter_element];
    by rewrite bool_decide_eq_true_2.
Qed.

Lemma observed_configured (d : list Element) (i : string) (target : float)
    (suffix : string) (el : node) (targets : gset node) :
  In (i, target, suffix) configured ->
  getElementById d i = Some el ->
  el ∈ foldl (fun targets c =>
                match counter_element c with
                | Some el => targets ∪ {[el]}
                | None => targets
                end) targets
         [ mkCounter (getElementById d "student-count") 71000%float "+";
           mkCounter (getElementById d "program-count") 150%float "+";
           mkCounter (getElementById d "faculty-count") 9000%float "+";
           mkCounter (getElementById d "alumni-count") 500000%float "+" ].
Proof.
  intros Hin Hel. cbn [foldl counter_element].
  cbn [In configured] in Hin.
  destruct Hin as [[= <- <- <-] | [[= <- <- <-] | [[= <- <- <-] | [[= <- <- <-] | []]]]];
    rewrite Hel;
    repeat match goal with |- context [match getElementById d ?j with _ => _ end] =>
             destruct (getElementById d j) end;
    set_unfold; tauto.
Qed.

Lemma exec_bind {A B} (m : JSM A) (k : A -> JSM B) (a : A) (w w1 : World) :
  m w = (Normal a, w1) -> exec (m ≫= k) w = exec (k a) w1.
Proof. intros Hm. unfold exec, mbind, JSM_bind. by rewrite Hm. Qed.

Lemma loaded_waiting (w0 : World) (i : string) (target : float) (suffix : string)
    (el : node) (e : Element) :
  In (i, target, suffix) configured ->
  getElementById (document w0) i = Some el ->
  document w0 !! el = Some e ->
  contains e "counting" = false ->
  let w := exec DOMContentLoaded w0 in
  waiting el target suffix w /\ el ∈ counterObserver w.
Proof.
  intros Hin Hel He Hcounting w. unfold w, DOMContentLoaded.
  erewrite exec_bind by reflexivity.
  erewrite exec_bind by apply initializeCounters_eq.
  set (P := fun w : World =>
              waiting el target suffix w /\ el ∈ counterObserver w).
  assert (forall m : JSM unit, stable P m -> forall w, P w -> P (exec m w)) as Hstable by done.
  apply Hstable.
  - unfold initializeScrollEffects, initializeNavigation, initializeInfoRequestForm,
      initializeRevealAnimations, observe.
    stable_steps ltac:(by intros ? [? ?]).
  - split; [split|]; proj.
    + by apply find_configured with i.
    + by exists e.
    + by eapply observed_configured.
Qed.

Section Seen.

Context (el : node) (target : float) (suffix : string).

Lemma started_animations (w : World) :
  started el target suffix w -> (1 <= animations el w)%nat.
Proof.
  intros [id Hid]. unfold animations.
  assert (In (SetInterval id (CounterTick el target suffix (target / 50)%float 0%float) 40)
            (List.filter (starts_animation el) (trace w))) as Hin.
  { apply List.filter_In. split; [by apply list_elem_of_In|]. cbn. apply Nat.eqb_refl. }
  destruct (List.filter _ (trace w)); [done | cbn; lia].
Qed.

Lemma counterObserver_entry_seen (entry : Entry) (w : World) :
  is_Some (document w !! entry_target entry) ->
  started el target suffix w \/ waiting el target suffix w ->
  exists w',
    counterObserver_entry entry w = (Normal tt, w')
    /\ (started el target suffix w' \/ waiting el target suffix w')
    /\ (entry = mkEntry el true -> started el target suffix w')
    /\ (forall n, is_Some (document w !! n) -> is_Some (document w' !! n)).
Proof.
  intros [e1 He1] Hw. unfold counterObserver_entry.
  assert (entry = mkEntry el true -> waiting el target suffix w ->
          isIntersecting entry = true
          /\ find (is_counter_of (entry_target entry)) (counters w)
             = Some (mkCounter (Some el) target suffix)
          /\ contains e1 "counting" = false /\ entry_target entry = el) as Hmine.
  { intros -> (Hfind & e & He & Hc). cbn in *. by assert (e1 = e) as -> by congruence. }
  destruct (isIntersecting entry) eqn:Hi.
  2:{ exists w. split; [done|]. split; [done|]. split; [|done].
      intros ->. destruct Hw as [?|Hw]; [done|]. by destruct (Hmine eq_refl Hw). }
  js. destruct (find _ (counters w)) as [counter|] eqn:Hfind.
  2:{ exists w. split; [done|]. split; [done|]. split; [|done].
      intros Heq. destruct Hw as [?|Hw]; [done|].
      destruct (Hmine Heq Hw) as (_ & ? & _). congruence. }
  pose proof (find_some _ _ Hfind) as [_ Hel%bool_decide_eq_true].
  rewrite Hel. js. rewrite He1.
  destruct (contains e1 "counting") eqn:Hcounting; cbn [negb].
  { exists w. split; [done|]. split; [done|]. split; [|done].
    intros Heq. destruct Hw as [?|Hw]; [done|].
    destruct (Hmine Heq Hw) as (_ & _ & ? & _). congruence. }
  unfold animateCounter, unobserve. js. eexists. split; [reflexivity|].
  assert (forall n, is_Some (document w !! n) ->
            is_Some (alter (with_classList (fun c => c ∪ {["counting"]}))
                       (entry_target entry) (document w) !! n)) as Hkeep.
  { intros n Hn. destruct (decide (n = entry_target entry)) as [->|Hne].
    - rewrite list_lookup_alter_eq. by apply fmap_is_Some.
    - by rewrite list_lookup_alter_ne. }
  destruct (decide (entry_target entry = el)) as [Heq|Hne].
  - assert (started el target suffix w \/ waiting el target suffix w ->
            find (is_counter_of (entry_target entry)) (counters w) = Some counter ->
            started el target suffix w
            \/ counter = mkCounter (Some el) target suffix) as Hcase.
    { intros [?|(Hf & _)] Hf'; [by left | right]. rewrite Heq in Hf'. congruence. }
    destruct (Hcase Hw Hfind) as [Hstarted | ->].
    + split; [left|split; [intros _|]]; proj; try done.
      * destruct Hstarted as [id Hid]. exists id. proj. apply elem_of_app. by left.
      * destruct Hstarted as [id Hid]. exists id. proj. apply elem_of_app. by left.
    + assert (started el target suffix
                (set_counterObserver (fun targets => targets ∖ {[entry_target entry]})
                   (log_call
                      (SetInterval (next_timer w)
                         (CounterTick (entry_target entry) target suffix
                            (target / 50)%float 0%float) (2000 / 50))
                      (set_next_timer (S (next_timer w))
                         (set_timers
                            (fun ts => ts ++
                               [mkTimer (next_timer w) (now w + 2000 / 50) (Some (2000 / 50))
                                  (CounterTick (entry_target entry) target suffix
                                     (target / 50)%float 0%float)])
                            (set_document
                               (alter (with_classList (fun c => c ∪ {["counting"]}))
                                  (entry_target entry)) w)))))) as Hstarted.
      { exists (next_timer w). proj. rewrite Heq. apply elem_of_app. right.
        apply list_elem_of_singleton. reflexivity. }
      cbn [counter_target counter_suffix].
      split; [by left|]. split; [done|]. proj. done.
  - split; [|split; [intros ->; by cbn in Hne|]]; proj; [|done].
    destruct Hw as [[id Hid] | (Hf & e & He & Hc)].
    + left. exists id. proj. apply elem_of_app. by left.
    + right. split; proj; [done|]. exists e. by rewrite list_lookup_alter_ne.
Qed.


Lemma counterObserver_callback_seen (l : list Entry) (w : World) :
  (forall entry, entry ∈ l -> is_Some (document w !! entry_target entry)) ->
  started el target suffix w \/ waiting el target suffix w ->
  exists w',
    counterObserver_callback l w = (Normal tt, w')
    /\ (started el target suffix w' \/ waiting el target suffix w')
    /\ (mkEntry el true ∈ l -> started el target suffix w').
Proof.
  unfold counterObserver_callback. revert w.
  induction l as [|entry l IH]; intros w Hl Hw.
  - exists w. split; [done|]. split; [done|]. by intros ?%elem_of_nil.
  - destruct (counterObserver_entry_seen entry w) as (w1 & Hrun & Hw1 & Hmine & Hkeep);
      [apply Hl, list_elem_of_here | done |].
    destruct (IH w1) as (w2 & Hrun2 & Hw2 & Hmine2); [|done|].
    { intros e' He'. by apply Hkeep, Hl, list_elem_of_further. }
    exists w2. cbn [forEach]. unfold mbind, JSM_bind. rewrite Hrun. split; [done|].
    split; [done|]. intros [<-|Hin]%elem_of_cons; [|by apply Hmine2].
    destruct Hw2 as [?|Hwait]; [done|].
    (* the entry has started the animation, and nothing undoes that *)
    specialize (Hmine eq_refl).
    clear -Hmine Hrun2. revert w1 Hmine Hrun2.
    induction l as [|x l IHl]; intros w1 Hstarted Hrun2.
    + cbn in Hrun2. by injection Hrun2 as <-.
    + cbn [forEach] in Hrun2. unfold mbind, JSM_bind in Hrun2.
      destruct (counterObserver_entry x w1) as [[[]|err] w3] eqn:Hx; [|done].
      apply (IHl w3); [|done].
      assert (stable (started el target suffix) (counterObserver_entry x)) as Hstable.
      { unfold counterObserver_entry, animateCounter, unobserve.
        stable_steps ltac:(intros ? [id Hid]; exists id; proj; try done;
                           apply elem_of_app; by left). }
      specialize (Hstable w1 Hstarted). unfold exec in Hstable. by rewrite Hx in Hstable.
Qed.

End Seen.

(** X16: a configured counter starts when it is first seen.  When the
    first report of intersections after the page has loaded says that the
    element of a configured counter intersects (and the element does not
    carry "counting" already), its animation has been started once the
    report is processed, exactly once, with the target and the suffix
    configured for it and an interval of 40 ms; the element carries the
    guard class and is no longer observed. *)
Theorem counter_starts_when_seen (w0 : World) (entries : list Entry)
    (i : string) (target : float) (suffix : string) (el : node) (e : Element) :
  timers w0 = [] ->
  trace w0 = [] ->
  In (i, target, suffix) configured ->
  getElementById (document w0) i = Some el ->
  document w0 !! el = Some e ->
  contains e "counting" = false ->
  forallb (fun entry => (entry_target entry <? length (document w0))%nat) entries = true ->
  In (mkEntry el true) entries ->
  let w := intersect entries (exec DOMContentLoaded w0) in
  animations el w = 1%nat
  /\ has_class el "counting" w
  /\ (el ∉ counterObserver w)
  /\ exists id,
       SetInterval id (CounterTick el target suffix (target / 50)%float 0%float) 40
       ∈ trace w.
Proof.
  intros Ht Htr Hconfigured Hel He Hcounting Htargets Hseen w.
  destruct (loaded_waiting w0 i target suffix el e Hconfigured Hel He Hcounting)
    as [Hwaiting Hobserved].
  set (w1 := exec DOMContentLoaded w0) in *.
  assert (started el target suffix w) as Hstarted.
  { unfold w, intersect.
    assert (forall (m : JSM unit) w', stable (started el target suffix) m ->
              started el target suffix w' -> started el target suffix (task m w')) as Htask.
    { intros m w' Hm Hw'. apply (stable_task _ m w' Hm); [|done].
      intros err w2. apply started_grows. }
    apply Htask.
    { unfold revealObserver_callback, revealObserver_entry, unobserve.
      stable_steps ltac:(intros ? [id Hid]; exists id; proj; try done;
                         apply elem_of_app; by left). }
    apply Htask.
    { unfold fadeObserver_callback, fadeObserver_entry.
      stable_steps ltac:(intros ? [id Hid]; exists id; proj; try done;
                         apply elem_of_app; by left). }
    destruct (counterObserver_callback_seen el target suffix
                (watched (counterObserver w1) entries) w1)
      as (w2 & Hrun & _ & Hmine).
    - intros entry [_ Hin]%elem_of_watched.
      rewrite forallb_forall in Htargets.
      specialize (Htargets entry (proj1 (list_elem_of_In _ _) Hin)).
      apply Nat.ltb_lt in Htargets. apply lookup_lt_is_Some.
      unfold w1. by rewrite DOMContentLoaded_document.
    - by right.
    - unfold task. rewrite Hrun. apply Hmine, elem_of_watched.
      split; [done | by apply list_elem_of_In]. }
  assert (counters_inv w) as [_ Hinv].
  { apply intersect_inv, fresh_page_inv, DOMContentLoaded_fresh. split; [done|].
    intros el'. unfold animations. by rewrite Htr. }
  pose proof (started_animations el target suffix w Hstarted) as Hge.
  destruct (Hinv el) as [H0 | (H1 & Hclass & Hobs)]; [lia|].
  by repeat split.
Qed.

Lemma counter_starts_when_seen_witness :
  let w := intersect [mkEntry 10 true; mkEntry 7 true]
             (exec DOMContentLoaded (Demo.world "Ada")) in
  animations 7 w = 1%nat
  /\ has_class 7 "counting" w
  /\ (7%nat ∉ counterObserver w)
  /\ exists id,
       SetInterval id (CounterTick 7 150%float "+" (150 / 50)%float 0%float) 40
       ∈ trace w.
Proof.
  apply (counter_starts_when_seen (Demo.world "Ada") [mkEntry 10 true; mkEntry 7 true]
           "program-count" 150%float "+" 7 (Demo.block "span" "program-count" 1250 40)).
  - reflexivity.
  - reflexivity.
  - cbn. right. left. reflexivity.
  - reflexivity.
  - reflexivity.
  - reflexivity.
  - reflexivity.
  - cbn. right. left. reflexivity.
Defined.

(** ** Loading the page *)

Lemma forEach_observe_fade (l : list node) (w : World) :
  forEach l (fun el => observe set_fadeObserver el) w
  = (Normal tt, set_fadeObserver (fun targets => targets ∪ list_to_set l) w).
Proof.
  revert w. induction l as [|n l IH]; intros w.
  - cbn. f_equal. apply world_eq; proj; try done. apply set_eq. intros x. set_unfold. tauto.
  - cbn [forEach]. unfold mbind, JSM_bind, observe at 1, modify.
    rewrite IH. f_equal. apply world_eq; proj; try done.
    apply set_eq. intros x. set_unfold. tauto.
Qed.

Lemma forEach_observe_reveal (l : list node) (w : World) :
  forEach l (fun el => observe set_revealObserver el) w
  = (Normal tt, set_revealObserver (fun targets => targets ∪ list_to_set l) w).
Proof.
  revert w. induction l as [|n l IH]; intros w.
  - cbn. f_equal. apply world_eq; proj; try done. apply set_eq. intros x. set_unfold. tauto.
  - cbn [forEach]. unfold mbind, JSM_bind, observe at 1, modify.
    rewrite IH. f_equal. apply world_eq; proj; try done.
    apply set_eq. intros x. set_unfold. tauto.
Qed.

(** X17: loading the page never throws, whatever elements the page has or
    lacks, and only registers observers.  The document and the timers are
    as before; the console has the two messages, in order; the counter
    observer watches the configured counters that exist, the fade observer
    every [.fade-in] element and the reveal observer every [.reveal]
    element. *)
Theorem page_load (w : World) :
  let d := document w in
  exists w',
    DOMContentLoaded w = (Normal tt, w')
    /\ document w' = d
    /\ timers w' = timers w
    /\ trace w'
       = trace w ++ [ ConsoleLog "Rutgers University website initialized" [];
                      ConsoleLog "All interactive elements initialized" [] ]
    /\ (forall n, n ∈ counterObserver w' <->
          n ∈ counterObserver w
          \/ exists i target suffix,
               In (i, target, suffix) configured /\ getElementById d i = Some n)
    /\ (forall n, n ∈ fadeObserver w' <->
          n ∈ fadeObserver w \/ exists e, d !! n = Some e /\ contains e "fade-in" = true)
    /\ (forall n, n ∈ revealObserver w' <->
          n ∈ revealObserver w \/ exists e, d !! n = Some e /\ contains e "reveal" = true).
Proof.
  intros d. unfold DOMContentLoaded.
  unfold mbind at 1, JSM_bind at 1. unfold console_log at 1, host, modify.
  unfold mbind at 1, JSM_bind at 1. rewrite initializeCounters_eq.
  unfold mbind at 1, JSM_bind at 1.
  unfold initializeScrollEffects, mbind at 1, JSM_bind at 1, get.
  rewrite forEach_observe_fade.
  unfold initializeNavigation, initializeInfoRequestForm.
  unfold mbind at 1 2, JSM_bind at 1 2, mret at 1 2, JSM_ret at 1 2.
  unfold mbind at 1, JSM_bind at 1.
  assert (forall w1, initializeRevealAnimations w1
            = (Normal tt,
               set_revealObserver
                 (fun targets => targets ∪
                    list_to_set (querySelectorAll (fun e => contains e "reveal") (document w1)))
                 w1)) as Hreveal.
  { intros w1. unfold initializeRevealAnimations. js.
    destruct (querySelectorAll _ (document w1)) eqn:Hq.
    - f_equal. apply world_eq; proj; try done. apply set_eq. intros x. set_unfold. tauto.
    - rewrite <- Hq. apply forEach_observe_reveal. }
  rewrite Hreveal. unfold console_log, host, modify.
  eexists. split; [reflexivity|]. proj.
  split; [done|]. split; [done|]. split; [by rewrite <- app_assoc|].
  split; [|split].
  - intros n. fold d. cbn [foldl counter_element configured In].
    split.
    + repeat match goal with |- context [match getElementById d ?j with _ => _ end] =>
        destruct (getElementById d j) eqn:? end;
        set_unfold; intros H; repeat destruct H as [H|H]; subst;
        first
          [ by left
          | right; exists "student-count", 71000%float, "+"; split; [cbn; tauto | assumption]
          | right; exists "program-count", 150%float, "+"; split; [cbn; tauto | assumption]
          | right; exists "faculty-count", 9000%float, "+"; split; [cbn; tauto | assumption]
          | right; exists "alumni-count", 500000%float, "+"; split; [cbn; tauto | assumption] ].
    + intros [Hn | (i & target & suffix & Hin & Hi)].
      * repeat match goal with |- context [match getElementById d ?j with _ => _ end] =>
          destruct (getElementById d j) end; set_unfold; tauto.
      * destruct Hin as [[= <- <- <-] | [[= <- <- <-] | [[= <- <- <-] | [[= <- <- <-] | []]]]];
          rewrite Hi;
          repeat match goal with |- context [match getElementById d ?j with _ => _ end] =>
            destruct (getElementById d j) end; set_unfold; tauto.
  - intros n. rewrite elem_of_union, elem_of_list_to_set, querySelectorAll_spec. done.
  - intros n. rewrite elem_of_union, elem_of_list_to_set, querySelectorAll_spec. done.
Qed.

(** ** Reports that concern nothing *)

Lemma forEach_skip {A} (f : A -> JSM unit) (l : list A) (w : World) :
  (forall x, x ∈ l -> f x w = (Normal tt, w)) ->
  forEach l f w = (Normal tt, w).
Proof.
  induction l as [|x l IH]; intros Hl; [done|].
  cbn [forEach]. unfold mbind, JSM_bind. rewrite Hl by apply list_elem_of_here.
  apply IH. intros y Hy. by apply Hl, list_elem_of_further.
Qed.

(** X18: a report changes nothing when each of its entries either does
    not intersect or concerns an element no observer of the script
    watches.  So an element that leaves the viewport keeps what it was
    given (the classes, the running counter), and reports about unwatched
    elements, or about elements the reveal and counter observers have let
    go, are ignored. *)
Theorem idle_report (entries : list Entry) (w : World) :
  forallb (fun entry =>
             negb (isIntersecting entry)
             || negb (bool_decide (entry_target entry
                                   ∈ counterObserver w ∪ fadeObserver w ∪ revealObserver w)))
    entries = true ->
  intersect entries w = w.
Proof.
  intros Hidle. rewrite forallb_forall in Hidle.
  assert (forall targets entry,
            targets ⊆ counterObserver w ∪ fadeObserver w ∪ revealObserver w ->
            entry ∈ watched targets entries -> isIntersecting entry = false) as Hquiet.
  { intros targets entry Hsub [Hin Hentry]%elem_of_watched.
    specialize (Hidle entry (proj1 (list_elem_of_In _ _) Hentry)).
    apply orb_true_iff in Hidle as [H|H]; [by apply negb_true_iff|].
    apply negb_true_iff, bool_decide_eq_false in H. destruct H. by apply Hsub. }
  unfold intersect, task, counterObserver_callback, fadeObserver_callback,
    revealObserver_callback.
  rewrite (forEach_skip counterObserver_entry).
  2:{ intros entry Hin. unfold counterObserver_entry.
      rewrite (Hquiet (counterObserver w)); [done | set_solver | done]. }
  rewrite (forEach_skip fadeObserver_entry).
  2:{ intros entry Hin. unfold fadeObserver_entry.
      rewrite (Hquiet (fadeObserver w)); [done | set_solver | done]. }
  rewrite (forEach_skip revealObserver_entry); [done|].
  intros entry Hin. unfold revealObserver_entry.
  rewrite (Hquiet (revealObserver w)); [done | set_solver | done].
Qed.

Lemma idle_report_witness :
  let w := intersect [mkEntry 11 true; mkEntry 7 true]
             (exec DOMContentLoaded (Demo.world "Ada")) in
  intersect [mkEntry 11 true; mkEntry 7 true; mkEntry 10 false; mkEntry 4 true] w = w.
Proof.
  intros w.
  apply (idle_report [mkEntry 11 true; mkEntry 7 true; mkEntry 10 false; mkEntry 4 true] w).
  vm_compute. reflexivity.
Defined.

(** ** The success message, shown twice *)

Lemma success_container_again (d d' : list Element) (s : node) :
  success_container d = Some (s, d') -> success_container d' = Some (s, d').
Proof.
  unfold success_container.
  destruct (first_from (fun e => contains e "success-message") 0 d) as [n|] eqn:Hn.
  - intros [= <- <-]. by rewrite Hn.
  - destruct (first_from (fun e => (localName e =? "body")%string) 0 d); [|done].
    intros [= <- <-].
    assert (forall k l, first_from (fun e => contains e "success-message") k l = None ->
              first_from (fun e => contains e "success-message") k
                (l ++ [with_parentNode (Some n)
                         (with_classList (fun _ => {["success-message"]})
                            (createElement "div"))])
              = Some (k + length l)%nat) as Hnew.
    { intros k l. revert k. induction l as [|x l IH]; intros k.
      - intros _. cbn [app first_from length]. unfold contains.
        cbn [classList with_parentNode with_classList createElement].
        rewrite bool_decide_eq_true_2 by by apply elem_of_singleton.
        f_equal. lia.
      - cbn [first_from app]. destruct (contains x "success-message"); [done|].
        intros H. rewrite IH by done. f_equal. cbn. lia. }
    by rewrite Hnew.
Qed.

(** X19: the page has one success message and one timer per call.  A
    second message, shown [g] ms after the first one (less than 5000), is
    written into the same element, which is not created again; and it is
    hidden by the timer of the first message, 5000 ms after the first
    message was shown, that is after only [5000 - g] ms. *)
Theorem success_message_hidden_early (w : World) (first second : string)
    (s : node) (d' : list Element) (g : Z) (fuel : nat) :
  success_container (document w) = Some (s, d') ->
  timers w = [] ->
  0 < g < 5000 ->
  let w1 := run_until (S fuel) (now w + g) (exec (showSuccessMessage first) w) in
  let w2 := exec (showSuccessMessage second) w1 in
  let w3 := run_until (S fuel) (now w + 5000) w2 in
  length (document w2) = length d'
  /\ now w2 = now w + g
  /\ (textContent <$> document w2 !! s = Some second
      /\ (fun x => style x !! "display") <$> document w2 !! s = Some (Some "block"))
  /\ now w3 = now w + 5000
  /\ (textContent <$> document w3 !! s = Some second
      /\ (fun x => style x !! "display") <$> document w3 !! s = Some (Some "none")).
Proof.
  intros Hs Ht Hg w1 w2 w3.
  assert (is_Some (d' !! s)) as [x Hx].
  { pose proof Hs as Hs'. unfold success_container in Hs'.
    destruct (first_from (fun e => contains e "success-message") 0 (document w))
      as [n|] eqn:Hn.
    - injection Hs' as <- <-. apply first_from_Some in Hn as (_ & e & He & _).
      rewrite Nat.sub_0_r in He. by eexists.
    - destruct (first_from (fun e => (localName e =? "body")%string) 0 (document w));
        [|done].
      injection Hs' as <- <-. rewrite lookup_app_r, Nat.sub_diag by done. by eexists. }
  set (shown := fun (message : string) (d : list Element) =>
         alter (with_style (fun st => <["display" := "block"]> st)) s
           (alter (with_content (Text message)) s d)).
  assert (w1 = mkWorld (shown first d') (now w + g)
                 [mkTimer (next_timer w) (now w + 5000) None (HideSuccess s)]
                 (S (next_timer w))
                 (trace w ++ [SetTimeout (next_timer w) (HideSuccess s) 5000])
                 (scrollY w) (innerHeight w) (counters w) (counterObserver w)
                 (fadeObserver w) (revealObserver w) (modals w)) as Hw1.
  { unfold w1, exec. rewrite (showSuccessMessage_eq first s d' w Hs). cbn [snd run_until].
    proj. rewrite Ht. cbn [app]. rewrite next_due_singleton. cbn [due].
    rewrite (proj2 (Z.leb_gt _ _)) by lia. unfold set_now. proj.
    by rewrite Z.max_r by lia. }
  assert (success_container (shown first d') = Some (s, shown first d')) as Hs1.
  { unfold shown. apply success_container_alter; [done | done | |].
    - rewrite list_lookup_alter_eq, Hx. by eexists.
    - apply success_container_alter; [done | done | by eexists |].
      by apply success_container_again in Hs. }
  assert (w2 = mkWorld (shown second (shown first d')) (now w + g)
                 [mkTimer (next_timer w) (now w + 5000) None (HideSuccess s);
                  mkTimer (S (next_timer w)) (now w + g + 5000) None (HideSuccess s)]
                 (S (S (next_timer w)))
                 (trace w ++ [SetTimeout (next_timer w) (HideSuccess s) 5000;
                              SetTimeout (S (next_timer w)) (HideSuccess s) 5000])
                 (scrollY w) (innerHeight w) (counters w) (counterObserver w)
                 (fadeObserver w) (revealObserver w) (modals w)) as Hw2.
  { unfold w2, exec. rewrite Hw1.
    erewrite showSuccessMessage_eq by (proj; exact Hs1).
    cbn [snd]. proj. cbn [app]. by rewrite <- app_assoc. }
  assert (forall message d, length (shown message d) = length d) as Hlen.
  { intros message d. unfold shown. by rewrite !length_alter. }
  assert (forall message d y, d !! s = Some y ->
            shown message d !! s
            = Some (with_style (fun st => <["display" := "block"]> st)
                      (with_content (Text message) y))) as Hshown.
  { intros message d y Hy. unfold shown. by rewrite !list_lookup_alter_eq, Hy. }
  split; [by rewrite Hw2; proj; rewrite !Hlen|].
  split; [by rewrite Hw2|].
  split.
  { rewrite Hw2. proj. erewrite Hshown by (by apply Hshown). cbn.
    split; [done|]. by rewrite lookup_insert_eq. }
  assert (w3 = mkWorld (alter (with_style (fun st => <["display" := "none"]> st)) s
                          (shown second (shown first d')))
                 (now w + 5000)
                 [mkTimer (S (next_timer w)) (now w + g + 5000) None (HideSuccess s)]
                 (S (S (next_timer w)))
                 (trace w ++ [SetTimeout (next_timer w) (HideSuccess s) 5000;
                              SetTimeout (S (next_timer w)) (HideSuccess s) 5000])
                 (scrollY w) (innerHeight w) (counters w) (counterObserver w)
                 (fadeObserver w) (revealObserver w) (modals w)) as Hw3.
  { unfold w3. rewrite Hw2. cbn [run_until]. proj. cbn [next_due due].
    rewrite (proj2 (Z.ltb_ge _ _)) by lia. cbn [due].
    rewrite (proj2 (Z.leb_le _ _)) by lia.
    unfold fire, set_timers, set_now. proj. cbn [timer_id due callback run_callback].
    unfold rearm. cbn [repeat timer_id]. rewrite !filter_cons, filter_nil.
    unfold is_timer. cbn [timer_id]. rewrite Nat.eqb_refl.
    rewrite (proj2 (Nat.eqb_neq (S (next_timer w)) (next_timer w))) by lia.
    rewrite decide_False by done. rewrite decide_True by done.
    unfold task, hideSuccess. js. proj.
    rewrite Z.max_r by lia.
    destruct fuel as [|fuel']; cbn [run_until]; [reflexivity|].
    proj. rewrite next_due_singleton. cbn [due].
    rewrite (proj2 (Z.leb_gt _ _)) by lia. unfold set_now. proj.
    by rewrite Z.max_l by lia. }
  rewrite Hw3. proj. split; [done|].
  rewrite list_lookup_alter_eq. erewrite Hshown by (by apply Hshown). cbn.
  split; [done|]. by rewrite lookup_insert_eq.
Qed.

Lemma success_message_hidden_early_witness :
  let w := Demo.world "Ada" in
  let w1 := run_until 2 (now w + 3000) (exec (showSuccessMessage "Saved.") w) in
  let w2 := exec (showSuccessMessage "Sent.") w1 in
  let w3 := run_until 2 (now w + 5000) w2 in
  length (document w2) = 29%nat
  /\ now w2 = now w + 3000
  /\ (textContent <$> document w2 !! 28%nat = Some "Sent."
      /\ (fun x => style x !! "display") <$> document w2 !! 28%nat = Some (Some "block"))
  /\ now w3 = now w + 5000
  /\ (textContent <$> document w3 !! 28%nat = Some "Sent."
      /\ (fun x => style x !! "display") <$> document w3 !! 28%nat = Some (Some "none")).
Proof.
  apply (success_message_hidden_early (Demo.world "Ada") "Saved." "Sent." 28
           (Demo.page "Ada"
              ++ [with_parentNode (Some 0%nat)
                    (with_classList (fun _ => {["success-message"]})
                       (createElement "div"))])
           3000 1).
  - reflexivity.
  - reflexivity.
  - lia.
Defined.

(** ** The application form, when the modal has no instance *)

Lemma applicationDone_throws (f submitButton s : node) (originalText : string)
    (formData : FormData.t) (d' : list Element) (w : World) :
  success_container (document w) = Some (s, d') ->
  no_modal_instance w ->
  applicationDone f submitButton originalText formData w
  = (Throw "TypeError",
     mkWorld
       (reset_control f <$>
          alter (with_style (fun st => <["display" := "block"]> st)) s
            (alter (with_content (Text application_success)) s d'))
       (now w)
       (timers w ++ [mkTimer (next_timer w) (now w + 5000) None (HideSuccess s)])
       (S (next_timer w))
       (trace w ++
          [ ConsoleLog "Application submitted:" [FormDataObject formData];
            SetTimeout (next_timer w) (HideSuccess s) 5000 ])
       (scrollY w) (innerHeight w) (counters w) (counterObserver w)
       (fadeObserver w) (revealObserver w) (modals w)).
Proof.
  intros Hs Hm. destruct w as [d nw ts nt tr sy ih cs co fo ro ms].
  unfold no_modal_instance in Hm. cbn [document modals] in Hs, Hm. proj.
  unfold applicationDone, trackEvent, form_reset, Modal_getInstance.
  unfold mbind at 1, JSM_bind at 1, console_log at 1.
  cbv beta iota delta [host modify log_call]. proj.
  unfold mbind at 1, JSM_bind at 1.
  rewrite (showSuccessMessage_eq _ s d') by done. proj.
  js. unfold set_document, log_call. proj.
  unfold getElementById. rewrite first_from_fmap, !first_from_alter; try done.
  2:{ intros e. unfold reset_control. by destruct (owned_by f e). }
  fold (getElementById d' "applicationModal").
  assert (match getElementById d' "applicationModal" with
          | Some n => if bool_decide (n ∈ ms) then Some n else None
          | None => None
          end = None) as ->.
  { destruct (getElementById d' "applicationModal") as [m|] eqn:Hm'; [|done].
    rewrite bool_decide_eq_false_2; [done|].
    apply Hm. unfold success_container in Hs.
    destruct (first_from (fun e => contains e "success-message") 0 d) as [k|];
      [by injection Hs as <- <-|].
    destruct (first_from (fun e => (localName e =? "body")%string) 0 d) as [body|];
      [|done].
    injection Hs as <- <-.
    destruct (getElementById d "applicationModal") as [m0|] eqn:Hm0.
    - unfold getElementById in *. by rewrite (first_from_app _ _ _ _ _ Hm0) in Hm'.
    - exfalso. apply first_from_Some in Hm' as (_ & e & He & Hid).
      rewrite Nat.sub_0_r in He.
      destruct (decide (m < length d)%nat) as [Hlt|Hge].
      + rewrite lookup_app_l in He by done.
        assert (forall k l, first_from (has_id "applicationModal") k l = None ->
                  forall j x, l !! j = Some x -> has_id "applicationModal" x = false)
          as Hnone.
        { intros k l. revert k. induction l as [|y l IH]; intros k Hk j x0 Hj; [done|].
          cbn [first_from] in Hk. destruct (has_id "applicationModal" y) eqn:Hy; [done|].
          destruct j as [|j]; [by injection Hj as <- | by eapply IH]. }
        rewrite (Hnone 0%nat d Hm0 m e He) in Hid. done.
      + rewrite lookup_app_r in He by lia.
        destruct (m - length d)%nat; [|done]. injection He as <-.
        by apply bool_decide_eq_true in Hid. }
  flat. by rewrite <- !app_assoc.
Qed.

(** X20: when the application modal has no instance (the modal was never
    opened through [showApplicationForm], or its element is missing), a
    valid submission fails half way.  After the 2000 ms the record is
    logged, the success message is shown and the form is reset; then
    [modal.hide()] throws a TypeError.  The button is left disabled with
    the loading indicator, and no tracking event is logged. *)
Theorem submitApplication_without_modal_instance
    (w : World) (submitButton : node) (b : Element) (f : node)
    (formData : FormData.t) (fuel : nat) :
  application_filled w submitButton b f formData ->
  no_modal_instance w ->
  let w2 := run_until (S fuel) (now w + 2000) (exec (submitApplication submitButton) w) in
  last (trace w2) = Some (Uncaught "TypeError")
  /\ console w2 = console w ++ [("Application submitted:", [FormDataObject formData])]
  /\ (exists b', document w2 !! submitButton = Some b'
        /\ disabled b' = true
        /\ innerHTML b' = loading "Submitting...")
  /\ (forall n e, document w2 !! n = Some e -> form e = Some f ->
        value e = defaultValue e)
  /\ (exists s sd, document w2 !! s = Some sd
        /\ contains sd "success-message" = true
        /\ textContent sd = application_success
        /\ style sd !! "display" = Some "block").
Proof.
  intros (Hf & Hvalid & Hb & Hnot & (n1 & e1 & Hn1 & He1 & Hv1) & (n2 & e2 & Hn2 & He2 & Hv2)
          & (n3 & e3 & Hn3 & He3 & Hv3) & (n4 & e4 & Hn4 & He4 & Hv4)
          & (n5 & e5 & Hn5 & He5 & Hv5) & Hat & [body Hbody] & Htimers) Hmodal w2.
  assert (exists s d', success_container (document w) = Some (s, d')) as (s & d' & Hs).
  { unfold success_container.
    destruct (first_from (fun e => contains e "success-message") 0 (document w));
      [by eexists _, _|].
    cbv zeta in Hbody. rewrite Hbody. by eexists _, _. }
  set (d2 := reset_control f <$>
               alter (with_style (fun st => <["display" := "block"]> st)) s
                 (alter (with_content (Text application_success)) s
                    (alter (with_disabled true) submitButton
                       (alter (with_content (HTML (loading "Submitting..."))) submitButton
                          d')))).
  assert (w2 = mkWorld d2 (now w + 2000)
                 [mkTimer (S (next_timer w)) (now w + 2000 + 5000) None (HideSuccess s)]
                 (S (S (next_timer w)))
                 (trace w ++
                    [ SetTimeout (next_timer w)
                        (ApplicationDone f submitButton (textContent b) formData) 2000;
                      ConsoleLog "Application submitted:" [FormDataObject formData];
                      SetTimeout (S (next_timer w)) (HideSuccess s) 5000;
                      Uncaught "TypeError" ])
                 (scrollY w) (innerHeight w) (counters w) (counterObserver w)
                 (fadeObserver w) (revealObserver w) (modals w)) as ->.
  { unfold w2, exec.
    rewrite (submitApplication_valid w submitButton f n1 n2 n3 n4 n5 b e1 e2 e3 e4 e5)
      by done.
    rewrite Hv1, Hv2, Hv3, Hv4, Hv5, Htimers.
    replace (FormData.mk _ _ _ _ _ _) with formData
      by (destruct formData; cbn in Hat; by subst).
    cbn [snd app run_until]. proj. rewrite next_due_singleton. cbn [due].
    rewrite (proj2 (Z.leb_le _ _)) by lia. unfold fire, set_timers, set_now. proj.
    cbn [timer_id due callback run_callback].
    rewrite rearm_one_shot by done. unfold task.
    erewrite applicationDone_throws; cycle 1.
    - proj. apply success_container_alter; [done | done | |].
      + rewrite list_lookup_alter_eq, Hb. by eexists.
      + apply success_container_alter; [done | done | by eexists | exact Hs].
    - intros m. proj. unfold getElementById. rewrite !first_from_alter by done.
      apply Hmodal.
    - proj. rewrite Z.max_r by lia. cbn [app]. unfold log_call. proj.
      rewrite <- !app_assoc. cbn [app].
      destruct fuel as [|fuel']; cbn [run_until]; [reflexivity|].
      proj. rewrite next_due_singleton. cbn [due].
      rewrite (proj2 (Z.leb_gt _ _)) by lia. unfold set_now. proj.
      by rewrite Z.max_l by lia. }
  proj.
  destruct (success_container_fresh (document w) d' s submitButton b) as (Hne & Hb' & x & Hx & Hc);
    try done.
  split; [|split; [|split; [|split]]].
  - by rewrite last_app.
  - unfold console. proj. rewrite omap_app. cbn. done.
  - unfold d2. rewrite list_lookup_fmap, !list_lookup_alter_ne by done.
    rewrite !list_lookup_alter_eq, Hb'. cbn. eexists. split; [done|].
    match goal with |- context [reset_control f ?y] =>
      destruct (reset_control_spec f y) as (_ & _ & _ & Hct & _ & Hdis & _)
    end.
    unfold innerHTML. rewrite Hct, Hdis. done.
  - intros n e He Hform. unfold d2 in He. rewrite list_lookup_fmap in He.
    destruct (_ !! n) as [y|]; [|done]. injection He as <-.
    destruct (reset_control_spec f y) as (Hf' & Hd' & _ & _ & _ & _ & Hv').
    rewrite Hd'. apply Hv'. congruence.
  - exists s. unfold d2. rewrite list_lookup_fmap, !list_lookup_alter_eq.
    rewrite !list_lookup_alter_ne, Hx by done. cbn. eexists. split; [done|].
    match goal with |- context [reset_control f ?y] =>
      destruct (reset_control_spec f y) as (_ & _ & Hcl & Hct & Hst & _)
    end.
    unfold contains, textContent. rewrite Hcl, Hct, Hst. cbn.
    split; [exact Hc|]. split; [done|]. apply lookup_insert_eq.
Qed.

Lemma demo_application_filled :
  application_filled (Demo.world "Ada") 19
    (Demo.button [] 13 "Submit Application") 13
    (FormData.mk "Ada" "Lovelace" "ada@example.edu" "computer-science" "fall-2026" 0).
Proof. ready. Qed.

Lemma submitApplication_without_modal_instance_witness :
  let w := Demo.world "Ada" in
  let w2 := run_until 1 (now w + 2000) (exec (submitApplication 19) w) in
  last (trace w2) = Some (Uncaught "TypeError")
  /\ console w2
     = [ ("Application submitted:",
          [FormDataObject
             (FormData.mk "Ada" "Lovelace" "ada@example.edu" "computer-science"
                "fall-2026" 0)]) ].
Proof.
  intros w w2.
  destruct (submitApplication_without_modal_instance w 19
              (Demo.button [] 13 "Submit Application") 13
              (FormData.mk "Ada" "Lovelace" "ada@example.edu" "computer-science"
                 "fall-2026" 0) 0)
    as (Hlast & Hconsole & _).
  - exact demo_application_filled.
  - intros m _. apply not_elem_of_empty.
  - split; [exact Hlast | exact Hconsole].
Defined.

(** ** The info-request form *)



Lemma flag_invalid_has_id (i : string) (e : Element) :
  has_id i (flag_invalid e) = has_id i e.
Proof. unfold flag_invalid. by destruct (checkValidity e). Qed.

(** One round of [requiredIds.forEach]. *)
Lemma check_required_step (i : string) (ids : list string) (valid : bool)
    (n : node) (e : Element) (w : World) :
  getElementById (document w) i = Some n ->
  document w !! n = Some e ->
  check_required (i :: ids) valid w
  = check_required ids (valid && checkValidity e)
      (set_document (alter flag_invalid n) w).
Proof.
  intros Hn He. cbn [check_required]. js. rewrite Hn, He.
  assert (forall A (m : World -> A) w1 w2, w1 = w2 -> m w1 = m w2) as Hcong
    by (by intros A m w1 w2 ->).
  destruct (checkValidity e) eqn:Hv; cbn [negb].
  - rewrite andb_true_r. apply Hcong. unfold set_document. destruct w. cbn in *.
    f_equal. apply list_eq. intros j. destruct (decide (j = n)) as [->|Hne].
    + rewrite list_lookup_alter_eq, He. cbn. unfold flag_invalid. by rewrite Hv.
    + by rewrite list_lookup_alter_ne.
  - rewrite andb_false_r. apply Hcong. unfold set_document. f_equal.
    apply list_alter_ext; [|done]. intros x Hx. assert (x = e) as -> by congruence.
    unfold flag_invalid. by rewrite Hv.
Qed.

(** X22: an info request with an invalid required field is rejected on the
    spot.  Each of the three required fields that is invalid gets the class
    "is-invalid"; a valid one is left as it is, a mark it carries from
    before included.  Nothing else happens: no timer is set, nothing is
    logged, the button and the values of the fields are as they were. *)
Theorem submitInfoRequest_invalid_marks
    (w : World) (f n1 n2 n3 : node) (e1 e2 e3 : Element) :
  let d := document w in
  getElementById d "infoRequestForm" = Some f ->
  getElementById d "riFirstName" = Some n1 ->
  getElementById d "riLastName" = Some n2 ->
  getElementById d "riEmail" = Some n3 ->
  d !! n1 = Some e1 -> d !! n2 = Some e2 -> d !! n3 = Some e3 ->
  checkValidity e1 && checkValidity e2 && checkValidity e3 = false ->
  submitInfoRequest w
  = (Normal tt,
     set_document
       (fun d => <[n3 := flag_invalid e3]> (<[n2 := flag_invalid e2]>
                                             (<[n1 := flag_invalid e1]> d))) w).
Proof.
  intros d Hf Hn1 Hn2 Hn3 He1 He2 He3 Hinvalid.
  assert (n1 <> n2) as H12 by by eapply (getElementById_distinct d "riFirstName" "riLastName").
  assert (n1 <> n3) as H13 by by eapply (getElementById_distinct d "riFirstName" "riEmail").
  assert (n2 <> n3) as H23 by by eapply (getElementById_distinct d "riLastName" "riEmail").
  unfold submitInfoRequest. js'. fold d. rewrite Hf. js'.
  rewrite (check_required_step "riFirstName" _ _ n1 e1) by done.
  rewrite (check_required_step "riLastName" _ _ n2 e2).
  2:{ proj. unfold getElementById. rewrite first_from_alter; [done|].
      intros x. apply flag_invalid_has_id. }
  2:{ proj. by rewrite list_lookup_alter_ne. }
  rewrite (check_required_step "riEmail" _ _ n3 e3).
  2:{ proj. unfold getElementById. rewrite !first_from_alter; [done| |];
        intros x; apply flag_invalid_has_id. }
  2:{ proj. by rewrite !list_lookup_alter_ne. }
  cbn [check_required andb]. js'. rewrite Hinvalid. cbn [negb].
  f_equal. apply world_eq; proj; try done.
  apply list_eq. intros j. fold d.
  destruct (decide (j = n3)) as [->|Hj3].
  { rewrite list_lookup_alter_eq, !list_lookup_alter_ne, He3 by done. cbn.
    rewrite list_lookup_insert_eq; [done|].
    rewrite !length_insert. by eapply lookup_lt_Some. }
  rewrite list_lookup_alter_ne, list_lookup_insert_ne by done.
  destruct (decide (j = n2)) as [->|Hj2].
  { rewrite list_lookup_alter_eq, !list_lookup_alter_ne, He2 by done. cbn.
    rewrite list_lookup_insert_eq; [done|].
    rewrite !length_insert. by eapply lookup_lt_Some. }
  rewrite list_lookup_alter_ne, list_lookup_insert_ne by done.
  destruct (decide (j = n1)) as [->|Hj1].
  { rewrite list_lookup_alter_eq, He1. cbn.
    rewrite list_lookup_insert_eq; [done|]. by eapply lookup_lt_Some. }
  by rewrite list_lookup_alter_ne, list_lookup_insert_ne.
Qed.

Lemma submitInfoRequest_invalid_marks_witness :
  let w := Demo.world EmptyString in
  submitInfoRequest w
  = (Normal tt,
     set_document
       (fun d =>
          <[23%nat := Demo.control "riEmail" 20 "ada@example.edu" Demo.required]>
            (<[22%nat := Demo.control "riLastName" 20 "Lovelace " Demo.required]>
               (<[21%nat := with_classList (fun c => c ∪ {["is-invalid"]})
                              (Demo.control "riFirstName" 20 EmptyString Demo.required)]>
                  d))) w).
Proof.
  apply (submitInfoRequest_invalid_marks (Demo.world EmptyString) 20 21 22 23
           (Demo.control "riFirstName" 20 EmptyString Demo.required)
           (Demo.control "riLastName" 20 "Lovelace " Demo.required)
           (Demo.control "riEmail" 20 "ada@example.edu" Demo.required));
    reflexivity.
Defined.

(** ** Elements the page may lack *)

(** X23: which missing elements the form handlers survive.
    [submitInfoRequest] does nothing on a page without the info-request
    form; but with the form there and its first required field missing it
    throws a TypeError; and [submitApplication] throws a TypeError when
    the application form is missing.  In each case the page is left as it
    was. *)
Theorem missing_elements (w : World) :
  let d := document w in
  (getElementById d "infoRequestForm" = None ->
     submitInfoRequest w = (Normal tt, w))
  /\ (is_Some (getElementById d "infoRequestForm") ->
      getElementById d "riFirstName" = None ->
      submitInfoRequest w = (Throw "TypeError", w))
  /\ (getElementById d "applicationForm" = None ->
      forall submitButton, submitApplication submitButton w = (Throw "TypeError", w)).
Proof.
  intros d. repeat split.
  - intros Hf. unfold submitInfoRequest. js'. fold d. by rewrite Hf.
  - intros [f Hf] Hn. unfold submitInfoRequest. js'. fold d. rewrite Hf.
    cbn [check_required]. js'. fold d. by rewrite Hn.
  - intros Hf submitButton. unfold submitApplication. js'. fold d. by rewrite Hf.
Qed.

(** ** The delay of a reveal *)

Section RevealDelay.

Context (el : node) (e : Element).

Lemma revealed_style_again :
  match getAttribute e "data-delay" with
  | Some (String c delay) => <["--reveal-delay" := String c delay]> (revealed_style e)
  | _ => revealed_style e
  end = revealed_style e.
Proof.
  unfold revealed_style. destruct (getAttribute e "data-delay") as [[|c delay]|]; try done.
  apply insert_insert_eq.
Qed.

Lemma revealObserver_entry_delay (entry : Entry) (w : World) :
  is_Some (document w !! entry_target entry) ->
  revealing el e w ->
  exists w',
    revealObserver_entry entry w = (Normal tt, w')
    /\ revealing el e w'
    /\ (entry = mkEntry el true \/ reveal_done el e w -> reveal_done el e w')
    /\ (forall n, is_Some (document w !! n) -> is_Some (document w' !! n)).
Proof.
  intros [y Hy] (x & Hx & Hax & Hsx). unfold revealObserver_entry.
  destruct (isIntersecting entry) eqn:Hi.
  2:{ exists w. split; [done|]. split; [by exists x|]. split; [|done].
      intros [->|?]; [done | done]. }
  js. rewrite Hy.
  assert (forall (f : Element -> Element) (n : node) (d : list Element) (k : node),
            is_Some (d !! k) -> is_Some (alter f n d !! k)) as Hkeep.
  { intros f n d k Hk. destruct (decide (k = n)) as [->|Hne].
    - rewrite list_lookup_alter_eq. by apply fmap_is_Some.
    - by rewrite list_lookup_alter_ne. }
  destruct (decide (entry_target entry = el)) as [Heq|Hne].
  - rewrite Heq in *. assert (y = x) as -> by congruence.
    assert (getAttribute x "data-delay" = getAttribute e "data-delay") as Hdelay
      by (unfold getAttribute; by rewrite Hax).
    rewrite Hdelay.
    assert (match getAttribute e "data-delay" with
            | Some (String c delay) => <["--reveal-delay" := String c delay]> (style x)
            | _ => style x
            end = revealed_style e) as Hstyle.
    { destruct Hsx as [->| ->]; [reflexivity | apply revealed_style_again]. }
    assert (forall w1 x1 (A : Prop), document w1 !! el = Some x1 ->
              attributes x1 = attributes e -> style x1 = revealed_style e ->
              "visible" ∈ classList x1 ->
              revealing el e w1 /\ (A -> reveal_done el e w1)) as Hfin.
    { intros w1 x1 A H1 H2 H3 H4. split; [exists x1; by auto | intros _; by exists x1]. }
    destruct (getAttribute e "data-delay") as [[|c delay]|] eqn:Hd; cbn [truthy];
      js; unfold unobserve; js; eexists; (split; [reflexivity|]);
      apply and_assoc; (split; [|intros n Hn; proj; by repeat apply Hkeep]);
      (eapply Hfin;
       [ proj; rewrite ?list_lookup_alter_eq, Hx; reflexivity
       | exact Hax
       | exact Hstyle
       | cbn; set_unfold; tauto ]).
  - assert (forall w1, document w1 !! el = document w !! el ->
              revealing el e w1
              /\ (entry = mkEntry el true \/ reveal_done el e w -> reveal_done el e w1))
      as Hother.
    { intros w1 Hw1. split.
      - exists x. by rewrite Hw1.
      - intros [->|(x' & Hx' & ?)]; [done|]. exists x'. by rewrite Hw1. }
    destruct (truthy (getAttribute y "data-delay")); js; unfold unobserve; js;
      eexists; (split; [reflexivity|]); proj.
    + destruct (Hother (set_document
                          (alter (with_classList (fun c => c ∪ {["visible"]}))
                             (entry_target entry))
                          (set_document
                             (alter (with_style (fun st =>
                                       <["--reveal-delay" :=
                                           default EmptyString (getAttribute y "data-delay")]> st))
                                (entry_target entry)) w))) as [H1 H2].
      { proj. by rewrite !list_lookup_alter_ne. }
      split; [exact H1|]. split; [exact H2|]. intros n Hn. by repeat apply Hkeep.
    + destruct (Hother (set_document
                          (alter (with_classList (fun c => c ∪ {["visible"]}))
                             (entry_target entry)) w)) as [H1 H2].
      { proj. by rewrite !list_lookup_alter_ne. }
      split; [exact H1|]. split; [exact H2|]. intros n Hn. by repeat apply Hkeep.
Qed.


Lemma revealObserver_callback_delay (l : list Entry) (w : World) :
  (forall entry, entry ∈ l -> is_Some (document w !! entry_target entry)) ->
  revealing el e w ->
  exists w',
    revealObserver_callback l w = (Normal tt, w')
    /\ revealing el e w'
    /\ (mkEntry el true ∈ l \/ reveal_done el e w -> reveal_done el e w').
Proof.
  unfold revealObserver_callback. revert w.
  induction l as [|entry l IH]; intros w Hl Hw.
  - exists w. split; [done|]. split; [done|]. by intros [?%elem_of_nil|?].
  - destruct (revealObserver_entry_delay entry w) as (w1 & Hrun & Hw1 & Hdone & Hkeep);
      [apply Hl, list_elem_of_here | done |].
    destruct (IH w1) as (w2 & Hrun2 & Hw2 & Hdone2); [|done|].
    { intros e' He'. by apply Hkeep, Hl, list_elem_of_further. }
    exists w2. cbn [forEach]. unfold mbind, JSM_bind. rewrite Hrun. split; [done|].
    split; [done|]. intros [[<-|Hin]%elem_of_cons | Hdone0].
    + apply Hdone2. right. apply Hdone. by left.
    + apply Hdone2. by left.
    + apply Hdone2. right. apply Hdone. by right.
Qed.

(** What the counter observer and the fade observer leave alone. *)
Lemma untouched_style_alter (R : gset node) (L : nat) (f : Element -> Element)
    (n : node) (w : World) :
  (forall y, attributes (f y) = attributes y /\ style (f y) = style y) ->
  (exists x, document w !! el = Some x /\ attributes x = attributes e /\ style x = style e)
  /\ revealObserver w = R /\ length (document w) = L ->
  (exists x, document (set_document (alter f n) w) !! el = Some x
     /\ attributes x = attributes e /\ style x = style e)
  /\ revealObserver (set_document (alter f n) w) = R
  /\ length (document (set_document (alter f n) w)) = L.
Proof.
  intros Hf ((x & Hx & Ha & Hs) & HR & HL). proj. rewrite length_alter.
  split; [|done]. destruct (decide (el = n)) as [<-|Hne].
  - rewrite list_lookup_alter_eq, Hx. eexists. split; [done|].
    destruct (Hf x) as [-> ->]. done.
  - rewrite list_lookup_alter_ne by done. by exists x.
Qed.

End RevealDelay.

(** X24: the reveal observer applies the delay of the element.  When a
    report says that an element the reveal observer watches intersects,
    the element afterwards carries "visible", and its inline style is the
    one it had, with [--reveal-delay] set to the value of its [data-delay]
    attribute when that is a non-empty string; an element without the
    attribute, or with an empty one, keeps its style.  The other observers
    do not touch the style. *)
Theorem reveal_applies_delay (w : World) (entries : list Entry) (el : node) (e : Element) :
  document w !! el = Some e ->
  el ∈ revealObserver w ->
  In (mkEntry el true) entries ->
  forallb (fun entry => (entry_target entry <? length (document w))%nat) entries = true ->
  exists e',
    document (intersect entries w) !! el = Some e'
    /\ "visible" ∈ classList e'
    /\ style e'
       = match getAttribute e "data-delay" with
         | Some (String c delay) => <["--reveal-delay" := String c delay]> (style e)
         | _ => style e
         end.
Proof.
  intros He Hobserved Hseen Htargets.
  set (P := fun w' : World =>
         (exists x, document w' !! el = Some x /\ attributes x = attributes e
                    /\ style x = style e)
         /\ revealObserver w' = revealObserver w
         /\ length (document w') = length (document w)).
  assert (forall err w', P w' -> P (log_call (Uncaught err) w')) as Herr by done.
  unfold intersect.
  set (w1 := task (counterObserver_callback (watched (counterObserver w) entries)) w).
  assert (P w1) as Hw1.
  { apply (stable_task P); [|done|].
    - unfold counterObserver_callback, counterObserver_entry, animateCounter, unobserve.
      stable_steps ltac:(first [ by intros ? ?
                               | intros ? ?; by apply untouched_style_alter ]).
    - split; [by exists e | done]. }
  set (w2 := task (fadeObserver_callback (watched (fadeObserver w1) entries)) w1).
  assert (P w2) as ((x & Hx & Ha & Hs) & HR & HL).
  { apply (stable_task P); [|done|done].
    unfold fadeObserver_callback, fadeObserver_entry.
    stable_steps ltac:(first [ by intros ? ?
                             | intros ? ?; by apply untouched_style_alter ]). }
  destruct (revealObserver_callback_delay el e (watched (revealObserver w2) entries) w2)
    as (w3 & Hrun & _ & Hdone).
  - intros entry [_ Hin]%elem_of_watched.
    rewrite forallb_forall in Htargets.
    specialize (Htargets entry (proj1 (list_elem_of_In _ _) Hin)).
    apply Nat.ltb_lt in Htargets. apply lookup_lt_is_Some. by rewrite HL.
  - exists x. split; [done|]. split; [done|]. by left.
  - unfold task. rewrite Hrun.
    destruct Hdone as (x' & Hx' & _ & Hstyle & Hvisible).
    { left. apply elem_of_watched. rewrite HR. split; [done | by apply list_elem_of_In]. }
    exists x'. by repeat split.
Qed.

Lemma reveal_applies_delay_witness :
  let w := exec DOMContentLoaded (Demo.world "Ada") in
  exists e',
    document (intersect [mkEntry 10 true; mkEntry 11 true] w) !! 11%nat = Some e'
    /\ "visible" ∈ classList e'
    /\ style e' = <["--reveal-delay" := "200ms"]> ∅.
Proof.
  apply (reveal_applies_delay (exec DOMContentLoaded (Demo.world "Ada"))
           [mkEntry 10 true; mkEntry 11 true] 11
           (Demo.tag "div" (Some 0%nat) [("data-delay", "200ms")] ["reveal"])).
  - reflexivity.
  - vm_compute. reflexivity.
  - cbn. right. left. reflexivity.
  - reflexivity.
Defined.

(** ** The label of the application button *)

(** X25: the application flow restores the label of its button as text.
    [submitApplication] keeps the [textContent] of the button and the
    timeout writes it back through [innerHTML]: after a valid submission
    the markup of the button is the text of its old label, so an icon
    element in front of the text is gone.  (The info-request flow keeps and
    restores [innerHTML].) *)
Theorem application_label_becomes_text
    (w : World) (submitButton : node) (b : Element) (f m : node)
    (formData : FormData.t) (label : string) (fuel : nat) :
  application_ready w submitButton b f m formData ->
  labelled b label ->
  let w2 := run_until (S fuel) (now w + 2000) (exec (submitApplication submitButton) w) in
  exists b', document w2 !! submitButton = Some b'
    /\ disabled b' = false
    /\ innerHTML b' = label
    /\ (forall classes, content b = HTML (icon classes +:+ label) ->
        innerHTML b' <> innerHTML b).
Proof.
  intros Hready Hlabel w2.
  destruct (application_ready_container _ _ _ _ _ _ Hready) as (s & d' & Hs).
  unfold w2.
  rewrite (submitApplication_fires _ _ _ _ _ _ s d' fuel _ Hready Hs) by lia.
  destruct (submitted_world_waits w submitButton b f m formData s d' fuel (now w + 2000))
    as (Hd & _ & _); [lia|].
  rewrite Hd. unfold submitted_world. proj.
  destruct Hready as (_ & _ & Hb & Hnot & _).
  destruct (submitted_button f submitButton s b _ d' Hs Hb Hnot)
    as (b' & Hb' & Hdis & Hcontent).
  assert (innerHTML b' = label) as Hmarkup.
  { unfold innerHTML. rewrite Hcontent. by apply textContent_labelled. }
  exists b'. split; [done|]. split; [done|]. split; [done|].
  intros classes Hicon. rewrite Hmarkup. unfold innerHTML. rewrite Hicon.
  intros Heq. destruct Hlabel as [Hverbatim _].
  rewrite Heq in Hverbatim. discriminate.
Qed.

Lemma icon_application_ready :
  application_ready
    (set_document (alter (with_content (HTML (icon "bi-send" +:+ " Apply"))) 19%nat)
       (Demo.opened "Ada"))
    19 (with_content (HTML (icon "bi-send" +:+ " Apply"))
          (Demo.button [] 13 "Submit Application")) 13 12
    (FormData.mk "Ada" "Lovelace" "ada@example.edu" "computer-science" "fall-2026" 0).
Proof. ready. Qed.

Lemma application_label_becomes_text_witness :
  let b := with_content (HTML (icon "bi-send" +:+ " Apply"))
             (Demo.button [] 13 "Submit Application") in
  let w := set_document (alter (with_content (HTML (icon "bi-send" +:+ " Apply"))) 19%nat)
             (Demo.opened "Ada") in
  let w2 := run_until 1 (now w + 2000) (exec (submitApplication 19) w) in
  exists b', document w2 !! 19%nat = Some b'
    /\ disabled b' = false
    /\ innerHTML b' = " Apply"
    /\ (forall classes, content b = HTML (icon classes +:+ " Apply") ->
        innerHTML b' <> innerHTML b).
Proof.
  exact (application_label_becomes_text
           (set_document (alter (with_content (HTML (icon "bi-send" +:+ " Apply"))) 19%nat)
              (Demo.opened "Ada"))
           19 (with_content (HTML (icon "bi-send" +:+ " Apply"))
                 (Demo.button [] 13 "Submit Application")) 13 12
           (FormData.mk "Ada" "Lovelace" "ada@example.edu" "computer-science"
              "fall-2026" 0)
           " Apply" 0 icon_application_ready
           (conj eq_refl (or_intror (or_intror
              (ex_intro _ "bi-send" (conj eq_refl eq_refl)))))).
Defined.

(** A label with markup: the icon of the button does not come back. *)
Example application_label_loses_markup :
  let icon := "<i class=" +:+ dquote +:+ "bi-send" +:+ dquote +:+ "></i> Apply" in
  let w := set_document (alter (with_content (HTML icon)) 19%nat) (Demo.opened "Ada") in
  let w2 := run_until 1 2000 (exec (submitApplication 19) w) in
  innerHTML <$> document w !! 19%nat = Some icon
  /\ innerHTML <$> document w2 !! 19%nat = Some " Apply".
Proof. vm_compute. split; reflexivity. Qed.

(** ** A counter from load to its final text *)

Lemma find_is_timer_filter_other (id id' : nat) (ts : list Timer) :
  id <> id' ->
  find (is_timer id) (filter (fun t => is_timer id' t = false) ts)
  = find (is_timer id) ts.
Proof.
  intros Hne. induction ts as [|t ts IH]; [done|].
  rewrite filter_cons. cbn [find]. destruct (is_timer id t) eqn:Hid.
  - assert (is_timer id' t = false) as Hid'.
    { unfold is_timer in *. apply Nat.eqb_eq in Hid. apply Nat.eqb_neq. lia. }
    rewrite decide_True by done. cbn [find]. by rewrite Hid.
  - case_decide; [cbn [find]; by rewrite Hid | done].
Qed.

Lemma find_is_timer_fmap_other (id id' : nat) (g : Timer -> Timer) (ts : list Timer) :
  id <> id' ->
  (forall t, timer_id (g t) = timer_id t) ->
  find (is_timer id) ((fun t => if is_timer id' t then g t else t) <$> ts)
  = find (is_timer id) ts.
Proof.
  intros Hne Hg. rewrite find_is_timer_fmap.
  - destruct (find (is_timer id) ts) as [t|] eqn:Hfind; [|done]. cbn.
    apply find_some in Hfind as [_ Hid].
    assert (is_timer id' t = false) as ->; [|done].
    unfold is_timer in *. apply Nat.eqb_eq in Hid. apply Nat.eqb_neq. lia.
  - intros t. by destruct (is_timer id' t).
Qed.

Lemma find_is_timer_rearm_other (id : nat) (t' : Timer) (ts : list Timer) :
  id <> timer_id t' ->
  find (is_timer id) (rearm t' ts) = find (is_timer id) ts.
Proof.
  intros Hne. unfold rearm. destruct (repeat t').
  - by apply (find_is_timer_fmap_other id (timer_id t')
                (fun t => mkTimer (timer_id t) (due t + z) (repeat t) (callback t))).
  - by apply find_is_timer_filter_other.
Qed.

Lemma find_is_timer_store_other (id id' : nat) (cur : float) (ts : list Timer) :
  id <> id' ->
  find (is_timer id) ((fun t => if is_timer id' t then with_current cur t else t) <$> ts)
  = find (is_timer id) ts.
Proof.
  intros Hne. apply (find_is_timer_fmap_other id id' (with_current cur)); [done|].
  intros t. unfold with_current. by destruct (callback t).
Qed.

(** The shape of the timers is kept by the writes of a tick. *)
Lemma Forall_rearm (P : Timer -> Prop) (t : Timer) (ts : list Timer) :
  (forall t ms, P t -> P (mkTimer (timer_id t) (due t + ms) (repeat t) (callback t))) ->
  Forall P ts -> Forall P (rearm t ts).
Proof.
  intros HP H. unfold rearm. destruct (repeat t).
  - apply Forall_fmap. eapply Forall_impl; [exact H|].
    intros t' Ht'. cbn. destruct (is_timer (timer_id t) t'); [by apply HP | done].
  - by apply Forall_filter_keep.
Qed.

Lemma Forall_store (P : Timer -> Prop) (id : nat) (cur : float) (ts : list Timer) :
  (forall t, P t -> P (with_current cur t)) ->
  Forall P ts ->
  Forall P ((fun t => if is_timer id t then with_current cur t else t) <$> ts).
Proof.
  intros HP H. apply Forall_fmap. eapply Forall_impl; [exact H|].
  intros t Ht. cbn. destruct (is_timer id t); [by apply HP | done].
Qed.

Lemma with_current_targets (el : node) (cur : float) (t : Timer) :
  targets el (with_current cur t) = targets el t
  /\ timer_id (with_current cur t) = timer_id t
  /\ is_counter_tick (with_current cur t) = is_counter_tick t.
Proof.
  unfold with_current, targets, is_counter_tick.
  destruct (callback t) eqn:Hcb; cbn; rewrite ?Hcb; done.
Qed.

(** What a tick of a counter animation leaves alone. *)
Lemma tick_frame (id' : nat) (t : Timer) (el' : node) (tg : float) (sf : string)
    (inc cur : float) (w : World) :
  find (is_timer id') (timers w) = Some t ->
  callback t = CounterTick el' tg sf inc cur ->
  next_timer (tick id' w) = next_timer w
  /\ counters (tick id' w) = counters w
  /\ (forall el, animations el (tick id' w) = animations el w)
  /\ (exists g, document (tick id' w) = alter g el' (document w)
                /\ forall e, classList (g e) = classList e)
  /\ (forall P : Timer -> Prop,
        (forall t ms, P t ->
                      P (mkTimer (timer_id t) (due t + ms) (repeat t) (callback t))) ->
        (forall t cur, P t -> P (with_current cur t)) ->
        Forall P (timers w) -> Forall P (timers (tick id' w)))
  /\ (forall id, id <> id' ->
        find (is_timer id) (timers (tick id' w)) = find (is_timer id) (timers w)).
Proof.
  intros Hfind Hcb. unfold tick. rewrite Hfind.
  pose proof (find_some _ _ Hfind) as [_ Ht].
  assert (timer_id t = id') as Hid by by apply Nat.eqb_eq in Ht.
  unfold fire, task. rewrite Hcb. cbn [run_callback]. unfold counterTick.
  destruct (tg <=? cur + inc)%float; js; rewrite Hid; proj.
  - repeat split; try done.
    + intros el. unfold animations. proj.
      rewrite List.filter_app, length_app. cbn. lia.
    + eexists. split; [reflexivity | done].
    + intros P Hshift Hstore HP.
      apply Forall_store; [by auto|]. apply Forall_filter_keep.
      by apply Forall_rearm.
    + intros id Hne. rewrite find_is_timer_store_other by done.
      rewrite find_is_timer_filter_other by done.
      apply find_is_timer_rearm_other. by rewrite Hid.
  - repeat split; try done.
    + eexists. split; [reflexivity | done].
    + intros P Hshift Hstore HP.
      apply Forall_store; [by auto|]. by apply Forall_rearm.
    + intros id Hne. rewrite find_is_timer_store_other by done.
      apply find_is_timer_rearm_other. by rewrite Hid.
Qed.

Section CounterLife.

Variables (el : node) (target : float) (suffix : string).

Lemma counter_life_tick (id' : nat) (w : World) :
  counter_life el target suffix w -> counter_life el target suffix (tick id' w).
Proof.
  intros (Hwf & Hcfg & Hlife).
  destruct (find (is_timer id') (timers w)) as [t|] eqn:Hfind;
    [|unfold tick; rewrite Hfind; by repeat split].
  pose proof (find_some _ _ Hfind) as [Hin Ht].
  assert (timer_id t = id') as Hid by by apply Nat.eqb_eq in Ht.
  apply list_elem_of_In in Hin.
  pose proof Hwf as Hwf'. unfold timers_wf in Hwf'. rewrite Forall_forall in Hwf'.
  destruct (Hwf' t Hin) as [Hlt Htick].
  unfold is_counter_tick in Htick.
  destruct (callback t) as [el' tg sf inc cur| | |] eqn:Hcb; try discriminate.
  destruct (tick_frame id' t el' tg sf inc cur w Hfind Hcb)
    as (Hnext & Hcounters & Hanim & (g & Hdoc & Hg) & Hforall & Hother).
  split; [|split].
  - unfold timers_wf. rewrite Hnext. apply Hforall; [..|done].
    + by intros t0 ms [? ?].
    + intros t0 c [? ?].
      destruct (with_current_targets el c t0) as (_ & -> & ->). done.
  - by rewrite Hcounters.
  - destruct Hlife as [(Ha & Hel & Hnone)|(id & Hid_lt & Hinv & Hclass & Honly)].
    + left. rewrite Hanim, Hdoc. split; [done|]. split.
      * destruct Hel as [e He]. destruct (decide (el' = el)) as [->|Hne].
        -- rewrite list_lookup_alter_eq, He. by eexists.
        -- rewrite list_lookup_alter_ne by done. by eexists.
      * apply Hforall; [..|done].
        -- by intros t0 ms ?.
        -- intros t0 c ?.
           destruct (with_current_targets el c t0) as (-> & _). done.
    + right. exists id. rewrite Hnext. split; [done|]. split; [|split].
      * destruct (decide (id = id')) as [->|Hne]; [by apply counter_inv_tick|].
        assert (el' <> el) as Hel'.
        { intros ->. rewrite Forall_forall in Honly. apply Hne.
          rewrite <- Hid. symmetry. apply Honly; [done|].
          unfold targets. rewrite Hcb. apply Nat.eqb_refl. }
        destruct Hinv as [Hel Hinv]. split.
        -- rewrite Hdoc, list_lookup_alter_ne by done. exact Hel.
        -- rewrite Hother by done. destruct (find (is_timer id) (timers w)); [done|].
           by rewrite Hdoc, list_lookup_alter_ne.
      * eapply has_class_alter; [exact Hdoc | | done].
        intros e. by rewrite Hg.
      * apply Hforall; [..|done].
        -- by intros t0 ms ?.
        -- intros t0 c H0.
           destruct (with_current_targets el c t0) as (-> & -> & _). done.
Qed.

Lemma counter_life_ext (w w' : World) :
  document w' = document w -> timers w' = timers w ->
  next_timer w' = next_timer w -> counters w' = counters w ->
  animations el w' = animations el w ->
  counter_life el target suffix w -> counter_life el target suffix w'.
Proof.
  unfold counter_life, timers_wf, counter_inv, has_class.
  by intros -> -> -> -> ->.
Qed.

Lemma counter_life_uncaught (err : string) (w : World) :
  counter_life el target suffix w ->
  counter_life el target suffix (log_call (Uncaught err) w).
Proof.
  apply counter_life_ext; try done.
  rewrite animations_log_call. cbn. lia.
Qed.

(** A write to the classes or the style of an element. *)
Lemma counter_life_alter (g : Element -> Element) (n : node) (w : World) :
  (forall e, textContent (g e) = textContent e) ->
  (forall e, "counting" ∈ classList e -> "counting" ∈ classList (g e)) ->
  counter_life el target suffix w ->
  counter_life el target suffix (set_document (alter g n) w).
Proof.
  intros Htext Hclass (Hwf & Hcfg & Hlife). split; [done|]. split; [done|].
  assert (is_Some (document w !! el) ->
          is_Some (document (set_document (alter g n) w) !! el)) as Hsome.
  { intros [e He]. proj. destruct (decide (n = el)) as [->|Hne].
    - rewrite list_lookup_alter_eq, He. by eexists.
    - rewrite list_lookup_alter_ne by done. by eexists. }
  destruct Hlife as [(Ha & Hel & Hnone)|(id & Hid_lt & [Hel Hinv] & Hc & Honly)].
  - left. by repeat split; [|apply Hsome|].
  - right. exists id. split; [done|]. split; [|split; [|done]].
    + split; [by apply Hsome|]. proj.
      destruct (find (is_timer id) (timers w)); [done|].
      destruct (decide (n = el)) as [->|Hne].
      * rewrite list_lookup_alter_eq.
        destruct (document w !! el) as [e|]; [|done]. cbn in *.
        by rewrite Htext.
      * by rewrite list_lookup_alter_ne.
    + by eapply has_class_alter.
Qed.

Lemma counter_life_fade (entry : Entry) (w : World) :
  counter_life el target suffix w ->
  counter_life el target suffix (exec (fadeObserver_entry entry) w).
Proof.
  unfold fadeObserver_entry, exec. destruct (isIntersecting entry); js; [|done].
  apply counter_life_alter; [done|].
  intros e. cbn [classList with_classList]. by apply elem_of_union_l.
Qed.

Lemma counter_life_reveal (entry : Entry) (w : World) :
  counter_life el target suffix w ->
  counter_life el target suffix (exec (revealObserver_entry entry) w).
Proof.
  intros Hw. unfold revealObserver_entry, exec. destruct (isIntersecting entry); js; [|done].
  destruct (document w !! entry_target entry) as [e|]; [|done].
  assert (forall w, counter_life el target suffix w ->
            counter_life el target suffix
              (set_revealObserver (fun targets => targets ∖ {[entry_target entry]})
                 (set_document
                    (alter (with_classList (fun c => c ∪ {["visible"]}))
                       (entry_target entry)) w))) as Hvisible.
  { intros w1 Hw1. eapply counter_life_ext; [..|apply counter_life_alter; [| |exact Hw1]];
      try done.
    intros e'. cbn [classList with_classList]. by apply elem_of_union_l. }
  destruct (truthy (getAttribute e "data-delay")); js.
  - apply (Hvisible (set_document (alter (with_style (fun st => <["--reveal-delay" := _]> st))
                                     (entry_target entry)) w)).
    by apply counter_life_alter.
  - by apply Hvisible.
Qed.

Lemma find_is_timer_fresh (w : World) :
  timers_wf w -> find (is_timer (next_timer w)) (timers w) = None.
Proof.
  unfold timers_wf. generalize (next_timer w). intros n H.
  induction H as [|t ts [Hlt _] _ IH]; [done|].
  cbn [find]. unfold is_timer at 1.
  destruct (Nat.eqb_spec (timer_id t) n); [lia | exact IH].
Qed.

Lemma find_app_some {A} (P : A -> bool) (l1 l2 : list A) (x : A) :
  find P l1 = Some x -> find P (l1 ++ l2) = Some x.
Proof.
  induction l1 as [|y l1 IH]; [done|].
  cbn. destruct (P y); [done | exact IH].
Qed.

Lemma counter_life_counter (entry : Entry) (w : World) :
  counter_life el target suffix w ->
  counter_life el target suffix (exec (counterObserver_entry entry) w).
Proof.
  intros Hw. unfold counterObserver_entry, exec.
  destruct (isIntersecting entry); js; [|done].
  destruct (find _ (counters w)) as [counter|] eqn:Hfind; [|done].
  pose proof (find_some _ _ Hfind) as [_ Hel%bool_decide_eq_true].
  rewrite Hel. js. set (el0 := entry_target entry) in *.
  destruct (document w !! el0) as [e|] eqn:He; js; [|done].
  destruct (contains e "counting") eqn:Hcounting; cbn [negb]; [done|].
  unfold animateCounter. js.
  destruct Hw as (Hwf & Hcfg & Hlife).
  split; [|split; [done|]].
  { unfold timers_wf in *. proj. apply Forall_app. split.
    - eapply Forall_impl; [exact Hwf|]. intros t [? ?]. split; [lia | done].
    - constructor; [|done]. split; [cbn; lia | done]. }
  assert (forall n, is_Some (document w !! n) ->
            is_Some (alter (with_classList (fun c => c ∪ {["counting"]})) el0
                       (document w) !! n)) as Hsome.
  { intros n [e' He']. destruct (decide (el0 = n)) as [->|Hne].
    - rewrite list_lookup_alter_eq, He'. by eexists.
    - rewrite list_lookup_alter_ne by done. by eexists. }
  destruct (decide (el0 = el)) as [Heq|Hne].
  - right. exists (next_timer w). subst el0. rewrite Heq in *.
    rewrite Hcfg in Hfind. injection Hfind as <-.
    cbn [counter_target counter_suffix].
    destruct Hlife as [(Ha & Hsome_el & Hnone)|(id & _ & _ & (e' & He' & Hc) & _)].
    + split; [proj; lia|]. split; [|split].
      * split; proj; [by apply Hsome|].
        rewrite find_app_none by by apply find_is_timer_fresh.
        cbn [find]. unfold is_timer. cbn [timer_id]. rewrite Nat.eqb_refl.
        split; [by eexists | by eexists].
      * unfold has_class. proj. rewrite list_lookup_alter_eq, He.
        eexists. split; [done|]. cbn [classList with_classList].
        by apply elem_of_union_r, elem_of_singleton.
      * proj. apply Forall_app. split; [|by repeat constructor].
        eapply Forall_impl; [exact Hnone|]. intros t ->. discriminate.
    + exfalso. assert (e' = e) as -> by congruence.
      unfold contains in Hcounting. by apply bool_decide_eq_false in Hcounting.
  - assert (forall tg sf inc cur ms due,
              targets el (mkTimer (next_timer w) due ms (CounterTick el0 tg sf inc cur))
              = false) as Hnew.
    { intros. unfold targets. cbn [callback]. by apply Nat.eqb_neq. }
    destruct Hlife as [(Ha & Hsome_el & Hnone)|(id & Hid_lt & [Hel_some Hinv] & Hc & Honly)].
    + left. split; [|split].
      * unfold animations in *. proj.
        rewrite List.filter_app, length_app. cbn [List.filter starts_animation].
        destruct (Nat.eqb_spec el0 el); [done|]. cbn [length]. lia.
      * proj. by apply Hsome.
      * proj. apply Forall_app. split; [done|]. repeat constructor. apply Hnew.
    + right. exists id. split; [proj; lia|]. split; [|split].
      * split; proj; [by apply Hsome|].
        rewrite list_lookup_alter_ne by done.
        destruct (find (is_timer id) (timers w)) as [t|] eqn:Ht.
        -- by rewrite (find_app_some _ _ _ _ Ht).
        -- rewrite find_app_none by done. cbn [find]. unfold is_timer. cbn [timer_id].
           destruct (Nat.eqb_spec (next_timer w) id); [lia | done].
      * eapply has_class_alter; [done | | exact Hc].
        intros e'. cbn [classList with_classList]. by apply elem_of_union_l.
      * proj. apply Forall_app. split; [done|]. repeat constructor.
        rewrite Hnew. discriminate.
Qed.

Lemma counter_life_run (events : list Event) (w : World) :
  counter_life el target suffix w -> counter_life el target suffix (run events w).
Proof.
  revert w. induction events as [|ev events IH]; intros w Hw; [done|].
  cbn [run fold_left]. apply IH. destruct ev as [entries|timer]; cbn [step].
  - unfold intersect.
    apply (task_preserves (counter_life el target suffix));
      [| apply counter_life_uncaught |].
    { intros w1 Hw1. apply (forEach_preserves (counter_life el target suffix)); [|done].
      intros entry w2. apply counter_life_reveal. }
    apply (task_preserves (counter_life el target suffix));
      [| apply counter_life_uncaught |].
    { intros w1 Hw1. apply (forEach_preserves (counter_life el target suffix)); [|done].
      intros entry w2. apply counter_life_fade. }
    apply (task_preserves (counter_life el target suffix));
      [| apply counter_life_uncaught | done].
    intros w1 Hw1. apply (forEach_preserves (counter_life el target suffix)); [|done].
    intros entry w2. apply counter_life_counter.
  - by apply counter_life_tick.
Qed.

End CounterLife.

Lemma loaded_life (w0 : World) (i : string) (target : float) (suffix : string)
    (el : node) :
  timers w0 = [] ->
  trace w0 = [] ->
  In (i, target, suffix) configured ->
  getElementById (document w0) i = Some el ->
  counter_life el target suffix (exec DOMContentLoaded w0).
Proof.
  intros Ht Htr Hin Hel.
  destruct (DOMContentLoaded_fresh w0) as [Hts Ha].
  { split; [done|]. intros el'. unfold animations. by rewrite Htr. }
  split; [|split].
  - unfold timers_wf. rewrite Hts. constructor.
  - unfold DOMContentLoaded.
    erewrite exec_bind by reflexivity.
    erewrite exec_bind by apply initializeCounters_eq.
    set (P := fun w : World =>
                find (is_counter_of el) (counters w)
                = Some (mkCounter (Some el) target suffix)).
    assert (forall m : JSM unit, stable P m -> forall w, P w -> P (exec m w)) as Hstable
      by done.
    apply Hstable.
    + unfold initializeScrollEffects, initializeNavigation, initializeInfoRequestForm,
        initializeRevealAnimations, observe.
      stable_steps ltac:(by intros ?).
    + unfold P. proj. by apply find_configured with i.
  - left. split; [done|]. split; [|rewrite Hts; constructor].
    rewrite DOMContentLoaded_document.
    by apply getElementById_Some in Hel.
Qed.

(** X27: a counter that has run shows its final text.  After the page has
    loaded, whatever intersections the browser reports and whichever timers
    fire, in any order and mixed with the animations of the other counters:
    once the animation of a configured counter has been started and no
    pending timer animates it any more (its interval has been cleared), the
    element shows the configured target, formatted, followed by the
    suffix. *)
Theorem counter_finishes (w0 : World) (events : list Event) (i : string)
    (target : float) (suffix : string) (el : node) :
  timers w0 = [] ->
  trace w0 = [] ->
  In (i, target, suffix) configured ->
  getElementById (document w0) i = Some el ->
  let w := run events (exec DOMContentLoaded w0) in
  animations el w = 1%nat ->
  Forall (fun t => targets el t = false) (timers w) ->
  textContent <$> document w !! el = Some (final_text target suffix).
Proof.
  intros Ht Htr Hin Hel w Hstarted Hdone.
  assert (counter_life el target suffix w) as (Hwf & _ & Hlife).
  { apply counter_life_run. by apply loaded_life with i. }
  destruct Hlife as [(Ha & _)|(id & _ & [_ Hinv] & _ & _)]; [congruence|].
  destruct (find (is_timer id) (timers w)) as [t|] eqn:Hfind; [|done].
  exfalso. destruct Hinv as [_ [cur Hcb]].
  apply find_some in Hfind as [Hin_t _]. apply list_elem_of_In in Hin_t.
  rewrite Forall_forall in Hdone. specialize (Hdone t Hin_t).
  unfold targets in Hdone. rewrite Hcb, Nat.eqb_refl in Hdone. discriminate.
Qed.

Lemma counter_finishes_witness :
  let w := run (Intersect [mkEntry 7 true]
                :: replicate 20 (Tick 0)
                ++ Intersect [mkEntry 6 true; mkEntry 7 true]
                :: replicate 30 (Tick 1) ++ replicate 30 (Tick 0))
             (exec DOMContentLoaded (Demo.world "Ada")) in
  textContent <$> document w !! 7%nat = Some "150+".
Proof.
  apply (counter_finishes (Demo.world "Ada")
           (Intersect [mkEntry 7 true]
            :: replicate 20 (Tick 0)
            ++ Intersect [mkEntry 6 true; mkEntry 7 true]
            :: replicate 30 (Tick 1) ++ replicate 30 (Tick 0))
           "program-count" 150%float "+" 7).
  - reflexivity.
  - reflexivity.
  - cbn. right. left. reflexivity.
  - reflexivity.
  - vm_compute. reflexivity.
  - vm_compute. repeat constructor.
Defined.
